(** * ChartGPU: render scheduling, scales and the worker bridge

    A shallow embedding of the parts of ChartGPU that its design document
    makes promises about:

    - [JS]               : the JavaScript numbers the code computes with
    - [RenderScheduler]  : src/core/RenderScheduler.ts
    - [LinearScale]      : createLinearScale (src/config/types.ts)
    - [CategoryScale]    : createCategoryScale (src/config/types.ts)
    - [Wire]             : serializeDataPoints / deserializeDataPoints
    - [Controller]       : ChartGPUWorkerController (worker side)
    - [Proxy]            : ChartGPUWorkerProxy (host side)
    - [Bridge]           : a proxy call followed by the controller's handler
    - [JSArith]          : more of the arithmetic of JavaScript numbers
    - [Histogram]        : computeHistogramBins and quartile
    - [Heatmap]          : mapValueToColor and getColormap of the heatmap renderer
    - [Options]          : resolveOptions with its helpers, and getSeriesColor
                           of the legend

    The modules whose names end in [Facts] hold further properties of the
    code embedded in the module they are named after.

    A definition that carries the name of a TypeScript function or method is
    a transcription of it; the comment in front of it says where it comes
    from.  Parts of handlers that the source writes inline are given names of
    their own where several proofs need them, and the comment says so. *)

From Stdlib Require Import ZArith QArith Qround Qabs Lia Lqa List Bool.
From stdpp Require Import gmap strings list.
From coqutil Require Import Word.LittleEndianList Byte.

(* ====================================================================== *)
(** * JavaScript numbers                                                   *)
(* ====================================================================== *)

Module JS.

(** A JavaScript [number].  Finite values are kept as exact rationals, so the
    arithmetic below neither rounds nor overflows; [NaN] and the two infinities
    are values of their own because the code tests for them
    ([Number.isFinite], comparisons that are false on [NaN]). *)
Inductive number : Type :=
| NaN
| PosInf
| NegInf
| Fin (q : Q).

Definition ofZ (z : Z) : number := Fin (inject_Z z).
Definition ofNat (n : nat) : number := ofZ (Z.of_nat n).

(** [Number.isFinite(x)] *)
Definition isFinite (x : number) : bool :=
  match x with Fin _ => true | _ => false end.

(** [Number.isInteger(x)] *)
Definition isInteger (x : number) : bool :=
  match x with Fin q => Qeq_bool (inject_Z (Qfloor q)) q | _ => false end.

(** [a < b]; false as soon as one side is [NaN]. *)
Definition lt (a b : number) : bool :=
  match a, b with
  | NaN, _ | _, NaN => false
  | _, NegInf => false
  | NegInf, _ => true
  | PosInf, _ => false
  | Fin _, PosInf => true
  | Fin x, Fin y => negb (Qle_bool y x)
  end.

(** [a <= b] *)
Definition le (a b : number) : bool :=
  match a, b with
  | NaN, _ | _, NaN => false
  | NegInf, _ => true
  | _, PosInf => true
  | PosInf, _ => false
  | Fin _, NegInf => false
  | Fin x, Fin y => Qle_bool x y
  end.

(** [a > b] and [a >= b] *)
Definition gt (a b : number) : bool := lt b a.
Definition ge (a b : number) : bool := le b a.

(** [a === b] on numbers: [NaN] is different from everything, itself included. *)
Definition strict_eq (a b : number) : bool :=
  match a, b with
  | Fin x, Fin y => Qeq_bool x y
  | PosInf, PosInf | NegInf, NegInf => true
  | _, _ => false
  end.

(** Sign of a non-[NaN] number: -1, 0 or 1. *)
Definition sign (a : number) : Z :=
  match a with
  | NaN => 0
  | PosInf => 1
  | NegInf => -1
  | Fin q => Z.sgn (Qnum q)
  end.

(** [a * b] *)
Definition mul (a b : number) : number :=
  match a, b with
  | NaN, _ | _, NaN => NaN
  | Fin x, Fin y => Fin (x * y)
  | _, _ =>
      match (sign a * sign b)%Z with
      | Z0 => NaN
      | Zpos _ => PosInf
      | Zneg _ => NegInf
      end
  end.

(** [Math.floor(a)] *)
Definition floor (a : number) : number :=
  match a with Fin q => Fin (inject_Z (Qfloor q)) | _ => a end.

(** [Math.min(a, b)] and [Math.max(a, b)]: [NaN] if either argument is. *)
Definition min (a b : number) : number :=
  match a, b with
  | NaN, _ | _, NaN => NaN
  | _, _ => if le a b then a else b
  end.

Definition max (a b : number) : number :=
  match a, b with
  | NaN, _ | _, NaN => NaN
  | _, _ => if le a b then b else a
  end.

End JS.

(* ====================================================================== *)
(** * RenderScheduler (src/core/RenderScheduler.ts)                        *)
(* ====================================================================== *)

Module RenderScheduler.

(** What a render callback may do to the scheduler that is running it. *)
Inductive Reentrant : Type :=
| CallStop            (* scheduler.stop() *)
| CallRequestRender.  (* scheduler.requestRender() *)

(** [RenderCallback]: receives the delta time; its result lists the calls it
    makes back into the scheduler while it runs. *)
Definition RenderCallback : Type := Q -> list Reentrant.

(** The private fields of the class (lines 36-40). *)
Record Fields : Type := mkFields {
  rafId : option nat;
  isRunning : bool;
  lastFrameTime : Q;
  _dirty : bool
}.

(** A scheduler together with the host's animation-frame queue and the record
    of what the callback was called with. *)
Record Scheduler : Type := mkScheduler {
  fields : Fields;
  callback : option RenderCallback;   (* captured by [frameHandler] in [start] *)
  nextRafId : nat;                    (* next handle requestAnimationFrame returns *)
  rafQueue : list nat;                (* frame requests not yet run or cancelled *)
  rendered : list Q                   (* delta times passed to the callback, oldest first *)
}.

Inductive StartError : Type :=
| CallbackRequired     (* 'Render callback is required' *)
| AlreadyRunning.      (* 'RenderScheduler is already running. ...' *)

(** [new RenderScheduler()] *)
Definition create : Scheduler :=
  mkScheduler (mkFields None false 0 false) None 0 [] [].

Definition setFields (f : Fields) (s : Scheduler) : Scheduler :=
  mkScheduler f (callback s) (nextRafId s) (rafQueue s) (rendered s).

(** [requestAnimationFrame(frameHandler)]: queue a request, return its handle. *)
Definition requestAnimationFrame (s : Scheduler) : nat * Scheduler :=
  (nextRafId s,
   mkScheduler (fields s) (callback s) (S (nextRafId s))
               (rafQueue s ++ [nextRafId s]) (rendered s)).

(** [cancelAnimationFrame(id)] *)
Definition cancelAnimationFrame (id : nat) (s : Scheduler) : Scheduler :=
  mkScheduler (fields s) (callback s) (nextRafId s)
              (List.filter (fun j => negb (Nat.eqb j id)) (rafQueue s)) (rendered s).

(** [requestRender()] (lines 134-136) *)
Definition requestRender (s : Scheduler) : Scheduler :=
  let f := fields s in
  setFields (mkFields (rafId f) (isRunning f) (lastFrameTime f) true) s.

(** [stop()] (lines 112-119) *)
Definition stop (s : Scheduler) : Scheduler :=
  let f := fields s in
  let s := setFields (mkFields (rafId f) false (lastFrameTime f) (_dirty f)) s in
  match rafId f with
  | Some id =>
      let s := cancelAnimationFrame id s in
      let f := fields s in
      setFields (mkFields None (isRunning f) (lastFrameTime f) (_dirty f)) s
  | None => s
  end.

(** [start(callback)] (lines 59-99); [now] is what [performance.now()] returns. *)
Definition start (cb : option RenderCallback) (now : Q) (s : Scheduler)
  : StartError + Scheduler :=
  match cb with
  | None => inl CallbackRequired
  | Some cb =>
      if isRunning (fields s) then inl AlreadyRunning
      else
        let f := fields s in
        let s := mkScheduler (mkFields (rafId f) true now true) (Some cb)
                             (nextRafId s) (rafQueue s) (rendered s) in
        let '(id, s) := requestAnimationFrame s in
        let f := fields s in
        inr (setFields (mkFields (Some id) (isRunning f) (lastFrameTime f) (_dirty f)) s)
  end.

(** The effect of the calls a callback makes while it runs. *)
Definition reenter (c : Reentrant) (s : Scheduler) : Scheduler :=
  match c with
  | CallStop => stop s
  | CallRequestRender => requestRender s
  end.

(** [frameHandler(currentTime)] (lines 73-95). *)
Definition frameHandler (currentTime : Q) (s : Scheduler) : Scheduler :=
  let f := fields s in
  if negb (isRunning f) then s
  else
    let deltaTime := (currentTime - lastFrameTime f)%Q in
    let f := mkFields (rafId f) (isRunning f) currentTime (_dirty f) in
    (* if (this._dirty) { this._dirty = false; } *)
    let f := if _dirty f then mkFields (rafId f) (isRunning f) (lastFrameTime f) false
             else f in
    let s := setFields f s in
    (* callback(deltaTime) *)
    let calls := match callback s with Some cb => cb deltaTime | None => [] end in
    let s := mkScheduler (fields s) (callback s) (nextRafId s) (rafQueue s)
                         (rendered s ++ [deltaTime]) in
    let s := fold_left (fun acc c => reenter c acc) calls s in
    (* if (this.isRunning) { this.rafId = requestAnimationFrame(frameHandler); } *)
    if isRunning (fields s) then
      let '(id, s) := requestAnimationFrame s in
      let f := fields s in
      setFields (mkFields (Some id) (isRunning f) (lastFrameTime f) (_dirty f)) s
    else s.

(** One animation frame of the host at time [currentTime]: every request that
    is queued when the frame begins is taken off the queue and run. *)
Definition frame (currentTime : Q) (s : Scheduler) : Scheduler :=
  let due := rafQueue s in
  let s := mkScheduler (fields s) (callback s) (nextRafId s) [] (rendered s) in
  fold_left (fun acc _ => frameHandler currentTime acc) due s.

(** A callback that draws and leaves the scheduler alone. *)
Definition quietCallback : RenderCallback := fun _ => [].

(** ** Facts *)

Lemma rendered_setFields f s : rendered (setFields f s) = rendered s.
Proof. reflexivity. Qed.

Lemma rendered_reenter c s : rendered (reenter c s) = rendered s.
Proof.
  destruct c; simpl; [| reflexivity].
  unfold stop. destruct (rafId (fields s)); reflexivity.
Qed.

Lemma rendered_reenter_all calls : forall s,
  rendered (fold_left (fun acc c => reenter c acc) calls s) = rendered s.
Proof.
  induction calls as [| c calls IH]; intros s; simpl; [reflexivity |].
  rewrite IH. apply rendered_reenter.
Qed.

(** C2, as the code has it: a running scheduler calls the render callback on
    every frame, whatever the dirty flag says.  [frameHandler] passes the
    callback the time elapsed since the previous frame exactly once; the flag is
    only reset: it is false after the frame unless the callback itself calls
    [requestRender] (the source keeps the flag "for future use" and says that
    all frames render regardless of it). *)
Theorem frameHandler_renders_every_frame (s : Scheduler) (currentTime : Q) :
  isRunning (fields s) = true ->
  rendered (frameHandler currentTime s)
  = rendered s ++ [(currentTime - lastFrameTime (fields s))%Q]
  /\ (forall cb, callback s = Some cb ->
        cb (currentTime - lastFrameTime (fields s))%Q = [] ->
        _dirty (fields (frameHandler currentTime s)) = false).
Proof.
  intros Hrun. split.
  - unfold frameHandler. rewrite Hrun. cbn [negb].
    set (calls := match callback _ with Some cb => cb _ | None => [] end).
    match goal with
    | |- rendered (if isRunning (fields ?x) then _ else _) = _ =>
        destruct (isRunning (fields x)) eqn:E
    end.
    + cbn [requestAnimationFrame]. rewrite rendered_setFields. cbn [rendered].
      rewrite rendered_reenter_all. reflexivity.
    + rewrite rendered_reenter_all. reflexivity.
  - intros cb Hcb Hquiet. unfold frameHandler. rewrite Hrun. cbn [negb].
    cbn [callback setFields]. rewrite Hcb, Hquiet. cbn [fold_left].
    destruct (_dirty (fields s)) eqn:Hdirty; cbn; reflexivity.
Qed.

(** The scheduler right after [start] at time 0 and one frame at 16 ms: the
    first frame has consumed the dirty mark that [start] makes. *)
Definition afterFirstFrame : Scheduler :=
  match start (Some quietCallback) 0 create with
  | inr s => frame 16 s
  | inl _ => create
  end.

Lemma frameHandler_renders_every_frame_witness :
  isRunning (fields afterFirstFrame) = true
  /\ _dirty (fields afterFirstFrame) = false
  /\ rendered (frameHandler 32 afterFirstFrame)
     = rendered afterFirstFrame ++ [(32 - lastFrameTime (fields afterFirstFrame))%Q]
  /\ _dirty (fields (frameHandler 32 afterFirstFrame)) = false.
Proof.
  split; [reflexivity |]. split; [reflexivity |].
  destruct (frameHandler_renders_every_frame afterFirstFrame 32 eq_refl) as [Hr Hd].
  split; [exact Hr |]. apply (Hd quietCallback); reflexivity.
Defined.

(** C2 as stated fails: the loop is running, no [requestRender] has been made
    since the callback last ran (the dirty flag is false), and the next frame
    calls the callback all the same. *)
Lemma clean_frame_is_not_skipped :
  isRunning (fields afterFirstFrame) = true
  /\ _dirty (fields afterFirstFrame) = false
  /\ length (rendered afterFirstFrame) = 1%nat
  /\ length (rendered (frame 32 afterFirstFrame)) = 2%nat.
Proof. vm_compute. repeat split; reflexivity. Qed.

End RenderScheduler.

(* ====================================================================== *)
(** * Linear scale (createLinearScale, src/config/types.ts)                *)
(* ====================================================================== *)

Module LinearScale.
Import JS.
Local Open Scope Q_scope.

(** The four variables the closure of [createLinearScale] captures.  Only
    [domain] and [range] assign them, both behind [assertFinite], so they hold
    finite numbers and are kept as such. *)
Record LinearScale : Type := mkLinearScale {
  domainMin : Q;
  domainMax : Q;
  rangeMin : Q;
  rangeMax : Q
}.

(** '<label> must be a finite number. Received: <value>' *)
Inductive ScaleError : Type :=
| MustBeFinite (label : string) (value : number).

(** [assertFinite(label, value)]: throws unless [Number.isFinite(value)]; the
    finite value is handed back so that the caller can store it. *)
Definition assertFinite (label : string) (value : number) : ScaleError + Q :=
  if negb (isFinite value) then inl (MustBeFinite label value)
  else match value with Fin q => inr q | _ => inl (MustBeFinite label value) end.

(** [createLinearScale()]: identity mapping, domain [0, 1] -> range [0, 1]. *)
Definition createLinearScale : LinearScale := mkLinearScale 0 1 0 1.

(** [self.domain(min, max)] *)
Definition domain (min max : number) (s : LinearScale) : ScaleError + LinearScale :=
  match assertFinite "domain min" min with
  | inl e => inl e
  | inr lo =>
      match assertFinite "domain max" max with
      | inl e => inl e
      | inr hi => inr (mkLinearScale lo hi (rangeMin s) (rangeMax s))
      end
  end.

(** [self.range(min, max)] *)
Definition range (min max : number) (s : LinearScale) : ScaleError + LinearScale :=
  match assertFinite "range min" min with
  | inl e => inl e
  | inr lo =>
      match assertFinite "range max" max with
      | inl e => inl e
      | inr hi => inr (mkLinearScale (domainMin s) (domainMax s) lo hi)
      end
  end.

(** [self.scale(value)] *)
Definition scale (s : LinearScale) (value : number) : number :=
  match value with
  | Fin v =>
      if Qeq_bool (domainMin s) (domainMax s) then
        Fin ((rangeMin s + rangeMax s) / 2)
      else
        let t := (v - domainMin s) / (domainMax s - domainMin s) in
        Fin (rangeMin s + t * (rangeMax s - rangeMin s))
  | _ => NaN   (* if (!Number.isFinite(value)) return Number.NaN; *)
  end.

(** [self.invert(pixel)] *)
Definition invert (s : LinearScale) (pixel : number) : number :=
  match pixel with
  | Fin p =>
      if Qeq_bool (domainMin s) (domainMax s) then Fin (domainMin s)
      else if Qeq_bool (rangeMin s) (rangeMax s) then
        Fin ((domainMin s + domainMax s) / 2)
      else
        let t := (p - rangeMin s) / (rangeMax s - rangeMin s) in
        Fin (domainMin s + t * (domainMax s - domainMin s))
  | _ => NaN   (* if (!Number.isFinite(pixel)) return Number.NaN; *)
  end.

(** ** Facts *)

Lemma Qeq_bool_false_iff (a b : Q) : Qeq_bool a b = false <-> ~ a == b.
Proof.
  split.
  - intros H E. apply Qeq_bool_iff in E. congruence.
  - intros H. destruct (Qeq_bool a b) eqn:E; [| reflexivity].
    apply Qeq_bool_iff in E. contradiction.
Qed.

(** The scale is affine in between: on a non-degenerate domain [scale] takes
    the branch with the formula of the design document. *)
Lemma scale_formula (s : LinearScale) (v : Q) :
  ~ domainMin s == domainMax s ->
  scale s (Fin v)
  = Fin (rangeMin s
         + (v - domainMin s) / (domainMax s - domainMin s) * (rangeMax s - rangeMin s)).
Proof.
  intros Hd. unfold scale.
  apply Qeq_bool_false_iff in Hd. rewrite Hd. reflexivity.
Qed.


(** A scale from data years 2000..2020 onto 640 pixels, built through the
    public setters. *)
Definition yearsToPixels : LinearScale :=
  match domain (ofZ 2000) (ofZ 2020) createLinearScale with
  | inr s => match range (ofZ 0) (ofZ 640) s with inr s' => s' | inl _ => s end
  | inl _ => createLinearScale
  end.


End LinearScale.

(* ====================================================================== *)
(** * Category scale (createCategoryScale, src/config/types.ts)            *)
(* ====================================================================== *)

Module CategoryScale.
Import JS.
Local Open Scope Q_scope.

(** The variables the closure of [createCategoryScale] captures. *)
Record CategoryScale : Type := mkCategoryScale {
  categories : list string;
  indexByCategory : gmap string nat;
  rangeMin : Q;
  rangeMax : Q
}.

Inductive ScaleError : Type :=
| DuplicateCategory (c : string)   (* 'Category domain must not contain duplicates. Duplicate: ...' *)
| MustBeFinite (label : string) (value : number).

(** A setter either returns or throws; the scale it leaves behind is recorded
    in both cases, because the object is assigned to before the throw. *)
Inductive Outcome : Type :=
| Returned (s : CategoryScale)
| Threw (e : ScaleError) (s : CategoryScale).

(** [createCategoryScale()]: empty domain, range [0, 1]. *)
Definition createCategoryScale : CategoryScale := mkCategoryScale [] ∅ 0 1.

(** The loop of [rebuildIndex]: [i] is the loop counter, [nextIndex] the map
    built so far. *)
Fixpoint rebuildIndexFrom (i : nat) (nextCategories : list string)
         (nextIndex : gmap string nat) : ScaleError + gmap string nat :=
  match nextCategories with
  | [] => inr nextIndex
  | c :: rest =>
      match nextIndex !! c with
      | Some _ => inl (DuplicateCategory c)                 (* nextIndex.has(c) *)
      | None => rebuildIndexFrom (S i) rest (<[c := i]> nextIndex)
      end
  end.

(** [rebuildIndex(nextCategories)]; the caller stores the result in
    [indexByCategory]. *)
Definition rebuildIndex (nextCategories : list string) : ScaleError + gmap string nat :=
  rebuildIndexFrom 0 nextCategories ∅.

(** [self.domain(nextCategories)]: [categories] is assigned first, then the
    index is rebuilt, which may throw. *)
Definition domain (nextCategories : list string) (s : CategoryScale) : Outcome :=
  let s1 := mkCategoryScale nextCategories (indexByCategory s) (rangeMin s) (rangeMax s) in
  match rebuildIndex (categories s1) with
  | inl e => Threw e s1
  | inr nextIndex =>
      Returned (mkCategoryScale (categories s1) nextIndex (rangeMin s1) (rangeMax s1))
  end.

(** [self.range(min, max)] *)
Definition range (min max : number) (s : CategoryScale) : Outcome :=
  match min, max with
  | Fin lo, Fin hi =>
      Returned (mkCategoryScale (categories s) (indexByCategory s) lo hi)
  | Fin _, _ => Threw (MustBeFinite "range max" max) s
  | _, _ => Threw (MustBeFinite "range min" min) s
  end.

(** [self.categoryIndex(category)] *)
Definition categoryIndex (s : CategoryScale) (category : string) : Z :=
  match indexByCategory s !! category with
  | None => -1
  | Some idx => Z.of_nat idx
  end.

(** [self.bandwidth()] *)
Definition bandwidth (s : CategoryScale) : number :=
  let n := length (categories s) in
  if Nat.eqb n 0 then Fin 0
  else Fin (Qabs ((rangeMax s - rangeMin s) / inject_Z (Z.of_nat n))).

(** [self.scale(category)] *)
Definition scale (s : CategoryScale) (category : string) : number :=
  let n := length (categories s) in
  if Nat.eqb n 0 then Fin ((rangeMin s + rangeMax s) / 2)
  else
    let i := categoryIndex s category in
    if (i <? 0)%Z then NaN
    else
      let step := (rangeMax s - rangeMin s) / inject_Z (Z.of_nat n) in
      Fin (rangeMin s + (inject_Z i + (1 # 2)) * step).

(** The index is the one [rebuildIndex] builds from the current categories.
    True of a new scale and after every setter call that returns. *)
Definition indexed (s : CategoryScale) : Prop :=
  rebuildIndex (categories s) = inr (indexByCategory s).

(** ** Facts *)

Lemma rebuildIndexFrom_inr (cs : list string) : forall i m m',
  rebuildIndexFrom i cs m = inr m' ->
  NoDup cs
  /\ (forall c, c ∈ cs -> m !! c = None)
  /\ (forall k c, cs !! k = Some c -> m' !! c = Some (i + k)%nat)
  /\ (forall c, c ∉ cs -> m' !! c = m !! c).
Proof.
  induction cs as [| c cs IH]; intros i m m' H; simpl in H.
  - inversion H; subst. split; [constructor |].
    split; [intros c Hc; inversion Hc |].
    split; [intros k c Hk; discriminate | reflexivity].
  - destruct (m !! c) eqn:Hc; [discriminate |].
    apply IH in H as (Hnd & Hfree & Hin & Hout).
    assert (Hfresh : c ∉ cs).
    { intros Hmem. apply Hfree in Hmem. rewrite lookup_insert_eq in Hmem. discriminate. }
    split; [constructor; assumption |]. split; [| split].
    + intros c' Hc'. apply elem_of_cons in Hc' as [-> | Hc']; [assumption |].
      specialize (Hfree _ Hc').
      destruct (decide (c = c')) as [-> | Hne]; [contradiction |].
      rewrite lookup_insert_ne in Hfree by assumption. assumption.
    + intros [| k] c' Hk; simpl in Hk.
      * inversion Hk; subst c'. rewrite Hout by assumption.
        rewrite lookup_insert_eq. f_equal. lia.
      * rewrite (Hin _ _ Hk). f_equal. lia.
    + intros c' Hc'. apply not_elem_of_cons in Hc' as [Hne Hc'].
      rewrite Hout by assumption. rewrite lookup_insert_ne by congruence. reflexivity.
Qed.

Lemma rebuildIndexFrom_inl (cs : list string) : forall i m e,
  rebuildIndexFrom i cs m = inl e -> exists c, e = DuplicateCategory c /\ c ∈ cs.
Proof.
  induction cs as [| c cs IH]; intros i m e H; simpl in H; [discriminate |].
  destruct (m !! c).
  - inversion H. exists c. split; [reflexivity | left].
  - apply IH in H as (c' & -> & Hc'). exists c'. split; [reflexivity | right; assumption].
Qed.

Lemma rebuildIndexFrom_NoDup (cs : list string) : forall i m,
  NoDup cs -> (forall c, c ∈ cs -> m !! c = None) ->
  exists m', rebuildIndexFrom i cs m = inr m'.
Proof.
  induction cs as [| c cs IH]; intros i m Hnd Hfree; simpl; [eauto |].
  apply NoDup_cons in Hnd as [Hc Hnd].
  rewrite (Hfree c) by left.
  apply IH; [assumption |].
  intros c' Hc'. rewrite lookup_insert_ne by (intros ->; contradiction).
  apply Hfree. right. assumption.
Qed.

(** [rebuildIndex] succeeds exactly on duplicate-free lists. *)
Lemma rebuildIndex_NoDup (cs : list string) :
  NoDup cs <-> exists m, rebuildIndex cs = inr m.
Proof.
  split.
  - intros Hnd. apply rebuildIndexFrom_NoDup; [assumption |].
    intros c _. apply lookup_empty.
  - intros [m Hm]. apply rebuildIndexFrom_inr in Hm. tauto.
Qed.

Lemma indexed_create : indexed createCategoryScale.
Proof. reflexivity. Qed.

Lemma indexed_domain (cs : list string) (s s' : CategoryScale) :
  domain cs s = Returned s' -> indexed s' /\ categories s' = cs.
Proof.
  unfold domain, indexed. cbn [categories indexByCategory].
  destruct (rebuildIndex cs) eqn:E; intros H; inversion H; subst.
  split; [assumption | reflexivity].
Qed.

Lemma indexed_range (lo hi : number) (s s' : CategoryScale) :
  indexed s -> range lo hi s = Returned s' -> indexed s'.
Proof.
  unfold range, indexed. intros Hs H.
  destruct lo, hi; inversion H; subst; assumption.
Qed.

Lemma domain_NoDup (cs : list string) (s : CategoryScale) :
  NoDup cs -> exists s', domain cs s = Returned s'.
Proof.
  intros Hnd. apply rebuildIndex_NoDup in Hnd as [m Hm].
  unfold domain. cbn [categories]. rewrite Hm. eauto.
Qed.

Lemma Qabs_div_pos (a n : Q) : 0 < n -> Qabs (a / n) == Qabs a / n.
Proof.
  intros Hn. unfold Qdiv. rewrite Qabs_Qmult.
  rewrite (Qabs_pos (/ n)); [reflexivity |].
  apply Qlt_le_weak, Qinv_lt_0_compat. assumption.
Qed.


(** Three weekdays across 300 pixels. *)
Definition weekdays : CategoryScale :=
  match domain ["mon"; "tue"; "wed"] createCategoryScale with
  | Returned s =>
      match range (ofZ 0) (ofZ 300) s with Returned s' => s' | Threw _ s' => s' end
  | Threw _ s => s
  end.



End CategoryScale.

(* ====================================================================== *)
(** * Point data on the wire (serializeDataPoints, deserializeDataPoints)   *)
(* ====================================================================== *)

Module Wire.
Import JS.
Local Open Scope Z_scope.

(** A lane of a [Float64Array].  Lanes are only copied by the code modelled
    here, never computed with, so a lane is kept as the 64-bit pattern of its
    IEEE-754 binary64 value. *)
Definition float64 : Type := Z.

Definition isFloat64 (v : float64) : Prop := 0 <= v < 2 ^ 64.

(** The quiet NaN a typed array stores when it is handed [undefined]. *)
Definition NaN64 : float64 := 0x7FF8000000000000.

(** An [ArrayBuffer] is its bytes. *)
Definition ArrayBuffer : Type := list byte.

(** The four shapes [DataPoint | OHLCDataPoint] allows (types.ts, 13-37). *)
Inductive Point : Type :=
| DataPointTuple (x y : float64) (size : option float64)
    (* readonly [x, y, size?] *)
| DataPointObject (x y : float64) (size : option float64)
    (* { x, y, size? } *)
| OHLCDataPointTuple (timestamp open close low high : float64)
    (* readonly [timestamp, open, close, low, high] *)
| OHLCDataPointObject (timestamp open close low high : float64).
    (* { timestamp, open, close, low, high } *)

Inductive WireError : Type :=
| BufferSizeMismatch (expectedSize pointCount stride : number) (byteLength : nat)
    (* 'Buffer size mismatch: expected ... bytes (... points x ... bytes), got ... bytes' *)
| InvalidTypedArrayLength (byteLength : nat)
    (* RangeError of [new Float64Array(buffer)]: byte length not a multiple of 8 *)
| InvalidArrayLength (n : number)
    (* RangeError of [new Array(n)]: n is not a non-negative integer *)
| InvalidStride (stride : number).
    (* 'Invalid stride: .... Expected 16 (DataPoint) or 40 (OHLCDataPoint)' *)

(** *** Typed-array views *)

(** The lanes of the first [8 * n] bytes, little-endian. *)
Fixpoint readLanes (n : nat) (bytes : list byte) : list float64 :=
  match n with
  | O => []
  | S n' => le_combine (firstn 8 bytes) :: readLanes n' (skipn 8 bytes)
  end.

(** [new Float64Array(buffer)]: a view of the whole buffer, or a RangeError. *)
Definition Float64Array (buffer : ArrayBuffer) : WireError + list float64 :=
  if Nat.eqb (length buffer mod 8) 0 then inr (readLanes (length buffer / 8) buffer)
  else inl (InvalidTypedArrayLength (length buffer)).

(** The bytes behind a view: what the buffer holds once the view holds [view]. *)
Definition laneBytes (view : list float64) : ArrayBuffer :=
  flat_map (le_split 8) view.

(** [view[i]].  Past the end JavaScript yields [undefined]; [NaN64] stands in
    for it and [deserialize_reads_in_range] shows it is never read below. *)
Definition laneAt (view : list float64) (i : nat) : float64 :=
  default NaN64 (view !! i).

(** [new Array(n)]: the length it allocates.  Array lengths the engine cannot
    allocate are not modelled, as memory exhaustion is not. *)
Definition arrayLength (n : number) : option nat :=
  match n with
  | Fin q => if isInteger n && le (ofZ 0) n then Some (Z.to_nat (Qfloor q)) else None
  | _ => None
  end.

(** *** deserializeDataPoints (ChartGPUWorkerController.ts, 951-996) *)

(** The stride-16 loop: [points[i] = [view[offset], view[offset + 1]]]. *)
Fixpoint readDataPoints (view : list float64) (pointCount offset : nat) : list Point :=
  match pointCount with
  | O => []
  | S n =>
      DataPointTuple (laneAt view offset) (laneAt view (offset + 1)) None
      :: readDataPoints view n (offset + 2)
  end.

(** The stride-40 loop: lanes are read as timestamp, open, close, low, high. *)
Fixpoint readOHLCDataPoints (view : list float64) (pointCount offset : nat) : list Point :=
  match pointCount with
  | O => []
  | S n =>
      OHLCDataPointTuple (laneAt view offset) (laneAt view (offset + 1))
                         (laneAt view (offset + 2)) (laneAt view (offset + 3))
                         (laneAt view (offset + 4))
      :: readOHLCDataPoints view n (offset + 5)
  end.

Definition deserializeDataPoints (buffer : ArrayBuffer) (pointCount stride : number)
  : WireError + list Point :=
  let expectedSize := mul pointCount stride in
  if negb (strict_eq (ofNat (length buffer)) expectedSize) then
    inl (BufferSizeMismatch expectedSize pointCount stride (length buffer))
  else
    match Float64Array buffer with
    | inl e => inl e
    | inr view =>
        if strict_eq stride (ofZ 16) then
          match arrayLength pointCount with
          | None => inl (InvalidArrayLength pointCount)
          | Some n => inr (readDataPoints view n 0)
          end
        else if strict_eq stride (ofZ 40) then
          match arrayLength pointCount with
          | None => inl (InvalidArrayLength pointCount)
          | Some n => inr (readOHLCDataPoints view n 0)
          end
        else inl (InvalidStride stride)
    end.

(** *** serializeDataPoints (ChartGPUWorkerController.ts, 1081-1141) *)

(** [Array.isArray(p)] *)
Definition isArray (p : Point) : bool :=
  match p with
  | DataPointTuple _ _ _ | OHLCDataPointTuple _ _ _ _ _ => true
  | _ => false
  end.

(** [p.length] of a tuple *)
Definition tupleLength (p : Point) : nat :=
  match p with
  | DataPointTuple _ _ None => 2
  | DataPointTuple _ _ (Some _) => 3
  | OHLCDataPointTuple _ _ _ _ _ => 5
  | _ => 0
  end.

(** [p[k]] of a tuple; [None] is [undefined]. *)
Definition index (p : Point) (k : nat) : option float64 :=
  match p with
  | DataPointTuple x y size => [Some x; Some y; size] !! k ≫= id
  | OHLCDataPointTuple t o c l h => [t; o; c; l; h] !! k
  | _ => None
  end.

(** [p.<name>] of an object; [None] is [undefined]. *)
Definition field (p : Point) (name : string) : option float64 :=
  match p with
  | DataPointObject x y size =>
      if String.eqb name "x" then Some x
      else if String.eqb name "y" then Some y
      else if String.eqb name "size" then size
      else None
  | OHLCDataPointObject t o c l h =>
      if String.eqb name "timestamp" then Some t
      else if String.eqb name "open" then Some o
      else if String.eqb name "close" then Some c
      else if String.eqb name "low" then Some l
      else if String.eqb name "high" then Some h
      else None
  | _ => None
  end.

(** ['timestamp' in p && 'open' in p] *)
Definition hasTimestampAndOpen (p : Point) : bool :=
  match p with OHLCDataPointObject _ _ _ _ _ => true | _ => false end.

(** The value a [Float64Array] stores for [v]: its low 64 bits, or NaN for
    [undefined]. *)
Definition stored (v : option float64) : float64 :=
  match v with Some x => x mod 2 ^ 64 | None => NaN64 end.

(** The stride-40 loop of the serializer. *)
Fixpoint writeOHLC (points : list Point) (offset : nat) (view : list float64)
  : list float64 :=
  match points with
  | [] => view
  | p :: rest =>
      let lane k name := stored (if isArray p then index p k else field p name) in
      let view := <[offset := lane 0%nat "timestamp"]> view in
      let view := <[(offset + 1)%nat := lane 1%nat "open"]> view in
      let view := <[(offset + 2)%nat := lane 2%nat "close"]> view in
      let view := <[(offset + 3)%nat := lane 3%nat "low"]> view in
      let view := <[(offset + 4)%nat := lane 4%nat "high"]> view in
      writeOHLC rest (offset + 5) view
  end.

(** The stride-16 loop of the serializer. *)
Fixpoint writeXY (points : list Point) (offset : nat) (view : list float64)
  : list float64 :=
  match points with
  | [] => view
  | p :: rest =>
      let lane k name := stored (if isArray p then index p k else field p name) in
      let view := <[offset := lane 0%nat "x"]> view in
      let view := <[(offset + 1)%nat := lane 1%nat "y"]> view in
      writeXY rest (offset + 2) view
  end.

(** [serializeDataPoints(points)]: the buffer and its stride. *)
Definition serializeDataPoints (points : list Point) : ArrayBuffer * number :=
  match points with
  | [] => ([], ofZ 0)
  | firstPoint :: _ =>
      let isOHLC :=
        if isArray firstPoint then Nat.eqb (tupleLength firstPoint) 5
        else hasTimestampAndOpen firstPoint in
      if isOHLC then
        (* new ArrayBuffer(points.length * 40), viewed as 5 lanes per point *)
        let view := replicate (length points * 5) 0 in
        (laneBytes (writeOHLC points 0 view), ofZ 40)
      else
        (* new ArrayBuffer(points.length * 16), viewed as 2 lanes per point *)
        let view := replicate (length points * 2) 0 in
        (laneBytes (writeXY points 0 view), ofZ 16)
  end.

(** The lanes of a list of tuples, in the order the loops visit them. *)
Definition xyLanes (p : Point) : list float64 :=
  match p with DataPointTuple x y _ => [x; y] | _ => [] end.

Definition ohlcLanes (p : Point) : list float64 :=
  match p with OHLCDataPointTuple t o c l h => [t; o; c; l; h] | _ => [] end.

(** An [[x, y]] tuple, respectively a 5-tuple, of binary64 values. *)
Inductive isXY : Point -> Prop :=
| isXY_intro x y : isFloat64 x -> isFloat64 y -> isXY (DataPointTuple x y None).

Inductive isOHLC5 : Point -> Prop :=
| isOHLC5_intro t o c l h :
    isFloat64 t -> isFloat64 o -> isFloat64 c -> isFloat64 l -> isFloat64 h ->
    isOHLC5 (OHLCDataPointTuple t o c l h).

(** ** Facts about views *)

Lemma length_laneBytes (view : list float64) :
  length (laneBytes view) = (8 * length view)%nat.
Proof.
  induction view as [| v view IH]; [reflexivity |].
  unfold laneBytes in *. cbn [flat_map]. rewrite length_app, length_le_split, IH.
  cbn [length]. lia.
Qed.

Lemma readLanes_laneBytes (view : list float64) :
  Forall isFloat64 view -> readLanes (length view) (laneBytes view) = view.
Proof.
  induction 1 as [| v view Hv _ IH]; [reflexivity |].
  cbn [length readLanes]. unfold laneBytes in *. cbn [flat_map].
  rewrite take_app_length' by (now rewrite length_le_split).
  rewrite drop_app_length' by (now rewrite length_le_split).
  rewrite IH, le_combine_split. f_equal.
  apply Z.mod_small. exact Hv.
Qed.

Lemma Float64Array_laneBytes (view : list float64) :
  Forall isFloat64 view -> Float64Array (laneBytes view) = inr view.
Proof.
  intros Hview. unfold Float64Array. rewrite length_laneBytes.
  rewrite (Nat.mul_comm 8), Nat.Div0.mod_mul, Nat.div_mul by lia.
  cbn [Nat.eqb]. rewrite readLanes_laneBytes by assumption. reflexivity.
Qed.

Lemma length_readLanes (n : nat) : forall bytes, length (readLanes n bytes) = n.
Proof. induction n as [| n IH]; intros bytes; [reflexivity |]. cbn. now rewrite IH. Qed.

Lemma write2 (pre : list float64) (a b x y : float64) (rest : list float64) :
  <[(length pre + 1)%nat := b]> (<[length pre := a]> (pre ++ x :: y :: rest))
  = pre ++ a :: b :: rest.
Proof. induction pre as [| p pre IH]; [reflexivity |]. cbn. f_equal. exact IH. Qed.

Lemma write5 (pre : list float64) (a b c d e v w x y z : float64) (rest : list float64) :
  <[(length pre + 4)%nat := e]> (<[(length pre + 3)%nat := d]>
    (<[(length pre + 2)%nat := c]> (<[(length pre + 1)%nat := b]>
      (<[length pre := a]> (pre ++ v :: w :: x :: y :: z :: rest)))))
  = pre ++ a :: b :: c :: d :: e :: rest.
Proof. induction pre as [| p pre IH]; [reflexivity |]. cbn. f_equal. exact IH. Qed.

Lemma laneAt_app (pre : list float64) (k : nat) (rest : list float64) :
  laneAt (pre ++ rest) (length pre + k) = laneAt rest k.
Proof. unfold laneAt. rewrite lookup_app_r by lia. do 2 f_equal. lia. Qed.

Lemma laneAt_app0 (pre : list float64) (rest : list float64) :
  laneAt (pre ++ rest) (length pre) = laneAt rest 0.
Proof. rewrite <- (Nat.add_0_r (length pre)). apply laneAt_app. Qed.

(** ** The two loops of the serializer fill the view with the tuples' lanes *)

Lemma writeXY_tuples (points : list Point) : forall pre post,
  Forall isXY points ->
  writeXY points (length pre) (pre ++ replicate (length points * 2) 0 ++ post)
  = pre ++ flat_map xyLanes points ++ post.
Proof.
  induction points as [| p points IH]; intros pre post Hps; [reflexivity |].
  apply Forall_cons in Hps as [Hp Hps]. destruct Hp as [x y Hx Hy].
  cbn [writeXY length Nat.mul Nat.add replicate app isArray index flat_map xyLanes].
  cbn [lookup list_lookup mbind option_bind id stored].
  rewrite write2, !Z.mod_small by assumption.
  change (pre ++ x :: y :: ?r) with (pre ++ [x; y] ++ r).
  rewrite !(app_assoc pre [x; y]).
  replace (length pre + 2)%nat with (length (pre ++ [x; y]))
    by (rewrite length_app; reflexivity).
  apply IH. assumption.
Qed.

Lemma writeOHLC_tuples (points : list Point) : forall pre post,
  Forall isOHLC5 points ->
  writeOHLC points (length pre) (pre ++ replicate (length points * 5) 0 ++ post)
  = pre ++ flat_map ohlcLanes points ++ post.
Proof.
  induction points as [| p points IH]; intros pre post Hps; [reflexivity |].
  apply Forall_cons in Hps as [Hp Hps]. destruct Hp as [t o c l h Ht Ho Hc Hl Hh].
  cbn [writeOHLC length Nat.mul Nat.add replicate app isArray index flat_map ohlcLanes].
  cbn [lookup list_lookup stored].
  rewrite write5, !Z.mod_small by assumption.
  change (pre ++ t :: o :: c :: l :: h :: ?r) with (pre ++ [t; o; c; l; h] ++ r).
  rewrite !(app_assoc pre [t; o; c; l; h]).
  replace (length pre + 5)%nat with (length (pre ++ [t; o; c; l; h]))
    by (rewrite length_app; reflexivity).
  apply IH. assumption.
Qed.

(** ** The two loops of the deserializer read them back *)

Lemma readDataPoints_tuples (points : list Point) : forall pre post,
  Forall isXY points ->
  readDataPoints (pre ++ flat_map xyLanes points ++ post) (length points) (length pre)
  = points.
Proof.
  induction points as [| p points IH]; intros pre post Hps; [reflexivity |].
  apply Forall_cons in Hps as [Hp Hps]. destruct Hp as [x y Hx Hy].
  cbn [length readDataPoints flat_map xyLanes app].
  rewrite laneAt_app0, laneAt_app. cbn [laneAt lookup list_lookup default id].
  f_equal.
  change (pre ++ x :: y :: ?r) with (pre ++ [x; y] ++ r).
  rewrite !(app_assoc pre [x; y]).
  replace (length pre + 2)%nat with (length (pre ++ [x; y]))
    by (rewrite length_app; reflexivity).
  apply IH. assumption.
Qed.

Lemma readOHLCDataPoints_tuples (points : list Point) : forall pre post,
  Forall isOHLC5 points ->
  readOHLCDataPoints (pre ++ flat_map ohlcLanes points ++ post) (length points) (length pre)
  = points.
Proof.
  induction points as [| p points IH]; intros pre post Hps; [reflexivity |].
  apply Forall_cons in Hps as [Hp Hps]. destruct Hp as [t o c l h Ht Ho Hc Hl Hh].
  cbn [length readOHLCDataPoints flat_map ohlcLanes app].
  rewrite laneAt_app0, !laneAt_app. cbn [laneAt lookup list_lookup default id].
  f_equal.
  change (pre ++ t :: o :: c :: l :: h :: ?r) with (pre ++ [t; o; c; l; h] ++ r).
  rewrite !(app_assoc pre [t; o; c; l; h]).
  replace (length pre + 5)%nat with (length (pre ++ [t; o; c; l; h]))
    by (rewrite length_app; reflexivity).
  apply IH. assumption.
Qed.

Lemma xyLanes_float64 (points : list Point) :
  Forall isXY points ->
  Forall isFloat64 (flat_map xyLanes points)
  /\ length (flat_map xyLanes points) = (length points * 2)%nat.
Proof.
  induction 1 as [| p points Hp _ [IH1 IH2]]; [split; [constructor | reflexivity] |].
  destruct Hp as [x y Hx Hy]. cbn [flat_map xyLanes app length].
  split; [repeat (constructor; [assumption |]); assumption | rewrite IH2; reflexivity].
Qed.

Lemma ohlcLanes_float64 (points : list Point) :
  Forall isOHLC5 points ->
  Forall isFloat64 (flat_map ohlcLanes points)
  /\ length (flat_map ohlcLanes points) = (length points * 5)%nat.
Proof.
  induction 1 as [| p points Hp _ [IH1 IH2]]; [split; [constructor | reflexivity] |].
  destruct Hp as [t o c l h Ht Ho Hc Hl Hh]. cbn [flat_map ohlcLanes app length].
  split; [repeat (constructor; [assumption |]); assumption | rewrite IH2; reflexivity].
Qed.

(** ** Facts about the numbers that travel with a buffer *)

(** [byteLength !== pointCount * stride] for a whole count and a whole stride. *)
Lemma size_check (byteLength pointCount : nat) (stride : Z) :
  strict_eq (ofNat byteLength) (mul (ofNat pointCount) (ofZ stride)) = true
  <-> Z.of_nat byteLength = Z.of_nat pointCount * stride.
Proof.
  unfold strict_eq, mul, ofNat, ofZ. rewrite Qeq_bool_iff, <- inject_Z_mult.
  split; [apply inject_Z_injective | intros ->; reflexivity].
Qed.

Lemma arrayLength_ofNat (n : nat) : arrayLength (ofNat n) = Some n.
Proof.
  unfold arrayLength, ofNat, ofZ, isInteger, le. rewrite Qfloor_Z.
  rewrite (proj2 (Qeq_bool_iff _ _) (Qeq_refl _)).
  assert (H : Qle_bool (inject_Z 0) (inject_Z (Z.of_nat n)) = true).
  { apply Qle_bool_iff. rewrite <- Zle_Qle. lia. }
  rewrite H. cbn [andb]. now rewrite Nat2Z.id.
Qed.

(** ** The serializer followed by the deserializer *)

Lemma writeXY_all (points : list Point) :
  Forall isXY points ->
  writeXY points 0 (replicate (length points * 2) 0) = flat_map xyLanes points.
Proof.
  intros H. pose proof (writeXY_tuples points [] [] H) as Hw.
  rewrite !app_nil_r in Hw. exact Hw.
Qed.

Lemma writeOHLC_all (points : list Point) :
  Forall isOHLC5 points ->
  writeOHLC points 0 (replicate (length points * 5) 0) = flat_map ohlcLanes points.
Proof.
  intros H. pose proof (writeOHLC_tuples points [] [] H) as Hw.
  rewrite !app_nil_r in Hw. exact Hw.
Qed.

Lemma readDataPoints_all (points : list Point) :
  Forall isXY points ->
  readDataPoints (flat_map xyLanes points) (length points) 0 = points.
Proof.
  intros H. pose proof (readDataPoints_tuples points [] [] H) as Hr.
  rewrite !app_nil_r in Hr. exact Hr.
Qed.

Lemma readOHLCDataPoints_all (points : list Point) :
  Forall isOHLC5 points ->
  readOHLCDataPoints (flat_map ohlcLanes points) (length points) 0 = points.
Proof.
  intros H. pose proof (readOHLCDataPoints_tuples points [] [] H) as Hr.
  rewrite !app_nil_r in Hr. exact Hr.
Qed.

Lemma serialize_xy (points : list Point) :
  points <> [] -> Forall isXY points ->
  serializeDataPoints points = (laneBytes (flat_map xyLanes points), ofZ 16).
Proof.
  intros Hne Hps. pose proof (writeXY_all _ Hps) as Hw.
  destruct points as [| p ps]; [contradiction |].
  unfold serializeDataPoints. rewrite Hw.
  apply Forall_cons in Hps as [Hp _]. destruct Hp as [x y Hx Hy]. reflexivity.
Qed.

Lemma serialize_ohlc (points : list Point) :
  points <> [] -> Forall isOHLC5 points ->
  serializeDataPoints points = (laneBytes (flat_map ohlcLanes points), ofZ 40).
Proof.
  intros Hne Hps. pose proof (writeOHLC_all _ Hps) as Hw.
  destruct points as [| p ps]; [contradiction |].
  unfold serializeDataPoints. rewrite Hw.
  apply Forall_cons in Hps as [Hp _]. destruct Hp as [t o c l h Ht Ho Hc Hl Hh].
  reflexivity.
Qed.

Lemma deserialize_xy (points : list Point) :
  Forall isXY points ->
  deserializeDataPoints (laneBytes (flat_map xyLanes points))
                        (ofNat (length points)) (ofZ 16)
  = inr points.
Proof.
  intros Hps. destruct (xyLanes_float64 _ Hps) as [Hf Hlen].
  unfold deserializeDataPoints.
  rewrite (proj2 (size_check _ _ 16)) by (rewrite length_laneBytes, Hlen; lia).
  cbn [negb]. rewrite Float64Array_laneBytes by assumption.
  change (strict_eq (ofZ 16) (ofZ 16)) with true. cbn match.
  rewrite arrayLength_ofNat.
  now rewrite readDataPoints_all.
Qed.

Lemma deserialize_ohlc (points : list Point) :
  Forall isOHLC5 points ->
  deserializeDataPoints (laneBytes (flat_map ohlcLanes points))
                        (ofNat (length points)) (ofZ 40)
  = inr points.
Proof.
  intros Hps. destruct (ohlcLanes_float64 _ Hps) as [Hf Hlen].
  unfold deserializeDataPoints.
  rewrite (proj2 (size_check _ _ 40)) by (rewrite length_laneBytes, Hlen; lia).
  cbn [negb]. rewrite Float64Array_laneBytes by assumption.
  change (strict_eq (ofZ 40) (ofZ 16)) with false.
  change (strict_eq (ofZ 40) (ofZ 40)) with true. cbn match.
  rewrite arrayLength_ofNat.
  now rewrite readOHLCDataPoints_all.
Qed.

(** C10: point data crosses the bridge unchanged.  For a non-empty array of
    [[x, y]] tuples the serializer produces a stride-16 buffer holding the lanes
    x, y of each point in turn, and the deserializer, given that buffer, the
    array's length and the stride, returns the array; likewise for 5-tuples with
    stride 40 and the lanes timestamp, open, close, low, high. *)
Theorem serialize_deserialize_roundtrip (points : list Point) :
  points <> [] ->
  (Forall isXY points ->
     exists buffer,
       serializeDataPoints points = (buffer, ofZ 16)
       /\ buffer = laneBytes (flat_map xyLanes points)
       /\ deserializeDataPoints buffer (ofNat (length points)) (ofZ 16) = inr points)
  /\ (Forall isOHLC5 points ->
      exists buffer,
        serializeDataPoints points = (buffer, ofZ 40)
        /\ buffer = laneBytes (flat_map ohlcLanes points)
        /\ deserializeDataPoints buffer (ofNat (length points)) (ofZ 40) = inr points).
Proof.
  intros Hne. split; intros Hps; eexists; (split; [| split; [reflexivity |]]).
  - now apply serialize_xy.
  - now apply deserialize_xy.
  - now apply serialize_ohlc.
  - now apply deserialize_ohlc.
Qed.

(** binary64 patterns of 1.0, 2.5, 100.0 and 101.5 *)
Definition f_1 : float64 := 0x3FF0000000000000.
Definition f_2_5 : float64 := 0x4004000000000000.
Definition f_100 : float64 := 0x4059000000000000.
Definition f_101_5 : float64 := 0x4059600000000000.

Definition twoPoints : list Point :=
  [DataPointTuple f_1 f_2_5 None; DataPointTuple f_2_5 f_100 None].

Definition oneCandle : list Point :=
  [OHLCDataPointTuple f_1 f_100 f_101_5 f_2_5 f_101_5].

Lemma isFloat64_dec_true (v : float64) :
  (0 <=? v) && (v <? 2 ^ 64) = true -> isFloat64 v.
Proof. unfold isFloat64. lia. Qed.

Lemma serialize_deserialize_roundtrip_witness :
  (exists buffer,
     serializeDataPoints twoPoints = (buffer, ofZ 16)
     /\ buffer = laneBytes (flat_map xyLanes twoPoints)
     /\ deserializeDataPoints buffer (ofNat (length twoPoints)) (ofZ 16) = inr twoPoints)
  /\ (exists buffer,
        serializeDataPoints oneCandle = (buffer, ofZ 40)
        /\ buffer = laneBytes (flat_map ohlcLanes oneCandle)
        /\ deserializeDataPoints buffer (ofNat (length oneCandle)) (ofZ 40) = inr oneCandle).
Proof.
  split.
  - apply (serialize_deserialize_roundtrip twoPoints); [discriminate |].
    repeat constructor; apply isFloat64_dec_true; reflexivity.
  - apply (serialize_deserialize_roundtrip oneCandle); [discriminate |].
    repeat constructor; apply isFloat64_dec_true; reflexivity.
Defined.

(** ** What the deserializer returns for a buffer of the announced size *)

Lemma length_readDataPoints (view : list float64) (n : nat) : forall offset,
  length (readDataPoints view n offset) = n.
Proof. induction n as [| n IH]; intros offset; cbn; [reflexivity | now rewrite IH]. Qed.

Lemma length_readOHLCDataPoints (view : list float64) (n : nat) : forall offset,
  length (readOHLCDataPoints view n offset) = n.
Proof. induction n as [| n IH]; intros offset; cbn; [reflexivity | now rewrite IH]. Qed.

Lemma strict_eq_ofZ (a b : Z) : strict_eq (ofZ a) (ofZ b) = Z.eqb a b.
Proof.
  unfold strict_eq, ofZ. destruct (Z.eqb_spec a b) as [-> | Hne].
  - apply Qeq_bool_iff. reflexivity.
  - destruct (Qeq_bool (inject_Z a) (inject_Z b)) eqn:E; [| reflexivity].
    apply Qeq_bool_iff in E. apply (proj1 (inject_Z_injective a b)) in E. contradiction.
Qed.

Lemma Float64Array_multiple (buffer : ArrayBuffer) (k : nat) :
  length buffer = (k * 8)%nat -> exists view, Float64Array buffer = inr view.
Proof.
  intros H. unfold Float64Array. rewrite H, Nat.Div0.mod_mul. eexists. reflexivity.
Qed.

(** Strides 16 and 40: as many points as announced. *)
Lemma deserialize_count (data : ArrayBuffer) (count : nat) (stride : Z) :
  stride = 16 \/ stride = 40 ->
  Z.of_nat (length data) = Z.of_nat count * stride ->
  exists points,
    deserializeDataPoints data (ofNat count) (ofZ stride) = inr points
    /\ length points = count.
Proof.
  intros Hstride Hsize. unfold deserializeDataPoints.
  rewrite (proj2 (size_check _ _ _) Hsize). cbn [negb].
  destruct Hstride as [-> | ->].
  - destruct (Float64Array_multiple data (count * 2)) as [view ->]; [lia |].
    rewrite strict_eq_ofZ. cbn [Z.eqb Pos.eqb]. rewrite arrayLength_ofNat.
    eexists. split; [reflexivity | apply length_readDataPoints].
  - destruct (Float64Array_multiple data (count * 5)) as [view ->]; [lia |].
    rewrite !strict_eq_ofZ. cbn [Z.eqb Pos.eqb]. rewrite arrayLength_ofNat.
    eexists. split; [reflexivity | apply length_readOHLCDataPoints].
Qed.

(** Any other whole stride: no points at all. *)
Lemma deserialize_other_stride (data : ArrayBuffer) (pointCount : number) (stride : Z) :
  stride <> 16 -> stride <> 40 ->
  exists e, deserializeDataPoints data pointCount (ofZ stride) = inl e.
Proof.
  intros H16 H40. unfold deserializeDataPoints.
  destruct (negb _); [eexists; reflexivity |].
  destruct (Float64Array data); [eexists; reflexivity |].
  rewrite !strict_eq_ofZ.
  destruct (Z.eqb_spec stride 16); [contradiction |].
  destruct (Z.eqb_spec stride 40); [contradiction |].
  eexists; reflexivity.
Qed.

(** Every index the deserializer reads lies inside the view: once the size
    check has passed, the view has exactly as many lanes as the loop visits. *)
Lemma arrayLength_Some (x : number) (n : nat) :
  arrayLength x = Some n -> exists q, x = Fin q /\ (q == inject_Z (Z.of_nat n))%Q.
Proof.
  destruct x as [| | | q]; try discriminate. cbn [arrayLength].
  destruct (isInteger (Fin q) && le (ofZ 0) (Fin q)) eqn:E; [| discriminate].
  intros [= <-]. apply andb_true_iff in E as [Hint Hle].
  cbn [isInteger] in Hint. cbn [le ofZ] in Hle.
  apply Qeq_bool_iff in Hint. apply Qle_bool_iff in Hle.
  exists q. split; [reflexivity |].
  assert (Hpos : 0 <= Qfloor q).
  { rewrite <- Hint in Hle. now rewrite Zle_Qle. }
  rewrite Z2Nat.id by assumption. now symmetry.
Qed.

Lemma deserialize_reads_in_range (buffer : ArrayBuffer) (pointCount stride : number)
      (points : list Point) :
  deserializeDataPoints buffer pointCount stride = inr points ->
  exists view n,
    Float64Array buffer = inr view
    /\ arrayLength pointCount = Some n
    /\ ((strict_eq stride (ofZ 16) = true
         /\ points = readDataPoints view n 0 /\ length view = (2 * n)%nat)
        \/ (strict_eq stride (ofZ 40) = true
            /\ points = readOHLCDataPoints view n 0 /\ length view = (5 * n)%nat)).
Proof.
  unfold deserializeDataPoints.
  destruct (strict_eq (ofNat (length buffer)) (mul pointCount stride)) eqn:Hsize;
    [| discriminate]. cbn [negb].
  destruct (Float64Array buffer) as [e | view] eqn:Hview; [discriminate |].
  assert (Hlen : length view = (length buffer / 8)%nat /\ (length buffer mod 8 = 0)%nat).
  { unfold Float64Array in Hview.
    destruct (Nat.eqb_spec (length buffer mod 8) 0) as [Hmod |]; [| discriminate].
    injection Hview as <-. now rewrite length_readLanes. }
  destruct Hlen as [Hlen Hmod].
  assert (Hlanes : forall (k : Z) (n : nat),
             strict_eq stride (ofZ (8 * k)) = true -> 0 < k ->
             arrayLength pointCount = Some n ->
             length view = (Z.to_nat k * n)%nat).
  { intros k n Hk Hkpos Hn. apply arrayLength_Some in Hn as (q & -> & Hq).
    destruct stride as [| | | r]; try discriminate.
    cbn [strict_eq ofZ] in Hk. apply Qeq_bool_iff in Hk.
    cbn [strict_eq mul ofNat ofZ] in Hsize. apply Qeq_bool_iff in Hsize.
    rewrite Hq, Hk, <- inject_Z_mult in Hsize.
    apply (proj1 (inject_Z_injective _ _)) in Hsize.
    rewrite Hlen. apply Nat2Z.inj. rewrite Nat2Z.inj_div, Hsize, Nat2Z.inj_mul.
    rewrite Z2Nat.id by lia. cbn [Z.of_nat Pos.of_succ_nat Pos.succ].
    replace (Z.of_nat n * (8 * k)) with (k * Z.of_nat n * 8) by lia.
    now rewrite Z.div_mul by lia. }
  destruct (strict_eq stride (ofZ 16)) eqn:H16.
  - destruct (arrayLength pointCount) as [n |] eqn:Hn; [| discriminate].
    intros [= <-]. exists view, n. split; [reflexivity |]. split; [reflexivity |].
    left. split; [reflexivity |]. split; [reflexivity |].
    apply (Hlanes 2 n); [exact H16 | lia | reflexivity].
  - destruct (strict_eq stride (ofZ 40)) eqn:H40; [| discriminate].
    destruct (arrayLength pointCount) as [n |] eqn:Hn; [| discriminate].
    intros [= <-]. exists view, n. split; [reflexivity |]. split; [reflexivity |].
    right. split; [reflexivity |]. split; [reflexivity |].
    apply (Hlanes 5 n); [exact H40 | lia | reflexivity].
Qed.

End Wire.

(* ====================================================================== *)
(** * ChartGPUWorkerController (worker side)                               *)
(* ====================================================================== *)

Module Controller.
Import JS Wire.

(** [type ErrorCode] (line 76) *)
Inductive ErrorCode : Type :=
| WEBGPU_INIT_FAILED | DEVICE_LOST | RENDER_ERROR | DATA_ERROR | UNKNOWN.

(** What the handlers throw; each constructor is one [throw new Error(...)] of
    the source, with the values its message interpolates. *)
Inductive Thrown : Type :=
| InvalidSeriesIndex (context : string) (seriesIndex : number)
| InvalidPointCount (context : string) (pointCount : number)
| ChartNotFound (chartId operation : string)
    (* 'Chart "<id>" not found for operation "<op>"' *)
| ChartDisposed (chartId operation : string)
    (* 'Chart "<id>" is disposed and cannot perform "<op>"' *)
| ChartDeviceLost (chartId operation : string)
    (* 'Chart "<id>" GPU device is lost and cannot perform "<op>". Re-initialize the chart.' *)
| DataPointsError (e : WireError)
| CannotResizeDeviceLost
| InvalidDimensions (width height : number)
| InvalidDevicePixelRatio (devicePixelRatio : number)
| ZeroCanvasDimensions (targetWidth targetHeight : number)
| DeviceNotAvailable
| CanvasContextNotAvailable
| PreferredFormatNotAvailable
| ReconfigureFailed (message : string)
| ZoomRangeOutside01 (start end_ : number)
    (* 'Invalid zoom range: [s, e]. Values must be in [0, 1].' *)
| ZoomRangeNotIncreasing (start end_ : number)
| ChartAlreadyExists (chartId : string)
| ChartNotFoundForDispose (chartId : string)
| ChartAlreadyDisposed (chartId : string)
| Foreign (message : string).
    (* thrown by code outside this file: the coordinator, resolveOptions, the GPU *)

(** Outbound messages.  The overlay and interaction messages (tooltipUpdate,
    hoverChange, legendUpdate, axisLabelsUpdate, crosshairMove, click) are kept
    by their type tag only. *)
Inductive WorkerOutboundMessage : Type :=
| ReadyMessage (chartId messageId : string)
| ErrorMessage (chartId : string) (code : ErrorCode) (message : Thrown)
               (operation : string) (messageId : option string)
| DeviceLostMessage (chartId reason message : string)
| DisposedMessage (chartId : string) (cleanupErrors : list string)
| OverlayMessage (chartId type : string).

(** The callbacks [initChart] hands to the coordinator (lines 280-422). *)
Inductive Callback : Type :=
| onRequestRender
| onDeviceLost (reason : string)
| onOverlay (types : list string).
    (* onTooltipUpdate, onLegendUpdate, onAxisLabelsUpdate, onCrosshairMove and
       onClickData: they only emit the messages whose type tags are listed *)

Record GPUDevice : Type := mkGPUDevice {
  maxTextureDimension2D : number           (* device.limits.maxTextureDimension2D *)
}.

Record GPUCanvasContext : Type := mkGPUCanvasContext {
  configureThrows : option string          (* what canvasContext.configure throws, if it does *)
}.

Record GPUContextState : Type := mkGPUContextState {
  device : option GPUDevice;
  canvasContext : option GPUCanvasContext;
  preferredFormat : option string
}.

(** [interface ChartInstanceState] (lines 53-57) *)
Record ChartInstanceState : Type := mkState {
  renderPending : bool;
  disposed : bool;
  deviceLost : bool
}.

(** The render channel: how many messages posted on it wait to be delivered,
    and whether its ports have been closed. *)
Record MessageChannel : Type := mkChannel {
  posted : nat;
  closed : bool
}.

Section WithCollaborators.

(** Types and functions of the repository that this file imports:
    [ChartGPUOptions], [PointerEventData], [AnimationConfig] (config/types),
    the resolved options and [resolveOptions] (config/OptionResolver). *)
Context {ChartGPUOptions ResolvedOptions PointerEventData AnimationConfig : Type}.
Variable resolveOptions : ChartGPUOptions -> string + ResolvedOptions.

(** The methods of [RenderCoordinator] the controller calls. *)
Inductive CoordinatorCall : Type :=
| SetOptions (resolvedOptions : ResolvedOptions)       (* coordinator.setOptions(..) *)
| AppendData (seriesIndex : number) (points : list Point)
| Render                                               (* coordinator.render() *)
| HandlePointerEvent (event : PointerEventData)
| SetZoomRange (start end_ : number)
| SetInteractionX (x : option number) (source : option string)
| Dispose.                                             (* coordinator.dispose() *)

(** What one call on the coordinator does, as far as the controller can tell:
    the callbacks it invokes before it returns, and what it throws, if it does. *)
Record Reaction : Type := mkReaction {
  callbacks : list Callback;
  throws : option string
}.

(** A coordinator ([createRenderCoordinator] is not in this file): the calls
    made on it so far, oldest first, and how it reacts to the next call given
    those. *)
Record RenderCoordinator : Type := mkCoordinator {
  calls : list CoordinatorCall;
  react : list CoordinatorCall -> CoordinatorCall -> Reaction
}.

(** [interface ChartInstance] (lines 63-71); the chartId is the key under which
    the instance is registered. *)
Record ChartInstance : Type := mkInstance {
  gpuContext : GPUContextState;
  coordinator : RenderCoordinator;
  canvas : number * number;               (* canvas.width, canvas.height *)
  renderChannel : MessageChannel;
  state : ChartInstanceState
}.

(** The controller: [this.charts], whether [onMessage] has registered a
    handler, and what that handler has been called with, oldest first. *)
Record Controller : Type := mkController {
  charts : gmap string ChartInstance;
  messageHandler : bool;
  outbox : list WorkerOutboundMessage
}.

(** [new ChartGPUWorkerController()] and [onMessage(handler)] *)
Definition create : Controller := mkController ∅ false [].

Definition onMessage (c : Controller) : Controller :=
  mkController (charts c) true (outbox c).

(** *** Statements that read and write the controller, and may throw *)

Definition M (A : Type) : Type := Controller -> Controller * (Thrown + A).

Definition ret {A} (a : A) : M A := fun c => (c, inr a).
Definition throw {A} (e : Thrown) : M A := fun c => (c, inl e).
Definition bind {A B} (m : M A) (k : A -> M B) : M B :=
  fun c => match m c with
           | (c', inr a) => k a c'
           | (c', inl e) => (c', inl e)
           end.
(** [try { m } catch (error) { h error }] *)
Definition catch {A} (m : M A) (h : Thrown -> M A) : M A :=
  fun c => match m c with
           | (c', inl e) => h e c'
           | r => r
           end.
Definition modify (f : Controller -> Controller) : M unit := fun c => (f c, inr tt).

Notation "'do' x <- m ; k" := (bind m (fun x => k))
  (at level 10, x name, m at level 100, k at level 200).
Notation "m ;;; k" := (bind m (fun _ => k))
  (at level 100, k at level 200, right associativity).

(** Run a handler that catches everything: only the controller is left. *)
Definition exec (m : M unit) (c : Controller) : Controller := fst (m c).

(** Assignment to fields of a registered instance. *)
Definition updateInstance (chartId : string) (f : ChartInstance -> ChartInstance)
  : M unit :=
  modify (fun c => mkController (alter f chartId (charts c)) (messageHandler c) (outbox c)).

Definition withState (f : ChartInstanceState -> ChartInstanceState)
           (i : ChartInstance) : ChartInstance :=
  mkInstance (gpuContext i) (coordinator i) (canvas i) (renderChannel i) (f (state i)).

Definition withChannel (f : MessageChannel -> MessageChannel)
           (i : ChartInstance) : ChartInstance :=
  mkInstance (gpuContext i) (coordinator i) (canvas i) (f (renderChannel i)) (state i).

Definition withCalls (f : list CoordinatorCall -> list CoordinatorCall)
           (i : ChartInstance) : ChartInstance :=
  mkInstance (gpuContext i)
             (mkCoordinator (f (calls (coordinator i))) (react (coordinator i)))
             (canvas i) (renderChannel i) (state i).

Definition withCanvas (wh : number * number) (i : ChartInstance) : ChartInstance :=
  mkInstance (gpuContext i) (coordinator i) wh (renderChannel i) (state i).

Definition withGpuContext (g : GPUContextState) (i : ChartInstance) : ChartInstance :=
  mkInstance g (coordinator i) (canvas i) (renderChannel i) (state i).

Definition setRenderPending (b : bool) (s : ChartInstanceState) : ChartInstanceState :=
  mkState b (disposed s) (deviceLost s).
Definition setDisposed (b : bool) (s : ChartInstanceState) : ChartInstanceState :=
  mkState (renderPending s) b (deviceLost s).
Definition setDeviceLost (b : bool) (s : ChartInstanceState) : ChartInstanceState :=
  mkState (renderPending s) (disposed s) b.

(** [emit(msg)] (lines 892-898): without a handler the message is dropped. *)
Definition emit (msg : WorkerOutboundMessage) : M unit :=
  modify (fun c =>
    if messageHandler c then mkController (charts c) (messageHandler c) (outbox c ++ [msg])
    else c).

(** [emitError(chartId, code, message, operation, stack, messageId)] (910-928) *)
Definition emitError (chartId : string) (code : ErrorCode) (message : Thrown)
           (operation : string) (messageId : option string) : M unit :=
  emit (ErrorMessage chartId code message operation messageId).

(** [validateSeriesIndex] and [validatePointCount] (lines 86-104) *)
Definition validateSeriesIndex (seriesIndex : number) (context : string) : M unit :=
  if negb (isInteger seriesIndex) || lt seriesIndex (ofZ 0)
  then throw (InvalidSeriesIndex context seriesIndex) else ret tt.

Definition validatePointCount (pointCount : number) (context : string) : M unit :=
  if negb (isInteger pointCount) || lt pointCount (ofZ 0)
  then throw (InvalidPointCount context pointCount) else ret tt.

(** [getChartInstance(chartId, operation)] (lines 869-885) *)
Definition getChartInstance (chartId operation : string) : M ChartInstance :=
  fun c =>
    match charts c !! chartId with
    | None => throw (ChartNotFound chartId operation) c
    | Some instance =>
        if disposed (state instance) then throw (ChartDisposed chartId operation) c
        else if deviceLost (state instance) then throw (ChartDeviceLost chartId operation) c
        else ret instance c
    end.

(** The body of the [onRequestRender] closure (lines 286-291), on the
    instance whose [state] and [renderChannel] it has captured:
    [if (!state.renderPending && !state.disposed && renderChannel)
       { state.renderPending = true; renderChannel.port1.postMessage(null); }] *)
Definition scheduleRender (i : ChartInstance) : ChartInstance :=
  if negb (renderPending (state i)) && negb (disposed (state i)) then
    withChannel (fun ch => mkChannel (S (posted ch)) (closed ch))
                (withState (setRenderPending true) i)
  else i.

(** One callback of the coordinator of chart [chartId], as [initChart] wrote
    it.  The closures read and write the instance's shared [state] object. *)
Definition runCallback (chartId : string) (cb : Callback) : M unit :=
  match cb with
  | onRequestRender => updateInstance chartId scheduleRender
  | onDeviceLost reason =>
      updateInstance chartId (withState (setDeviceLost true)) ;;;
      emit (DeviceLostMessage chartId
              (if String.eqb reason "destroyed" then "destroyed" else "unknown") reason)
  | onOverlay types =>
      fold_right (fun t k => emit (OverlayMessage chartId t) ;;; k) (ret tt) types
  end.

Definition runCallbacks (chartId : string) (cbs : list Callback) : M unit :=
  fold_right (fun cb k => runCallback chartId cb ;;; k) (ret tt) cbs.

(** [instance.coordinator.<call>]: the call is recorded, its callbacks run, and
    it returns or throws. *)
Definition callCoordinator (chartId : string) (call : CoordinatorCall) : M unit :=
  fun c =>
    match charts c !! chartId with
    | None => ret tt c
    | Some i =>
        let reaction := react (coordinator i) (calls (coordinator i)) call in
        (updateInstance chartId (withCalls (fun l => l ++ [call])) ;;;
         runCallbacks chartId (callbacks reaction) ;;;
         match throws reaction with
         | Some message => throw (Foreign message)
         | None => ret tt
         end) c
    end.

(** *** The message handlers *)

(** [handleSetOption] (lines 512-522) *)
Definition handleSetOption (chartId : string) (options : ChartGPUOptions) : M unit :=
  catch
    (do _instance <- getChartInstance chartId "setOption";
     match resolveOptions options with
     | inl message => throw (Foreign message)
     | inr resolvedOptions => callCoordinator chartId (SetOptions resolvedOptions)
     end)
    (fun error => emitError chartId UNKNOWN error "setOption" None).

(** [deserializeDataPoints], throwing *)
Definition deserialize (data : ArrayBuffer) (pointCount stride : number)
  : M (list Point) :=
  match deserializeDataPoints data pointCount stride with
  | inl e => throw (DataPointsError e)
  | inr points => ret points
  end.

(** [handleAppendData] (lines 535-555) *)
Definition handleAppendData (chartId : string) (seriesIndex : number)
           (data : ArrayBuffer) (pointCount stride : number) : M unit :=
  catch
    (validateSeriesIndex seriesIndex "in appendData" ;;;
     validatePointCount pointCount "in appendData" ;;;
     do _instance <- getChartInstance chartId "appendData";
     do points <- deserialize data pointCount stride;
     callCoordinator chartId (AppendData seriesIndex points))
    (fun error => emitError chartId DATA_ERROR error "appendData" None).

(** An item of an appendDataBatch message *)
Record BatchItem : Type := mkBatchItem {
  itemSeriesIndex : number;
  itemData : ArrayBuffer;
  itemPointCount : number;
  itemStride : number
}.

(** The two loops of [handleAppendDataBatch]; the context of the validation
    messages ('at batch index i') is kept without its index. *)
Definition validateItems (items : list BatchItem) : M unit :=
  fold_right
    (fun item k =>
       validateSeriesIndex (itemSeriesIndex item) "at batch index" ;;;
       validatePointCount (itemPointCount item) "at batch index" ;;; k)
    (ret tt) items.

Definition appendItems (chartId : string) (items : list BatchItem) : M unit :=
  fold_right
    (fun item k =>
       do points <- deserialize (itemData item) (itemPointCount item) (itemStride item);
       callCoordinator chartId (AppendData (itemSeriesIndex item) points) ;;; k)
    (ret tt) items.

(** [handleAppendDataBatch] (lines 569-606) *)
Definition handleAppendDataBatch (chartId : string) (items : list BatchItem) : M unit :=
  catch
    (do _instance <- getChartInstance chartId "appendDataBatch";
     validateItems items ;;;
     appendItems chartId items)
    (fun error => emitError chartId DATA_ERROR error "appendDataBatch" None).

(** [handleResize] (lines 614-690) *)
Definition handleResize (chartId : string) (width height devicePixelRatio : number)
           (requestRender : bool) : M unit :=
  catch
    (do instance <- getChartInstance chartId "resize";
     if deviceLost (state instance) then throw CannotResizeDeviceLost
     else if le width (ofZ 0) || le height (ofZ 0)
     then throw (InvalidDimensions width height)
     else if le devicePixelRatio (ofZ 0)
     then throw (InvalidDevicePixelRatio devicePixelRatio)
     else
       let targetWidth := floor (mul width devicePixelRatio) in
       let targetHeight := floor (mul height devicePixelRatio) in
       if strict_eq targetWidth (ofZ 0) || strict_eq targetHeight (ofZ 0)
       then throw (ZeroCanvasDimensions targetWidth targetHeight)
       else
         match device (gpuContext instance) with
         | None => throw DeviceNotAvailable
         | Some dev =>
             let maxDim := maxTextureDimension2D dev in
             let finalWidth := max (ofZ 1) (min targetWidth maxDim) in
             let finalHeight := max (ofZ 1) (min targetHeight maxDim) in
             updateInstance chartId (withCanvas (finalWidth, finalHeight)) ;;;
             match canvasContext (gpuContext instance) with
             | None => throw CanvasContextNotAvailable
             | Some canvasContext =>
                 match preferredFormat (gpuContext instance) with
                 | None => throw PreferredFormatNotAvailable
                 | Some _ =>
                     match configureThrows canvasContext with
                     | Some message => throw (ReconfigureFailed message)
                     | None =>
                         if requestRender then callCoordinator chartId Render
                         else ret tt
                     end
                 end
             end
         end)
    (fun error => emitError chartId RENDER_ERROR error "resize" None).

(** [handlePointerEvent] (lines 698-710) *)
Definition handlePointerEvent (chartId : string) (event : PointerEventData) : M unit :=
  catch
    (do _instance <- getChartInstance chartId "forwardPointerEvent";
     callCoordinator chartId (HandlePointerEvent event))
    (fun error => emitError chartId UNKNOWN error "forwardPointerEvent" None).

(** [handleSetZoomRange] (lines 719-736) *)
Definition handleSetZoomRange (chartId : string) (start end_ : number) : M unit :=
  catch
    (if lt start (ofZ 0) || gt start (ofZ 1) || lt end_ (ofZ 0) || gt end_ (ofZ 1)
     then throw (ZoomRangeOutside01 start end_)
     else if ge start end_ then throw (ZoomRangeNotIncreasing start end_)
     else
       do _instance <- getChartInstance chartId "setZoomRange";
       callCoordinator chartId (SetZoomRange start end_))
    (fun error => emitError chartId UNKNOWN error "setZoomRange" None).

(** [handleSetInteractionX] (lines 745-754) *)
Definition handleSetInteractionX (chartId : string) (x : option number)
           (source : option string) : M unit :=
  catch
    (do _instance <- getChartInstance chartId "setInteractionX";
     callCoordinator chartId (SetInteractionX x source))
    (fun error => emitError chartId UNKNOWN error "setInteractionX" None).

(** [handleSetAnimation] (lines 763-781) *)
Definition handleSetAnimation (chartId : string) (enabled : bool)
           (_config : option AnimationConfig) : M unit :=
  catch
    (do _instance <- getChartInstance chartId "setAnimation";
     if enabled then callCoordinator chartId Render else ret tt)
    (fun error => emitError chartId UNKNOWN error "setAnimation" None).

(** Modelled from the spec: [destroyGPUContext] (core/GPUContext.ts is not
    among the sources): "a destroy operation that calls device.destroy()
    exactly once and marks the context reset". *)
Definition destroyGPUContext (g : GPUContextState) : GPUContextState :=
  mkGPUContextState None None None.

(** [disposeChart] (lines 788-844).  Closing the ports does not throw; the
    coordinator's [dispose] may, and is then listed in [cleanupErrors]. *)
Definition disposeChart (chartId : string) : M unit :=
  catch
    (fun c =>
       match charts c !! chartId with
       | None => emitError chartId UNKNOWN (ChartNotFoundForDispose chartId) "dispose" None c
       | Some instance =>
           if disposed (state instance)
           then emitError chartId UNKNOWN (ChartAlreadyDisposed chartId) "dispose" None c
           else
             (updateInstance chartId (withState (setDisposed true)) ;;;
              updateInstance chartId (withChannel (fun ch => mkChannel (posted ch) true)) ;;;
              do cleanupErrors <-
                 catch (callCoordinator chartId Dispose ;;; ret [])
                       (fun error =>
                          ret [match error with
                               | Foreign message => "Failed to dispose coordinator: " +:+ message
                               | _ => "Failed to dispose coordinator"
                               end]);
              updateInstance chartId (withGpuContext (destroyGPUContext (gpuContext instance))) ;;;
              (* this.charts.delete(chartId) *)
              modify (fun c => mkController (delete chartId (charts c))
                                            (messageHandler c) (outbox c)) ;;;
              emit (DisposedMessage chartId cleanupErrors)) c
       end)
    (fun error => emitError chartId UNKNOWN error "dispose" None).

(** [dispose()] (lines 852-859): every registered chart, then the handler. *)
Definition dispose : M unit :=
  fun c =>
    (fold_right (fun chartId k => disposeChart chartId ;;; k) (ret tt)
                (map fst (map_to_list (charts c))) ;;;
     modify (fun c => mkController (charts c) false (outbox c))) c.

(** A message posted on the render channel is taken off it. *)
Definition deliver (i : ChartInstance) : ChartInstance :=
  withChannel (fun ch => mkChannel (pred (posted ch)) (closed ch)) i.

(** The handler [initChart] installs on [renderChannel.port1] (lines 444-460).
    It runs once for each message the channel delivers. *)
Definition renderTick (chartId : string) : M unit :=
  fun c =>
    match charts c !! chartId with
    | None => ret tt c
    | Some i =>
        if Nat.eqb (posted (renderChannel i)) 0 || closed (renderChannel i)
        then ret tt c                       (* nothing to deliver *)
        else if negb (disposed (state i)) && negb (deviceLost (state i)) then
          (updateInstance chartId
             (fun i => withState (setRenderPending false) (deliver i)) ;;;
           catch (callCoordinator chartId Render)
                 (fun error => emitError chartId RENDER_ERROR error "render" None)) c
        else if deviceLost (state i) then
          (* silently skip render if device is lost *)
          updateInstance chartId
            (fun i => withState (setRenderPending false) (deliver i)) c
        else updateInstance chartId deliver c
    end.

(** The handler [initChart] attaches to [device.lost] (lines 238-248). *)
Definition deviceLostHandler (chartId reason message : string) : M unit :=
  updateInstance chartId (withState (setDeviceLost true)) ;;;
  emit (DeviceLostMessage chartId
          (if String.eqb reason "destroyed" then "destroyed" else "unknown")
          (if negb (String.eqb message "") then message
           else if negb (String.eqb reason "") then reason
           else "Device lost during initialization")).

(** [message.includes(needle)] *)
Fixpoint includes (needle message : string) : bool :=
  String.prefix needle message
  || match message with
     | EmptyString => false
     | String _ rest => includes needle rest
     end.

(** An init message, and what the collaborators answer while it is handled:
    [initializeGPUContext] and [createRenderCoordinator] return or throw. *)
Record InitMessage : Type := mkInit {
  initChartId : string;
  initMessageId : string;
  initDevicePixelRatio : number;
  initCanvas : number * number;
  initOptions : ChartGPUOptions
}.

Record BringUp : Type := mkBringUp {
  initializedContext : string + GPUContextState;
  createdCoordinator : string + (list CoordinatorCall -> CoordinatorCall -> Reaction)
}.

(** [initChart] (lines 204-504).  The wait for the GPU is taken as one step:
    no other message is handled while a chart is being brought up. *)
Definition initChart (up : BringUp) (msg : InitMessage) : M unit :=
  let chartId := initChartId msg in
  let failed (message : Thrown) : M unit :=
    (* the catch clause: close the channel if there is one, report *)
    updateInstance chartId (withChannel (fun ch => mkChannel (posted ch) true)) ;;;
    emitError chartId
      (match message with
       | Foreign text => if includes "WebGPU" text then WEBGPU_INIT_FAILED else UNKNOWN
       | _ => UNKNOWN
       end)
      message "init" (Some (initMessageId msg)) in
  fun c =>
    match charts c !! chartId with
    | Some _ =>
        emitError chartId UNKNOWN (ChartAlreadyExists chartId) "init"
                  (Some (initMessageId msg)) c
    | None =>
        catch
          (if le (initDevicePixelRatio msg) (ofZ 0)
           then throw (InvalidDevicePixelRatio (initDevicePixelRatio msg))
           else
             match initializedContext up with
             | inl message => throw (Foreign message)
             | inr context =>
                 match resolveOptions (initOptions msg) with
                 | inl message => throw (Foreign message)
                 | inr _resolvedOptions =>
                     match createdCoordinator up with
                     | inl message => throw (Foreign message)
                     | inr reaction =>
                         (* this.charts.set(msg.chartId, instance) *)
                         modify (fun c =>
                           mkController
                             (<[chartId :=
                                  mkInstance context (mkCoordinator [] reaction)
                                             (initCanvas msg) (mkChannel 0 false)
                                             (mkState false false false)]> (charts c))
                             (messageHandler c) (outbox c)) ;;;
                         emit (ReadyMessage chartId (initMessageId msg)) ;;;
                         (* trigger initial render *)
                         callCoordinator chartId Render
                     end
                 end
             end)
          failed c
    end.

(** [type WorkerInboundMessage] *)
Inductive WorkerInboundMessage : Type :=
| InitChart (msg : InitMessage)
| SetOption (chartId : string) (options : ChartGPUOptions)
| AppendDataMsg (chartId : string) (seriesIndex : number) (data : ArrayBuffer)
                (pointCount stride : number)
| AppendDataBatch (chartId : string) (items : list BatchItem)
| Resize (chartId : string) (width height devicePixelRatio : number)
         (requestRender : bool)
| ForwardPointerEvent (chartId : string) (event : PointerEventData)
| SetZoomRangeMsg (chartId : string) (start end_ : number)
| SetInteractionXMsg (chartId : string) (x : option number) (source : option string)
| SetAnimation (chartId : string) (enabled : bool) (config : option AnimationConfig)
| DisposeChart (chartId : string).

Definition chartIdOf (msg : WorkerInboundMessage) : string :=
  match msg with
  | InitChart m => initChartId m
  | SetOption id _ | AppendDataMsg id _ _ _ _ | AppendDataBatch id _
  | Resize id _ _ _ _ | ForwardPointerEvent id _ | SetZoomRangeMsg id _ _
  | SetInteractionXMsg id _ _ | SetAnimation id _ _ | DisposeChart id => id
  end.

(** The [switch] of [handleMessage] (lines 148-188) *)
Definition dispatch (up : BringUp) (msg : WorkerInboundMessage) : M unit :=
  match msg with
  | InitChart m => initChart up m
  | SetOption chartId options => handleSetOption chartId options
  | AppendDataMsg chartId seriesIndex data pointCount stride =>
      handleAppendData chartId seriesIndex data pointCount stride
  | AppendDataBatch chartId items => handleAppendDataBatch chartId items
  | Resize chartId width height devicePixelRatio requestRender =>
      handleResize chartId width height devicePixelRatio requestRender
  | ForwardPointerEvent chartId event => handlePointerEvent chartId event
  | SetZoomRangeMsg chartId start end_ => handleSetZoomRange chartId start end_
  | SetInteractionXMsg chartId x source => handleSetInteractionX chartId x source
  | SetAnimation chartId enabled config => handleSetAnimation chartId enabled config
  | DisposeChart chartId => disposeChart chartId
  end.

(** [handleMessage(msg)] (lines 146-197) *)
Definition handleMessage (up : BringUp) (msg : WorkerInboundMessage) : M unit :=
  catch (dispatch up msg)
        (fun error => emitError (chartIdOf msg) UNKNOWN error "handleMessage" None).

(** What can happen to a controller: a message from the host arrives, the
    render channel delivers, the GPU device of a chart is lost or reports an
    error nobody captured, or a coordinator calls back outside of a call made
    on it. *)
Inductive Event : Type :=
| Message (up : BringUp) (msg : WorkerInboundMessage)
| Tick (chartId : string)
| DeviceLost (chartId reason message : string)
| UncapturedError (chartId message : string)
| CallsBack (chartId : string) (cb : Callback).

Definition step (e : Event) (c : Controller) : Controller :=
  match e with
  | Message up msg => exec (handleMessage up msg) c
  | Tick chartId => exec (renderTick chartId) c
  | DeviceLost chartId reason message => exec (deviceLostHandler chartId reason message) c
  | UncapturedError chartId message =>
      (* the 'uncapturederror' listener of lines 251-259 *)
      exec (emitError chartId RENDER_ERROR (Foreign message) "uncaptured_gpu_error" None) c
  | CallsBack chartId cb => exec (runCallback chartId cb) c
  end.

Definition run (events : list Event) (c : Controller) : Controller :=
  fold_left (fun acc e => step e acc) events c.

(** ** Facts: invariants of the registry *)

(** [Q chartId instance] holds of every registered instance. *)
Definition Always (Q : string -> ChartInstance -> Prop) (c : Controller) : Prop :=
  forall chartId i, charts c !! chartId = Some i -> Q chartId i.

(** A statement keeps an invariant, whether it returns or throws. *)
Definition preserves {A} (I : Controller -> Prop) (m : M A) : Prop :=
  forall c, I c -> I (fst (m c)).

Lemma preserves_ret {A} I (a : A) : preserves I (ret a).
Proof. intros c Hc. exact Hc. Qed.

Lemma preserves_throw {A} I (e : Thrown) : preserves I (@throw A e).
Proof. intros c Hc. exact Hc. Qed.

Lemma preserves_bind {A B} I (m : M A) (k : A -> M B) :
  preserves I m -> (forall a, preserves I (k a)) -> preserves I (bind m k).
Proof.
  intros Hm Hk c Hc. unfold bind. specialize (Hm c Hc).
  destruct (m c) as [c' [e | a]]; cbn in *; [assumption | now apply Hk].
Qed.

Lemma preserves_catch {A} I (m : M A) (h : Thrown -> M A) :
  preserves I m -> (forall e, preserves I (h e)) -> preserves I (catch m h).
Proof.
  intros Hm Hh c Hc. unfold catch. specialize (Hm c Hc).
  destruct (m c) as [c' [e | a]]; cbn in *; [now apply Hh | assumption].
Qed.

(** A statement chosen by looking at the controller first. *)
Lemma preserves_dep {A} I (F : Controller -> M A) :
  (forall c0, preserves I (F c0)) -> preserves I (fun c => F c c).
Proof. intros H c Hc. now apply H. Qed.

Lemma preserves_emit Q msg : preserves (Always Q) (emit msg).
Proof.
  intros c Hc. unfold emit, modify. cbn. destruct (messageHandler c); exact Hc.
Qed.

Lemma preserves_emitError Q chartId code message operation messageId :
  preserves (Always Q) (emitError chartId code message operation messageId).
Proof. apply preserves_emit. Qed.

Lemma preserves_updateInstance Q chartId f :
  (forall i, Q chartId i -> Q chartId (f i)) ->
  preserves (Always Q) (updateInstance chartId f).
Proof.
  intros Hf c Hc id i. unfold updateInstance, modify. cbn.
  rewrite lookup_alter. destruct (decide (chartId = id)) as [<- | Hne].
  - destruct (charts c !! chartId) as [j |] eqn:Hj; cbn; [| discriminate].
    intros [= <-]. apply Hf. now apply Hc.
  - apply Hc.
Qed.

Lemma preserves_fold {A} I (step_ : A -> M unit -> M unit) (l : list A) :
  (forall a k, preserves I k -> preserves I (step_ a k)) ->
  preserves I (fold_right step_ (ret tt) l).
Proof.
  intros H. induction l as [| a l IH]; cbn; [apply preserves_ret | now apply H].
Qed.

(** *** Invariants of the callbacks and of the update path *)

(** [P] holds of the instance registered as [chartId], which exists. *)
Definition Has (chartId : string) (P : ChartInstance -> Prop) (c : Controller) : Prop :=
  exists i, charts c !! chartId = Some i /\ P i.

Lemma preserves_emit_Has chartId P msg : preserves (Has chartId P) (emit msg).
Proof.
  intros c Hc. unfold emit, modify. cbn. destruct (messageHandler c); exact Hc.
Qed.

Lemma preserves_updateInstance_Has chartId P chartId' f :
  (forall i, P i -> P (f i)) ->
  preserves (Has chartId P) (updateInstance chartId' f).
Proof.
  intros Hf c (i & Hi & HP). unfold updateInstance, modify, Has. cbn.
  rewrite lookup_alter. destruct (decide (chartId' = chartId)) as [-> | Hne].
  - rewrite Hi. cbn. eauto.
  - eauto.
Qed.

(** What the coordinator's callbacks do to the controller: they emit, request
    a render, and mark the device lost. *)
Record CallbackInvariant (I : Controller -> Prop) : Prop := {
  inv_emit : forall msg, preserves I (emit msg);
  inv_schedule : forall chartId, preserves I (updateInstance chartId scheduleRender);
  inv_lost : forall chartId,
      preserves I (updateInstance chartId (withState (setDeviceLost true)))
}.

(** What the handlers of setOption, appendData, appendDataBatch,
    forwardPointerEvent, setZoomRange and setInteractionX do besides: they
    record a call other than [Render] with the coordinator. *)
Record UpdateInvariant (I : Controller -> Prop) : Prop := {
  inv_callbacks : CallbackInvariant I;
  inv_record : forall chartId call,
      call <> Render ->
      preserves I (updateInstance chartId (withCalls (fun l => l ++ [call])))
}.

Lemma Always_CallbackInvariant Q :
  (forall chartId i, Q chartId i -> Q chartId (scheduleRender i)) ->
  (forall chartId i, Q chartId i -> Q chartId (withState (setDeviceLost true) i)) ->
  CallbackInvariant (Always Q).
Proof.
  intros H1 H2. split.
  - apply preserves_emit.
  - intros id. apply preserves_updateInstance. apply H1.
  - intros id. apply preserves_updateInstance. apply H2.
Qed.

Lemma Has_CallbackInvariant chartId P :
  (forall i, P i -> P (scheduleRender i)) ->
  (forall i, P i -> P (withState (setDeviceLost true) i)) ->
  CallbackInvariant (Has chartId P).
Proof.
  intros H1 H2. split.
  - apply preserves_emit_Has.
  - intros id. now apply preserves_updateInstance_Has.
  - intros id. now apply preserves_updateInstance_Has.
Qed.

Section Callbacks.
Variable Inv : Controller -> Prop.
Hypothesis HI : CallbackInvariant Inv.

Lemma preserves_runCallback chartId cb : preserves Inv (runCallback chartId cb).
Proof.
  destruct cb as [| reason | types]; cbn [runCallback].
  - apply HI.
  - apply preserves_bind; [apply HI | intros _; apply HI].
  - apply preserves_fold. intros t k Hk.
    apply preserves_bind; [apply HI | intros _; exact Hk].
Qed.

Lemma preserves_runCallbacks chartId cbs : preserves Inv (runCallbacks chartId cbs).
Proof.
  apply preserves_fold. intros cb k Hk.
  apply preserves_bind; [apply preserves_runCallback | intros _; exact Hk].
Qed.

Lemma preserves_callCoordinator chartId call :
  preserves Inv (updateInstance chartId (withCalls (fun l => l ++ [call]))) ->
  preserves Inv (callCoordinator chartId call).
Proof.
  intros Hcall. unfold callCoordinator.
  apply (preserves_dep _ (fun c0 c => match charts c0 !! chartId with
                                      | None => _
                                      | Some i => _ end)).
  intros c0. destruct (charts c0 !! chartId) as [i |]; [| apply preserves_ret].
  apply preserves_bind; [exact Hcall | intros _].
  apply preserves_bind; [apply preserves_runCallbacks | intros _].
  destruct (throws _); [apply preserves_throw | apply preserves_ret].
Qed.

End Callbacks.

Section UpdatePath.
Variable Inv : Controller -> Prop.
Hypothesis HI : UpdateInvariant Inv.

Lemma preserves_update_call chartId call :
  call <> Render -> preserves Inv (callCoordinator chartId call).
Proof.
  intros Hcall. apply preserves_callCoordinator; [apply HI |]. now apply HI.
Qed.

Lemma preserves_getChartInstance I chartId operation :
  preserves I (getChartInstance chartId operation).
Proof.
  intros c Hc. unfold getChartInstance.
  destruct (charts c !! chartId) as [i |]; [| exact Hc].
  destruct (disposed (state i)); [exact Hc |].
  destruct (deviceLost (state i)); exact Hc.
Qed.

Lemma preserves_validateSeriesIndex I n ctx : preserves I (validateSeriesIndex n ctx).
Proof. unfold validateSeriesIndex. destruct (_ || _); [apply preserves_throw | apply preserves_ret]. Qed.

Lemma preserves_validatePointCount I n ctx : preserves I (validatePointCount n ctx).
Proof. unfold validatePointCount. destruct (_ || _); [apply preserves_throw | apply preserves_ret]. Qed.

Lemma preserves_deserialize I data n k : preserves I (deserialize data n k).
Proof. unfold deserialize. destruct (deserializeDataPoints _ _ _); [apply preserves_throw | apply preserves_ret]. Qed.

Lemma preserves_handleSetOption chartId options :
  preserves Inv (handleSetOption chartId options).
Proof.
  unfold handleSetOption. apply preserves_catch; [| intros e; apply HI].
  apply preserves_bind; [apply preserves_getChartInstance | intros _].
  destruct (resolveOptions options); [apply preserves_throw |].
  now apply preserves_update_call.
Qed.

Lemma preserves_handleAppendData chartId seriesIndex data pointCount stride :
  preserves Inv (handleAppendData chartId seriesIndex data pointCount stride).
Proof.
  unfold handleAppendData. apply preserves_catch; [| intros e; apply HI].
  apply preserves_bind; [apply preserves_validateSeriesIndex | intros _].
  apply preserves_bind; [apply preserves_validatePointCount | intros _].
  apply preserves_bind; [apply preserves_getChartInstance | intros _].
  apply preserves_bind; [apply preserves_deserialize | intros points].
  now apply preserves_update_call.
Qed.

Lemma preserves_handleAppendDataBatch chartId items :
  preserves Inv (handleAppendDataBatch chartId items).
Proof.
  unfold handleAppendDataBatch. apply preserves_catch; [| intros e; apply HI].
  apply preserves_bind; [apply preserves_getChartInstance | intros _].
  apply preserves_bind; [| intros _].
  - apply preserves_fold. intros item k Hk.
    apply preserves_bind; [apply preserves_validateSeriesIndex | intros _].
    apply preserves_bind; [apply preserves_validatePointCount | intros _; exact Hk].
  - apply preserves_fold. intros item k Hk.
    apply preserves_bind; [apply preserves_deserialize | intros points].
    apply preserves_bind; [now apply preserves_update_call | intros _; exact Hk].
Qed.

Lemma preserves_handlePointerEvent chartId event :
  preserves Inv (handlePointerEvent chartId event).
Proof.
  unfold handlePointerEvent. apply preserves_catch; [| intros e; apply HI].
  apply preserves_bind; [apply preserves_getChartInstance | intros _].
  now apply preserves_update_call.
Qed.

Lemma preserves_handleSetZoomRange chartId start end_ :
  preserves Inv (handleSetZoomRange chartId start end_).
Proof.
  unfold handleSetZoomRange. apply preserves_catch; [| intros e; apply HI].
  destruct (_ || _); [apply preserves_throw |].
  destruct (ge _ _); [apply preserves_throw |].
  apply preserves_bind; [apply preserves_getChartInstance | intros _].
  now apply preserves_update_call.
Qed.

Lemma preserves_handleSetInteractionX chartId x source :
  preserves Inv (handleSetInteractionX chartId x source).
Proof.
  unfold handleSetInteractionX. apply preserves_catch; [| intros e; apply HI].
  apply preserves_bind; [apply preserves_getChartInstance | intros _].
  now apply preserves_update_call.
Qed.

End UpdatePath.

(** ** Facts: a chart whose GPU device is lost *)

(** The operations of C3, and the tick of the render channel. *)
Definition operationOn (chartId : string) (e : Event) : Prop :=
  match e with
  | Message _ (AppendDataMsg id _ _ _ _) | Message _ (SetOption id _)
  | Message _ (Resize id _ _ _ _) | Message _ (ForwardPointerEvent id _)
  | Tick id => id = chartId
  | _ => False
  end.

(** The code and the operation tag of the error each of them is answered with. *)
Definition refusalOf (e : Event) : option (ErrorCode * string) :=
  match e with
  | Message _ (AppendDataMsg _ _ _ _ _) => Some (DATA_ERROR, "appendData")
  | Message _ (SetOption _ _) => Some (UNKNOWN, "setOption")
  | Message _ (Resize _ _ _ _ _) => Some (RENDER_ERROR, "resize")
  | Message _ (ForwardPointerEvent _ _) => Some (UNKNOWN, "forwardPointerEvent")
  | _ => None
  end.

Lemma getChartInstance_lost c chartId operation i :
  charts c !! chartId = Some i -> deviceLost (state i) = true ->
  exists why, getChartInstance chartId operation c = (c, inl why).
Proof.
  intros Hi Hlost. unfold getChartInstance. rewrite Hi, Hlost.
  destruct (disposed (state i)); eexists; reflexivity.
Qed.

Lemma getChartInstance_live c chartId operation i :
  charts c !! chartId = Some i ->
  disposed (state i) = false -> deviceLost (state i) = false ->
  getChartInstance chartId operation c = (c, inr i).
Proof. intros Hi Hd Hl. unfold getChartInstance. now rewrite Hi, Hd, Hl. Qed.

(** A handler whose body throws before it has changed anything reports the
    error under its own code and is done. *)
Lemma refused (body : M unit) chartId code operation c why :
  messageHandler c = true ->
  body c = (c, inl why) ->
  exec (catch body (fun error => emitError chartId code error operation None)) c
  = mkController (charts c) true
                 (outbox c ++ [ErrorMessage chartId code why operation None]).
Proof.
  intros Hh Hb. unfold exec, catch. rewrite Hb.
  unfold emitError, emit, modify. cbn. now rewrite Hh.
Qed.

(** Every handler catches what its body throws, so the outer [try] of
    [handleMessage] has nothing left to catch. *)
Lemma dispatch_returns up msg c : exists c', dispatch up msg c = (c', inr tt).
Proof.
  assert (Hh : forall (m : M unit) id code op c1,
             exists c2, catch m (fun e => emitError id code e op None) c1 = (c2, inr tt)).
  { intros m id code op c1. unfold catch.
    destruct (m c1) as [c' [e | []]]; eexists; reflexivity. }
  destruct msg; cbn [dispatch]; try apply Hh.
  unfold initChart. destruct (charts c !! initChartId msg); [eexists; reflexivity |].
  unfold catch.
  match goal with |- context [let (_, _) := ?body c in _] =>
    destruct (body c) as [c' [e | []]]
  end; eexists; reflexivity.
Qed.

Lemma handleMessage_exec up msg c :
  exec (handleMessage up msg) c = exec (dispatch up msg) c.
Proof.
  unfold handleMessage, exec, catch.
  destruct (dispatch_returns up msg c) as [c' ->]. reflexivity.
Qed.

(** What a lost chart looks like next to the chart [i] it was: still lost, and
    none of the things a handler works on has changed. *)
Definition untouchedLost (i i' : ChartInstance) : Prop :=
  deviceLost (state i') = true
  /\ coordinator i' = coordinator i
  /\ gpuContext i' = gpuContext i
  /\ canvas i' = canvas i.

(** The error a refused operation is answered with. *)
Definition answers (chartId : string) (r : option (ErrorCode * string))
           (errors : list WorkerOutboundMessage) : Prop :=
  match r with
  | Some (code, operation) =>
      exists why, errors = [ErrorMessage chartId code why operation None]
  | None => errors = []
  end.

Lemma lost_step c chartId i e :
  charts c !! chartId = Some i ->
  deviceLost (state i) = true ->
  messageHandler c = true ->
  operationOn chartId e ->
  exists i' errors,
    charts (step e c) !! chartId = Some i'
    /\ untouchedLost i i'
    /\ messageHandler (step e c) = true
    /\ outbox (step e c) = outbox c ++ errors
    /\ answers chartId (refusalOf e) errors.
Proof.
  intros Hi Hlost Hh Hop.
  assert (Hsame : untouchedLost i i) by (repeat split; assumption).
  destruct e as [up msg | id | | |]; cbn in Hop; try contradiction.
  - destruct msg; try contradiction; subst chartId0;
      cbn [step]; rewrite handleMessage_exec; cbn [dispatch refusalOf answers].
    + (* setOption *)
      destruct (getChartInstance_lost c chartId "setOption" i Hi Hlost) as [why Hwhy].
      unfold handleSetOption. erewrite refused; [| assumption | unfold bind; now rewrite Hwhy].
      exists i. eexists. cbn. repeat split; eauto.
    + (* appendData *)
      destruct (getChartInstance_lost c chartId "appendData" i Hi Hlost) as [why Hwhy].
      assert (Hbody : exists why',
                 (validateSeriesIndex seriesIndex "in appendData" ;;;
                  validatePointCount pointCount "in appendData" ;;;
                  do _instance <- getChartInstance chartId "appendData";
                  do points <- deserialize data pointCount stride;
                  callCoordinator chartId (AppendData seriesIndex points)) c
                 = (c, inl why')).
      { unfold bind, validateSeriesIndex, validatePointCount.
        destruct (negb (isInteger seriesIndex) || lt seriesIndex (ofZ 0));
          [eexists; reflexivity |].
        destruct (negb (isInteger pointCount) || lt pointCount (ofZ 0));
          [eexists; reflexivity |].
        cbn. rewrite Hwhy. eexists; reflexivity. }
      destruct Hbody as [why' Hbody].
      unfold handleAppendData. erewrite refused; [| assumption | exact Hbody].
      exists i. eexists. cbn. repeat split; eauto.
    + (* resize *)
      destruct (getChartInstance_lost c chartId "resize" i Hi Hlost) as [why Hwhy].
      unfold handleResize. erewrite refused; [| assumption | unfold bind; now rewrite Hwhy].
      exists i. eexists. cbn. repeat split; eauto.
    + (* forwardPointerEvent *)
      destruct (getChartInstance_lost c chartId "forwardPointerEvent" i Hi Hlost)
        as [why Hwhy].
      unfold handlePointerEvent.
      erewrite refused; [| assumption | unfold bind; now rewrite Hwhy].
      exists i. eexists. cbn. repeat split; eauto.
  - (* the render channel delivers *)
    subst id. cbn [step refusalOf answers]. unfold exec, renderTick. rewrite Hi.
    destruct (Nat.eqb (posted (renderChannel i)) 0 || closed (renderChannel i)).
    + exists i, []. cbn. rewrite app_nil_r. repeat split; assumption.
    + rewrite Hlost, andb_false_r.
      unfold updateInstance, modify. cbn.
      rewrite lookup_alter_eq, Hi. cbn.
      eexists. exists []. rewrite app_nil_r.
      repeat split; try reflexivity; assumption.
Qed.

Lemma run_cons e events c : run (e :: events) c = run events (step e c).
Proof. reflexivity. Qed.

(** C3, as the code has it: once the device of a chart is lost the chart stays
    lost; every later appendData, setOption, resize or forwardPointerEvent
    message for it does no work and is answered by one [error] message that
    carries the fixed code of its handler (DATA_ERROR, UNKNOWN, RENDER_ERROR,
    UNKNOWN), and the render channel's handler renders no further frame: the
    coordinator is never called again. *)
Theorem lost_chart_refuses_operations c chartId i events :
  charts c !! chartId = Some i ->
  deviceLost (state i) = true ->
  messageHandler c = true ->
  Forall (operationOn chartId) events ->
  exists i' errors,
    charts (run events c) !! chartId = Some i'
    /\ untouchedLost i i'
    /\ outbox (run events c) = outbox c ++ errors
    /\ Forall2 (fun r m => exists why,
                  m = ErrorMessage chartId (fst r) why (snd r) None)
               (omap refusalOf events) errors.
Proof.
  intros Hi Hlost Hh Hev. revert c i Hi Hlost Hh.
  induction Hev as [| e events He _ IH]; intros c i Hi Hlost Hh.
  - exists i, []. cbn. rewrite app_nil_r. repeat split; try assumption. constructor.
  - destruct (lost_step c chartId i e Hi Hlost Hh He)
      as (i1 & errs1 & Hi1 & (Hl1 & Hc1 & Hg1 & Hv1) & Hh1 & Ho1 & Ha1).
    destruct (IH _ _ Hi1 Hl1 Hh1) as (i2 & errs2 & Hi2 & (Hl2 & Hc2 & Hg2 & Hv2) & Ho2 & Hf2).
    exists i2, (errs1 ++ errs2). rewrite run_cons. split; [assumption |].
    split; [repeat split; congruence |].
    split; [rewrite Ho2, Ho1, app_assoc; reflexivity |].
    cbn [omap list_omap]. unfold answers in Ha1.
    destruct (refusalOf e) as [[code op] |].
    + destruct Ha1 as [why ->]. cbn. constructor; [eauto | assumption].
    + subst errs1. assumption.
Qed.

(** ** Facts: what a call on the coordinator leaves behind *)

Lemma fst_bind {A B} (m : M A) (k : A -> M B) c :
  fst (bind m k c)
  = match m c with
    | (c', inr a) => fst (k a c')
    | (c', inl _) => c'
    end.
Proof. unfold bind. destruct (m c) as [c' [e | a]]; reflexivity. Qed.

(** Whatever the coordinator does in return, the call is on its record, and
    the record holds nothing else that is new. *)
Lemma callCoordinator_records c chartId i call :
  charts c !! chartId = Some i ->
  Has chartId (fun i' => calls (coordinator i') = calls (coordinator i) ++ [call])
      (fst (callCoordinator chartId call c)).
Proof.
  intros Hi. unfold callCoordinator. rewrite Hi.
  set (P := fun i' : ChartInstance =>
              calls (coordinator i') = calls (coordinator i) ++ [call]).
  assert (HP : CallbackInvariant (Has chartId P)).
  { apply Has_CallbackInvariant; intros j Hj; unfold P in *; [| exact Hj].
    unfold scheduleRender. destruct (_ && _); exact Hj. }
  rewrite fst_bind. unfold updateInstance at 1, modify at 1. cbn iota.
  rewrite fst_bind.
  match goal with |- context [runCallbacks chartId ?cbs ?c1] =>
    pose proof (preserves_runCallbacks _ HP chartId cbs c1) as Hrun;
    destruct (runCallbacks chartId cbs c1) as [c2 [e | []]]
  end; cbn in Hrun |- *.
  - apply Hrun. exists (withCalls (fun l => l ++ [call]) i). cbn [charts].
    rewrite lookup_alter_eq, Hi. split; reflexivity.
  - assert (H2 : Has chartId P c2).
    { apply Hrun. exists (withCalls (fun l => l ++ [call]) i). cbn [charts].
      rewrite lookup_alter_eq, Hi. split; reflexivity. }
    destruct (throws _); exact H2.
Qed.

(** ** Facts: appendData *)

Lemma getChartInstance_reads c chartId operation :
  exists r, getChartInstance chartId operation c = (c, r).
Proof.
  unfold getChartInstance. destruct (charts c !! chartId) as [i |]; [| eexists; reflexivity].
  destruct (disposed (state i)); [eexists; reflexivity |].
  destruct (deviceLost (state i)); eexists; reflexivity.
Qed.

(** If [deserializeDataPoints] refuses the buffer, [handleAppendData] has
    thrown by then, and nothing has been changed. *)
Lemma handleAppendData_body_throws c chartId seriesIndex data pointCount stride e :
  deserializeDataPoints data pointCount stride = inl e ->
  exists why,
    (validateSeriesIndex seriesIndex "in appendData" ;;;
     validatePointCount pointCount "in appendData" ;;;
     do _instance <- getChartInstance chartId "appendData";
     do points <- deserialize data pointCount stride;
     callCoordinator chartId (AppendData seriesIndex points)) c
    = (c, inl why).
Proof.
  intros He. unfold bind, validateSeriesIndex, validatePointCount.
  destruct (negb (isInteger seriesIndex) || lt seriesIndex (ofZ 0));
    [eexists; reflexivity |].
  destruct (negb (isInteger pointCount) || lt pointCount (ofZ 0));
    [eexists; reflexivity |].
  cbn. destruct (getChartInstance_reads c chartId "appendData") as [[why | i] ->];
    [eexists; reflexivity |].
  unfold deserialize. rewrite He. eexists; reflexivity.
Qed.

Lemma appendData_refused up c chartId seriesIndex data pointCount stride e :
  messageHandler c = true ->
  deserializeDataPoints data pointCount stride = inl e ->
  exists why,
    step (Message up (AppendDataMsg chartId seriesIndex data pointCount stride)) c
    = mkController (charts c) true
                   (outbox c ++ [ErrorMessage chartId DATA_ERROR why "appendData" None]).
Proof.
  intros Hh He.
  destruct (handleAppendData_body_throws c chartId seriesIndex data pointCount stride e He)
    as [why Hwhy].
  exists why. cbn [step]. rewrite handleMessage_exec. cbn [dispatch].
  unfold handleAppendData. now apply refused.
Qed.

Lemma isInteger_ofNat (n : nat) : isInteger (ofNat n) = true.
Proof.
  unfold isInteger, ofNat, ofZ. rewrite Qfloor_Z. apply Qeq_bool_iff. reflexivity.
Qed.

Lemma lt_ofNat_0 (n : nat) : lt (ofNat n) (ofZ 0) = false.
Proof.
  unfold lt, ofNat, ofZ. apply negb_false_iff, Qle_bool_iff.
  rewrite <- Zle_Qle. lia.
Qed.

(** On a live chart, a message that passes the checks hands its points to the
    coordinator. *)
Lemma appendData_accepted up c chartId i seriesIndex data pointCount stride points :
  charts c !! chartId = Some i ->
  disposed (state i) = false -> deviceLost (state i) = false ->
  isInteger seriesIndex = true -> lt seriesIndex (ofZ 0) = false ->
  isInteger pointCount = true -> lt pointCount (ofZ 0) = false ->
  deserializeDataPoints data pointCount stride = inr points ->
  Has chartId
      (fun i' => calls (coordinator i')
                 = calls (coordinator i) ++ [AppendData seriesIndex points])
      (step (Message up (AppendDataMsg chartId seriesIndex data pointCount stride)) c).
Proof.
  intros Hi Hd Hl Hs1 Hs2 Hn1 Hn2 Hpts.
  cbn [step]. rewrite handleMessage_exec. cbn [dispatch].
  unfold handleAppendData, exec, catch, bind at 1, validateSeriesIndex.
  rewrite Hs1, Hs2. cbn.
  unfold bind at 1, validatePointCount. rewrite Hn1, Hn2. cbn.
  unfold bind at 1. rewrite (getChartInstance_live _ _ _ _ Hi Hd Hl).
  unfold bind at 1, deserialize. rewrite Hpts. cbn.
  pose proof (callCoordinator_records c chartId i (AppendData seriesIndex points) Hi) as H.
  destruct (callCoordinator chartId (AppendData seriesIndex points) c) as [c' [e | []]];
    cbn in H |- *; [| exact H].
  now apply preserves_emit_Has.
Qed.

(** C4, as the code has it: the strides the worker accepts are 16 (two
    binary64 lanes x, y) and 40 (five binary64 lanes); on a live chart a buffer
    of [count * stride] bytes with such a stride is deserialized into [count]
    points, which are handed to the coordinator for the given series.  A buffer
    that announces stride 8 or 20 is refused with a DATA_ERROR, whatever its
    size. *)
Theorem appendData_strides up c chartId i seriesIndex data count (stride : Z) :
  charts c !! chartId = Some i ->
  disposed (state i) = false -> deviceLost (state i) = false ->
  messageHandler c = true ->
  isInteger seriesIndex = true -> lt seriesIndex (ofZ 0) = false ->
  (Z.of_nat (length data) = Z.of_nat count * stride)%Z ->
  let after :=
    step (Message up (AppendDataMsg chartId seriesIndex data (ofNat count) (ofZ stride))) c in
  ((stride = 16 \/ stride = 40)%Z ->
     exists points,
       deserializeDataPoints data (ofNat count) (ofZ stride) = inr points
       /\ length points = count
       /\ Has chartId
              (fun i' => calls (coordinator i')
                         = calls (coordinator i) ++ [AppendData seriesIndex points])
              after)
  /\ ((stride = 8 \/ stride = 20)%Z ->
      exists why,
        after = mkController (charts c) true
                  (outbox c ++ [ErrorMessage chartId DATA_ERROR why "appendData" None])).
Proof.
  intros Hi Hd Hl Hh Hs1 Hs2 Hsize after. split; intros Hstride.
  - destruct (deserialize_count data count stride Hstride Hsize) as (points & Hpts & Hlen).
    exists points. split; [assumption |]. split; [assumption |].
    eapply appendData_accepted; eauto using isInteger_ofNat, lt_ofNat_0.
  - destruct (deserialize_other_stride data (ofNat count) stride) as [e He];
      [lia | lia |].
    now apply (appendData_refused up c chartId seriesIndex data _ _ e).
Qed.

(** C5: a buffer whose byte length is not [pointCount * stride] is refused:
    nothing is appended and the host is sent an error with code DATA_ERROR; a
    buffer of [count * stride] bytes with stride 16 or 40 is deserialized into
    exactly [count] points. *)
Theorem appendData_size_check up c chartId seriesIndex data (pointCount stride : number)
        (count : nat) (stride' : Z) :
  (messageHandler c = true ->
   strict_eq (ofNat (length data)) (mul pointCount stride) = false ->
   exists why,
     step (Message up (AppendDataMsg chartId seriesIndex data pointCount stride)) c
     = mkController (charts c) true
                    (outbox c ++ [ErrorMessage chartId DATA_ERROR why "appendData" None]))
  /\ ((stride' = 16 \/ stride' = 40)%Z ->
      (Z.of_nat (length data) = Z.of_nat count * stride')%Z ->
      exists points,
        deserializeDataPoints data (ofNat count) (ofZ stride') = inr points
        /\ length points = count).
Proof.
  split.
  - intros Hh Hsize.
    apply (appendData_refused up c chartId seriesIndex data pointCount stride
             (BufferSizeMismatch (mul pointCount stride) pointCount stride
                                 (length data))); [assumption |].
    unfold deserializeDataPoints. now rewrite Hsize.
  - apply deserialize_count.
Qed.

(** ** Facts: the render channel *)

(** At most one message waits on the render channel, and only while
    [renderPending] is set. *)
Definition pulseBound (i : ChartInstance) : Prop :=
  posted (renderChannel i) <= (if renderPending (state i) then 1 else 0).

Definition Coalesced : Controller -> Prop := Always (fun _ => pulseBound).

Lemma pulseBound_scheduleRender i : pulseBound i -> pulseBound (scheduleRender i).
Proof.
  unfold pulseBound, scheduleRender.
  destruct (renderPending (state i)) eqn:Hp; cbn; [rewrite Hp; tauto |].
  destruct (disposed (state i)); cbn; rewrite ?Hp; lia.
Qed.

Lemma pulseBound_deliver i :
  pulseBound i -> pulseBound (withState (setRenderPending false) (deliver i)).
Proof. unfold pulseBound. cbn. destruct (renderPending (state i)); lia. Qed.

Lemma pulseBound_deliver_only i : pulseBound i -> pulseBound (deliver i).
Proof. unfold pulseBound. cbn. destruct (renderPending (state i)); lia. Qed.

Lemma Coalesced_callbacks : CallbackInvariant Coalesced.
Proof.
  apply Always_CallbackInvariant; intros _ i Hi.
  - now apply pulseBound_scheduleRender.
  - exact Hi.
Qed.

Lemma Coalesced_update : UpdateInvariant Coalesced.
Proof.
  split; [apply Coalesced_callbacks |].
  intros id call _. apply preserves_updateInstance. intros i Hi. exact Hi.
Qed.

Lemma Coalesced_call chartId call : preserves Coalesced (callCoordinator chartId call).
Proof.
  apply preserves_callCoordinator; [apply Coalesced_callbacks |].
  apply preserves_updateInstance. intros i Hi. exact Hi.
Qed.

Lemma Coalesced_report chartId code e operation messageId :
  preserves Coalesced (emitError chartId code e operation messageId).
Proof. apply preserves_emit. Qed.

Lemma Coalesced_handleResize chartId width height devicePixelRatio requestRender :
  preserves Coalesced (handleResize chartId width height devicePixelRatio requestRender).
Proof.
  unfold handleResize. apply preserves_catch; [| intros e; apply Coalesced_report].
  apply preserves_bind; [apply preserves_getChartInstance | intros instance].
  destruct (deviceLost (state instance)); [apply preserves_throw |].
  destruct (_ || _); [apply preserves_throw |].
  destruct (le devicePixelRatio (ofZ 0)); [apply preserves_throw |].
  cbv zeta. destruct (_ || _); [apply preserves_throw |].
  destruct (device (gpuContext instance)); [| apply preserves_throw].
  apply preserves_bind;
    [apply preserves_updateInstance; intros i Hi; exact Hi | intros _].
  destruct (canvasContext (gpuContext instance)) as [ctx |]; [| apply preserves_throw].
  destruct (preferredFormat (gpuContext instance)); [| apply preserves_throw].
  destruct (configureThrows ctx); [apply preserves_throw |].
  destruct requestRender; [apply Coalesced_call | apply preserves_ret].
Qed.

Lemma Coalesced_handleSetAnimation chartId enabled config :
  preserves Coalesced (handleSetAnimation chartId enabled config).
Proof.
  unfold handleSetAnimation. apply preserves_catch; [| intros e; apply Coalesced_report].
  apply preserves_bind; [apply preserves_getChartInstance | intros _].
  destruct enabled; [apply Coalesced_call | apply preserves_ret].
Qed.

Lemma Always_delete Q chartId :
  preserves (Always Q)
            (modify (fun c => mkController (delete chartId (charts c))
                                           (messageHandler c) (outbox c))).
Proof.
  intros c Hc id i. unfold modify. cbn. intros Hi.
  apply lookup_delete_Some in Hi as [_ Hi]. now apply Hc.
Qed.

Lemma Always_insert Q chartId instance :
  Q chartId instance ->
  preserves (Always Q)
            (modify (fun c => mkController (<[chartId := instance]> (charts c))
                                           (messageHandler c) (outbox c))).
Proof.
  intros HQ c Hc id i. unfold modify. cbn. intros Hi.
  apply lookup_insert_Some in Hi as [[<- <-] | [_ Hi]]; [assumption | now apply Hc].
Qed.

Lemma Coalesced_disposeChart chartId : preserves Coalesced (disposeChart chartId).
Proof.
  unfold disposeChart. apply preserves_catch; [| intros e; apply Coalesced_report].
  apply (preserves_dep _ (fun c0 c => match charts c0 !! chartId with
                                      | None => _
                                      | Some i => _ end)).
  intros c0. destruct (charts c0 !! chartId) as [instance |];
    [| apply Coalesced_report].
  destruct (disposed (state instance)); [apply Coalesced_report |].
  apply preserves_bind;
    [apply preserves_updateInstance; intros i Hi; exact Hi | intros _].
  apply preserves_bind;
    [apply preserves_updateInstance; intros i Hi; exact Hi | intros _].
  apply preserves_bind; [| intros cleanupErrors].
  - apply preserves_catch; [| intros e; apply preserves_ret].
    apply preserves_bind; [apply Coalesced_call | intros _; apply preserves_ret].
  - apply preserves_bind;
      [apply preserves_updateInstance; intros i Hi; exact Hi | intros _].
    apply preserves_bind; [apply Always_delete | intros _; apply preserves_emit].
Qed.

Lemma Coalesced_initChart up msg : preserves Coalesced (initChart up msg).
Proof.
  unfold initChart.
  apply (preserves_dep _ (fun c0 c => match charts c0 !! initChartId msg with
                                      | None => _
                                      | Some i => _ end)).
  intros c0. destruct (charts c0 !! initChartId msg); [apply Coalesced_report |].
  apply preserves_catch.
  - destruct (le _ _); [apply preserves_throw |].
    destruct (initializedContext up); [apply preserves_throw |].
    destruct (resolveOptions _); [apply preserves_throw |].
    destruct (createdCoordinator up); [apply preserves_throw |].
    apply preserves_bind; [| intros _].
    + apply Always_insert. unfold pulseBound. cbn. lia.
    + apply preserves_bind; [apply preserves_emit | intros _; apply Coalesced_call].
  - intros e. apply preserves_bind; [| intros _; apply Coalesced_report].
    apply preserves_updateInstance; intros i Hi; exact Hi.
Qed.

Lemma Coalesced_renderTick chartId : preserves Coalesced (renderTick chartId).
Proof.
  unfold renderTick.
  apply (preserves_dep _ (fun c0 c => match charts c0 !! chartId with
                                      | None => _
                                      | Some i => _ end)).
  intros c0. destruct (charts c0 !! chartId) as [i |]; [| apply preserves_ret].
  destruct (_ || _); [apply preserves_ret |].
  destruct (_ && _).
  - apply preserves_bind.
    + apply preserves_updateInstance. intros j. apply pulseBound_deliver.
    + intros _. apply preserves_catch; [apply Coalesced_call |].
      intros e. apply Coalesced_report.
  - destruct (deviceLost (state i)).
    + apply preserves_updateInstance. intros j. apply pulseBound_deliver.
    + apply preserves_updateInstance. intros j. apply pulseBound_deliver_only.
Qed.

Lemma Coalesced_dispatch up msg : preserves Coalesced (dispatch up msg).
Proof.
  destruct msg; cbn [dispatch].
  - apply Coalesced_initChart.
  - apply preserves_handleSetOption, Coalesced_update.
  - apply preserves_handleAppendData, Coalesced_update.
  - apply preserves_handleAppendDataBatch, Coalesced_update.
  - apply Coalesced_handleResize.
  - apply preserves_handlePointerEvent, Coalesced_update.
  - apply preserves_handleSetZoomRange, Coalesced_update.
  - apply preserves_handleSetInteractionX, Coalesced_update.
  - apply Coalesced_handleSetAnimation.
  - apply Coalesced_disposeChart.
Qed.

(** Whatever happens, no chart ever has two messages waiting on its render
    channel. *)
Lemma Coalesced_step e c : Coalesced c -> Coalesced (step e c).
Proof.
  intros Hc. destruct e; cbn [step].
  - rewrite handleMessage_exec. now apply Coalesced_dispatch.
  - now apply Coalesced_renderTick.
  - assert (H : preserves Coalesced (deviceLostHandler chartId reason message)).
    { apply preserves_bind; [| intros _; apply preserves_emit].
      apply preserves_updateInstance. intros i Hi. exact Hi. }
    now apply H.
  - now apply Coalesced_report.
  - apply (preserves_runCallback _ Coalesced_callbacks). assumption.
Qed.

Lemma Coalesced_run events : forall c, Coalesced c -> Coalesced (run events c).
Proof.
  induction events as [| e events IH]; intros c Hc; [exact Hc |].
  rewrite run_cons. apply IH. now apply Coalesced_step.
Qed.

Lemma Coalesced_create : Coalesced create.
Proof. intros id i Hi. cbn in Hi. rewrite lookup_empty in Hi. discriminate. Qed.

(** ** Facts: updates between two ticks *)

(** The messages that bring new options or new data. *)
Definition isUpdate (msg : WorkerInboundMessage) : Prop :=
  match msg with
  | SetOption _ _ | AppendDataMsg _ _ _ _ _ | AppendDataBatch _ _ => True
  | _ => False
  end.

(** [reaches msg chartId call]: the message is for [chartId], passes the checks
    of its handler, and its handler then makes the call [call] on the
    coordinator. *)
Inductive reaches : WorkerInboundMessage -> string -> CoordinatorCall -> Prop :=
| reaches_setOption chartId options resolved :
    resolveOptions options = inr resolved ->
    reaches (SetOption chartId options) chartId (SetOptions resolved)
| reaches_appendData chartId seriesIndex data pointCount stride points :
    isInteger seriesIndex = true -> lt seriesIndex (ofZ 0) = false ->
    isInteger pointCount = true -> lt pointCount (ofZ 0) = false ->
    deserializeDataPoints data pointCount stride = inr points ->
    reaches (AppendDataMsg chartId seriesIndex data pointCount stride) chartId
            (AppendData seriesIndex points).

(** A chart that can be sent a pulse: not disposed, its channel open, and a
    message on the channel exactly when [renderPending] is set. *)
Definition ready (i : ChartInstance) : Prop :=
  disposed (state i) = false
  /\ closed (renderChannel i) = false
  /\ posted (renderChannel i) = (if renderPending (state i) then 1 else 0).

(** ... and one that has been sent it. *)
Definition armed (i : ChartInstance) : Prop :=
  ready i /\ renderPending (state i) = true.

(** The coordinator has seen [call] after [base], and no [Render] since. *)
Definition recordedSince (base : list CoordinatorCall) (call : CoordinatorCall)
           (i : ChartInstance) : Prop :=
  exists later, calls (coordinator i) = base ++ call :: later
                /\ Forall (fun x => x <> Render) later.

Lemma ready_scheduleRender i : ready i -> armed (scheduleRender i).
Proof.
  unfold armed, ready, scheduleRender. intros (Hd & Hc & Hp).
  rewrite Hd. destruct (renderPending (state i)) eqn:E; cbn; rewrite ?E, ?Hp; tauto.
Qed.

Lemma armed_scheduleRender i : armed i -> scheduleRender i = i.
Proof. unfold armed, scheduleRender. intros [_ ->]. reflexivity. Qed.

Lemma ready_callbacks chartId : CallbackInvariant (Has chartId ready).
Proof.
  apply Has_CallbackInvariant; intros i Hi; [| exact Hi].
  now apply ready_scheduleRender.
Qed.

Lemma armed_callbacks chartId : CallbackInvariant (Has chartId armed).
Proof.
  apply Has_CallbackInvariant; intros i Hi; [| exact Hi].
  now rewrite armed_scheduleRender.
Qed.

Lemma armed_update chartId : UpdateInvariant (Has chartId armed).
Proof.
  split; [apply armed_callbacks |].
  intros id call _. apply preserves_updateInstance_Has. intros i Hi. exact Hi.
Qed.

Lemma recordedSince_update chartId base call :
  UpdateInvariant (Has chartId (recordedSince base call)).
Proof.
  split.
  - apply Has_CallbackInvariant; intros i Hi; [| exact Hi].
    unfold scheduleRender. destruct (_ && _); exact Hi.
  - intros id call' Hne. apply preserves_updateInstance_Has.
    intros i (later & Hl & Hf). exists (later ++ [call']). cbn. rewrite Hl.
    split; [now rewrite <- app_assoc | apply Forall_app; split; [assumption |]].
    constructor; [assumption | constructor].
Qed.

Lemma runCallback_returns chartId cb c :
  exists c', runCallback chartId cb c = (c', inr tt).
Proof.
  destruct cb as [| reason | types]; cbn [runCallback]; try (eexists; reflexivity).
  revert c. induction types as [| t types IH]; intros c; cbn; [eexists; reflexivity |].
  unfold bind. cbn. apply IH.
Qed.

(** Among the callbacks of one call, a render request leaves the chart armed,
    whatever else is called back before or after it. *)
Lemma runCallbacks_arm chartId cbs : forall c,
  Has chartId ready c -> In onRequestRender cbs ->
  Has chartId armed (fst (runCallbacks chartId cbs c)).
Proof.
  induction cbs as [| cb cbs IH]; intros c Hc Hin; [contradiction |].
  cbn [runCallbacks fold_right]. rewrite fst_bind.
  destruct (runCallback_returns chartId cb c) as [c1 Hc1]. rewrite Hc1.
  fold (runCallbacks chartId cbs).
  assert (H1 : Has chartId ready c1).
  { pose proof (preserves_runCallback _ (ready_callbacks chartId) chartId cb c Hc) as H.
    now rewrite Hc1 in H. }
  destruct Hin as [-> | Hin]; [| now apply IH].
  apply (preserves_runCallbacks _ (armed_callbacks chartId)).
  cbn [runCallback] in Hc1. unfold updateInstance, modify in Hc1.
  injection Hc1 as <-. destruct Hc as (i & Hi & Hr).
  exists (scheduleRender i). cbn [charts]. rewrite lookup_alter_eq, Hi.
  split; [reflexivity | now apply ready_scheduleRender].
Qed.

Lemma callCoordinator_arms c chartId i call :
  charts c !! chartId = Some i -> ready i ->
  In onRequestRender (callbacks (react (coordinator i) (calls (coordinator i)) call)) ->
  Has chartId armed (fst (callCoordinator chartId call c)).
Proof.
  intros Hi Hr Hin. unfold callCoordinator. rewrite Hi.
  rewrite fst_bind. unfold updateInstance at 1, modify at 1. cbn iota.
  rewrite fst_bind.
  match goal with |- context [runCallbacks chartId ?cbs ?c1] =>
    assert (Hrun : Has chartId armed (fst (runCallbacks chartId cbs c1)));
    [| destruct (runCallbacks chartId cbs c1) as [c2 [e | []]]; cbn in Hrun |- *;
       [exact Hrun | destruct (throws _); exact Hrun]]
  end.
  apply runCallbacks_arm; [| assumption].
  exists (withCalls (fun l => l ++ [call]) i). cbn [charts].
  rewrite lookup_alter_eq, Hi. split; [reflexivity | exact Hr].
Qed.

(** What holds after the call a message makes on a live chart holds after the
    message, if reporting an error cannot undo it. *)
Lemma dispatch_reaches up msg chartId call c i (I : Controller -> Prop) :
  reaches msg chartId call ->
  charts c !! chartId = Some i ->
  disposed (state i) = false -> deviceLost (state i) = false ->
  (forall m, preserves I (emit m)) ->
  I (fst (callCoordinator chartId call c)) ->
  I (exec (dispatch up msg) c).
Proof.
  intros Hreach Hi Hd Hl Hemit Hcall.
  destruct Hreach as [id options resolved Hres
                     | id seriesIndex data pointCount stride points Hs1 Hs2 Hn1 Hn2 Hpts];
    cbn [dispatch].
  - unfold handleSetOption, exec, catch, bind.
    rewrite (getChartInstance_live _ _ _ _ Hi Hd Hl), Hres.
    destruct (callCoordinator id (SetOptions resolved) c) as [c' [e | []]];
      cbn in Hcall |- *; [| exact Hcall].
    now apply Hemit.
  - unfold handleAppendData, exec, catch, bind at 1, validateSeriesIndex.
    rewrite Hs1, Hs2. cbn.
    unfold bind at 1, validatePointCount. rewrite Hn1, Hn2. cbn.
    unfold bind at 1. rewrite (getChartInstance_live _ _ _ _ Hi Hd Hl).
    unfold bind at 1, deserialize. rewrite Hpts. cbn.
    destruct (callCoordinator id (AppendData seriesIndex points) c) as [c' [e | []]];
      cbn in Hcall |- *; [| exact Hcall].
    now apply Hemit.
Qed.

Lemma update_step up msg c (I : Controller -> Prop) :
  UpdateInvariant I -> isUpdate msg -> I c -> I (step (Message up msg) c).
Proof.
  intros HI Hm Hc. cbn [step]. rewrite handleMessage_exec. unfold exec.
  destruct msg; try contradiction; cbn [dispatch].
  - now apply (preserves_handleSetOption _ HI).
  - now apply (preserves_handleAppendData _ HI).
  - now apply (preserves_handleAppendDataBatch _ HI).
Qed.

Lemma update_run up msgs (I : Controller -> Prop) :
  UpdateInvariant I -> Forall isUpdate msgs ->
  forall c, I c -> I (run (map (Message up) msgs) c).
Proof.
  intros HI Hm. induction Hm as [| msg msgs Hmsg _ IH]; intros c Hc; [exact Hc |].
  cbn [map]. rewrite run_cons. apply IH. now apply update_step.
Qed.

(** The tick of an armed chart whose device is there: one call of [render],
    made after everything the coordinator has been told so far. *)
Lemma tick_renders_once c chartId i :
  charts c !! chartId = Some i ->
  armed i -> deviceLost (state i) = false ->
  Has chartId (fun i' => calls (coordinator i') = calls (coordinator i) ++ [Render])
      (step (Tick chartId) c).
Proof.
  intros Hi ((Hd & Hc & Hp) & Hpend) Hl. rewrite Hpend in Hp.
  cbn [step]. unfold exec, renderTick. rewrite Hi, Hp, Hc, Hd, Hl.
  cbn [Nat.eqb orb negb andb].
  rewrite fst_bind. unfold updateInstance at 1, modify at 1. cbn iota.
  set (i1 := withState (setRenderPending false) (deliver i)).
  match goal with |- context [catch _ _ ?c1'] => set (c1 := c1') end.
  assert (Hi1 : charts c1 !! chartId = Some i1)
    by (unfold c1; cbn [charts]; now rewrite lookup_alter_eq, Hi).
  pose proof (callCoordinator_records c1 chartId i1 Render Hi1) as Hrec.
  change (calls (coordinator i1)) with (calls (coordinator i)) in Hrec.
  unfold catch. destruct (callCoordinator chartId Render c1) as [c2 [e | []]];
    cbn in Hrec |- *; [| exact Hrec].
  now apply preserves_emit_Has.
Qed.

(** The checks of [handleResize] on a chart that has its device. *)
Definition resizePasses (i : ChartInstance) (width height devicePixelRatio : number)
  : Prop :=
  le width (ofZ 0) = false /\ le height (ofZ 0) = false
  /\ le devicePixelRatio (ofZ 0) = false
  /\ strict_eq (floor (mul width devicePixelRatio)) (ofZ 0) = false
  /\ strict_eq (floor (mul height devicePixelRatio)) (ofZ 0) = false
  /\ (exists dev, device (gpuContext i) = Some dev)
  /\ canvasContext (gpuContext i) = Some (mkGPUCanvasContext None)
  /\ (exists format, preferredFormat (gpuContext i) = Some format).

(** A resize that asks for a render does not go through the channel: its
    handler calls [render] itself. *)
Lemma resize_renders_directly up c chartId i width height devicePixelRatio :
  charts c !! chartId = Some i ->
  disposed (state i) = false -> deviceLost (state i) = false ->
  resizePasses i width height devicePixelRatio ->
  Has chartId (fun i' => calls (coordinator i') = calls (coordinator i) ++ [Render])
      (step (Message up (Resize chartId width height devicePixelRatio true)) c).
Proof.
  intros Hi Hd Hl (Hw & Hh & Hr & Htw & Hth & [dev Hdev] & Hctx & [format Hfmt]).
  cbn [step]. rewrite handleMessage_exec. cbn [dispatch].
  unfold handleResize, exec, catch, bind at 1.
  rewrite (getChartInstance_live _ _ _ _ Hi Hd Hl).
  rewrite Hl, Hw, Hh, Hr. cbv zeta. rewrite Htw, Hth, Hdev. cbn [orb].
  unfold bind at 1, updateInstance at 1, modify at 1.
  rewrite Hctx, Hfmt. cbn [configureThrows].
  match goal with |- context [callCoordinator chartId Render ?c1'] => set (c1 := c1') end.
  set (i1 := withCanvas (max (ofZ 1) (min (floor (mul width devicePixelRatio))
                                          (maxTextureDimension2D dev)),
                         max (ofZ 1) (min (floor (mul height devicePixelRatio))
                                          (maxTextureDimension2D dev))) i).
  assert (Hi1 : charts c1 !! chartId = Some i1)
    by (unfold c1; cbn [charts]; now rewrite lookup_alter_eq, Hi).
  pose proof (callCoordinator_records c1 chartId i1 Render Hi1) as Hrec.
  change (calls (coordinator i1)) with (calls (coordinator i)) in Hrec.
  destruct (callCoordinator chartId Render c1) as [c2 [e | []]];
    cbn in Hrec |- *; [| exact Hrec].
  now apply preserves_emit_Has.
Qed.


End WithCollaborators.

(** ** A controller with one chart *)

(** Options and pointer events are opaque here; every option set resolves. *)
Definition demoResolve (_ : unit) : string + unit := inr tt.

(** A coordinator that asks for a render when it is given options or data, and
    never throws. *)
Definition demoReact (_ : list (@CoordinatorCall unit unit))
           (call : @CoordinatorCall unit unit) : Reaction :=
  match call with
  | SetOptions _ | AppendData _ _ => mkReaction [onRequestRender] None
  | _ => mkReaction [] None
  end.

Definition demoUp : @BringUp unit unit :=
  mkBringUp
    (inr (mkGPUContextState (Some (mkGPUDevice (ofZ 8192)))
                            (Some (mkGPUCanvasContext None)) (Some "bgra8unorm")))
    (inr demoReact).

Definition demoStep
  : @Event unit unit unit unit -> @Controller unit unit -> @Controller unit unit :=
  step demoResolve.

Definition demoRun
  : list (@Event unit unit unit unit) -> @Controller unit unit -> @Controller unit unit :=
  run demoResolve.

(** The controller of worker-entry.ts after one init message. *)
Definition demo : @Controller unit unit :=
  demoRun [Message demoUp
             (InitChart (mkInit "chart" "msg_1" (ofZ 1) (ofZ 800, ofZ 600) tt))]
          (onMessage create).

(** ... and after the chart's device has been lost. *)
Definition demoLost : @Controller unit unit :=
  demoRun [DeviceLost "chart" "unknown" "GPU reset"] demo.

Definition instanceOf (c : @Controller unit unit) : ChartInstance :=
  default (mkInstance (mkGPUContextState None None None) (mkCoordinator [] demoReact)
                      (NaN, NaN) (mkChannel 0 true) (mkState false true false))
          (charts c !! "chart").

(** What can be seen of the chart: the calls made on its coordinator and the
    messages waiting on its render channel. *)
Definition seen (c : @Controller unit unit)
  : option (list (@CoordinatorCall unit unit) * nat) :=
  (fun i => (calls (coordinator i), posted (renderChannel i))) <$> charts c !! "chart".

(** One point of two binary64 lanes. *)
Definition bytes16 : ArrayBuffer := laneBytes [f_1; f_2_5].
(** One point of two binary32 lanes, as the stride-8 row of the design
    document describes it. *)
Definition bytes8 : ArrayBuffer := repeat Byte.x00 8.

Definition lostOperations : list (@Event unit unit unit unit) :=
  [Message demoUp (AppendDataMsg "chart" (ofZ 0) bytes16 (ofZ 1) (ofZ 16));
   Message demoUp (SetOption "chart" tt);
   Tick "chart";
   Message demoUp (Resize "chart" (ofZ 800) (ofZ 600) (ofZ 2) true);
   Message demoUp (ForwardPointerEvent "chart" tt)].

Lemma lost_chart_refuses_operations_witness :
  exists i' errors,
    charts (demoRun lostOperations demoLost) !! "chart" = Some i'
    /\ untouchedLost (instanceOf demoLost) i'
    /\ outbox (demoRun lostOperations demoLost) = outbox demoLost ++ errors
    /\ Forall2 (fun r m => exists why,
                  m = ErrorMessage "chart" (fst r) why (snd r) None)
               (omap refusalOf lostOperations) errors.
Proof.
  apply (lost_chart_refuses_operations demoResolve demoLost "chart"
           (instanceOf demoLost) lostOperations).
  - vm_compute. reflexivity.
  - vm_compute. reflexivity.
  - vm_compute. reflexivity.
  - repeat constructor.
Defined.

(** C3 as stated fails: the error that answers an appendData on a lost chart
    carries the code DATA_ERROR, not DEVICE_LOST. *)
Lemma lost_chart_error_code :
  outbox (demoStep (Message demoUp (AppendDataMsg "chart" (ofZ 0) bytes16 (ofZ 1) (ofZ 16)))
                   demoLost)
  = outbox demoLost
    ++ [ErrorMessage "chart" DATA_ERROR (ChartDeviceLost "chart" "appendData")
                     "appendData" None]
  /\ DATA_ERROR <> DEVICE_LOST.
Proof. split; [vm_compute; reflexivity | discriminate]. Qed.

Lemma appendData_strides_witness :
  (exists points,
     deserializeDataPoints bytes16 (ofNat 1) (ofZ 16) = inr points
     /\ length points = 1
     /\ Has "chart"
            (fun i' => calls (coordinator i')
                       = calls (coordinator (instanceOf demo)) ++ [AppendData (ofZ 0) points])
            (demoStep (Message demoUp (AppendDataMsg "chart" (ofZ 0) bytes16 (ofNat 1) (ofZ 16)))
                      demo))
  /\ (exists why,
        demoStep (Message demoUp (AppendDataMsg "chart" (ofZ 0) bytes8 (ofNat 1) (ofZ 8))) demo
        = mkController (charts demo) true
            (outbox demo ++ [ErrorMessage "chart" DATA_ERROR why "appendData" None])).
Proof.
  split.
  - apply (appendData_strides demoResolve demoUp demo "chart" (instanceOf demo)
             (ofZ 0) bytes16 1 16);
      try (vm_compute; reflexivity). now left.
  - apply (appendData_strides demoResolve demoUp demo "chart" (instanceOf demo)
             (ofZ 0) bytes8 1 8);
      try (vm_compute; reflexivity). now left.
Defined.

(** C4 as stated fails: a well-formed stride-8 buffer (8 bytes for one point)
    is refused on a live chart; nothing reaches the coordinator. *)
Lemma stride_8_is_refused :
  outbox (demoStep (Message demoUp (AppendDataMsg "chart" (ofZ 0) bytes8 (ofZ 1) (ofZ 8))) demo)
  = outbox demo
    ++ [ErrorMessage "chart" DATA_ERROR (DataPointsError (InvalidStride (ofZ 8)))
                     "appendData" None]
  /\ seen (demoStep (Message demoUp (AppendDataMsg "chart" (ofZ 0) bytes8 (ofZ 1) (ofZ 8))) demo)
     = seen demo.
Proof. split; vm_compute; reflexivity. Qed.

Lemma appendData_size_check_witness :
  (exists why,
     demoStep (Message demoUp (AppendDataMsg "chart" (ofZ 0) bytes16 (ofZ 2) (ofZ 16))) demo
     = mkController (charts demo) true
         (outbox demo ++ [ErrorMessage "chart" DATA_ERROR why "appendData" None]))
  /\ (exists points,
        deserializeDataPoints bytes16 (ofNat 1) (ofZ 16) = inr points
        /\ length points = 1).
Proof.
  pose proof (appendData_size_check (AnimationConfig := unit) demoResolve demoUp demo
                "chart" (ofZ 0) bytes16 (ofZ 2) (ofZ 16) 1 16) as [Hrefuse Hcount].
  split.
  - apply Hrefuse; vm_compute; reflexivity.
  - apply Hcount; [now left | vm_compute; reflexivity].
Defined.

Definition threeUpdates : list (@WorkerInboundMessage unit unit unit) :=
  [SetOption "chart" tt;
   AppendDataMsg "chart" (ofZ 0) bytes16 (ofZ 1) (ofZ 16);
   AppendDataBatch "chart" [mkBatchItem (ofZ 1) bytes16 (ofZ 1) (ofZ 16)]].


(** The worker checks a zoom range against [0, 1]: the percent range 0..100,
    which the proxy accepts and forwards, is answered with an error here. *)
Remark worker_refuses_percent_zoom :
  outbox (demoStep (Message demoUp (SetZoomRangeMsg "chart" (ofZ 0) (ofZ 100))) demo)
  = outbox demo
    ++ [ErrorMessage "chart" UNKNOWN (ZoomRangeOutside01 (ofZ 0) (ofZ 100))
                     "setZoomRange" None]
  /\ seen (demoStep (Message demoUp (SetZoomRangeMsg "chart" (ofZ 0) (ofZ 100))) demo)
     = seen demo.
Proof. split; vm_compute; reflexivity. Qed.


End Controller.

(* ====================================================================== *)
(** * ChartGPUWorkerProxy (host side)                                      *)
(* ====================================================================== *)

Module Proxy.
Import JS Wire.

(** The codes of [ChartGPUWorkerError] this class throws. *)
Inductive WorkerErrorCode : Type :=
| DISPOSED | INVALID_ARGUMENT | COMMUNICATION_ERROR | TIMEOUT.

(** [new ChartGPUWorkerError(message, code, operation, chartId)]; the message
    is kept by the check that produced it. *)
Inductive Complaint : Type :=
| CannotOnDisposed              (* 'Cannot <operation> on disposed chart' *)
| BadSeriesIndex (seriesIndex : number)
| ZoomRangeOutside0100 (start end_ : number)
    (* 'Invalid zoom range: [s, e]. Values must be in [0, 100] (percent space).' *)
| ZoomRangeNotIncreasing (start end_ : number)
| DisposedBeforeCompleted.      (* 'Chart disposed before operation completed' *)

Record ChartGPUWorkerError : Type := mkError {
  message : Complaint;
  code : WorkerErrorCode;
  operation : string;
  errorChartId : string
}.

(** The messages this part of the proxy posts to the worker. *)
Inductive Posted : Type :=
| PostAppendData (chartId : string) (seriesIndex : number) (data : ArrayBuffer)
                 (pointCount : number) (stride : number)
| PostSetZoomRange (chartId : string) (start end_ : number)
| PostDispose (chartId : string).

(** The fields of the class (lines 1259-1314).  DOM objects and timers are
    kept as what the proxy knows of them: whether they are there. *)
Record Proxy : Type := mkProxy {
  chartId : string;
  isDisposed : bool;
  cachedInteractionX : option number;
  cachedZoomRange : option (number * number);
  pendingRequests : gmap string string;        (* messageId -> operation *)
  rejected : list (string * ChartGPUWorkerError);  (* requests rejected so far *)
  listeners : gmap string (gset nat);          (* event name -> callbacks *)
  eventHandlersBound : bool;                   (* boundEventHandlers on the canvas *)
  pendingMoveEvent : bool;
  moveThrottleRafId : option nat;
  resizeObserver : bool;
  dprListener : bool;                          (* dprMediaQuery + boundDprChangeHandler *)
  pendingResize : option (number * number);
  resizeRafId : option nat;
  overlays : bool;                             (* tooltip, legend, textOverlay *)
  dataZoomSlider : bool;
  zoomState : option (number * number);
  overlayUpdateRafId : option nat;
  pendingOverlayUpdates : list string;
  workerListener : bool;                       (* boundMessageHandler on the worker *)
  canvasInContainer : bool;
  posted : list Posted                         (* worker.postMessage calls, oldest first *)
}.

(** A method returns or throws. *)
Inductive Outcome : Type :=
| Returned
| Threw (e : ChartGPUWorkerError).

Definition setDisposed (p : Proxy) : Proxy :=
  mkProxy (chartId p) true (cachedInteractionX p) (cachedZoomRange p)
          (pendingRequests p) (rejected p) (listeners p) (eventHandlersBound p)
          (pendingMoveEvent p) (moveThrottleRafId p) (resizeObserver p) (dprListener p)
          (pendingResize p) (resizeRafId p) (overlays p) (dataZoomSlider p) (zoomState p)
          (overlayUpdateRafId p) (pendingOverlayUpdates p) (workerListener p)
          (canvasInContainer p) (posted p).

Definition setCachedZoomRange (z : option (number * number)) (p : Proxy) : Proxy :=
  mkProxy (chartId p) (isDisposed p) (cachedInteractionX p) z
          (pendingRequests p) (rejected p) (listeners p) (eventHandlersBound p)
          (pendingMoveEvent p) (moveThrottleRafId p) (resizeObserver p) (dprListener p)
          (pendingResize p) (resizeRafId p) (overlays p) (dataZoomSlider p) (zoomState p)
          (overlayUpdateRafId p) (pendingOverlayUpdates p) (workerListener p)
          (canvasInContainer p) (posted p).

Definition post (m : Posted) (p : Proxy) : Proxy :=
  mkProxy (chartId p) (isDisposed p) (cachedInteractionX p) (cachedZoomRange p)
          (pendingRequests p) (rejected p) (listeners p) (eventHandlersBound p)
          (pendingMoveEvent p) (moveThrottleRafId p) (resizeObserver p) (dprListener p)
          (pendingResize p) (resizeRafId p) (overlays p) (dataZoomSlider p) (zoomState p)
          (overlayUpdateRafId p) (pendingOverlayUpdates p) (workerListener p)
          (canvasInContainer p) (posted p ++ [m]).

(** [sendMessage(message, transfer)] (lines 2123-2142).  The messages posted
    here hold numbers, strings and a fresh buffer, which [worker.postMessage]
    accepts; its COMMUNICATION_ERROR branch is therefore not taken. *)
Definition sendMessage (m : Posted) (p : Proxy) : Proxy :=
  if isDisposed p then p else post m p.

(** [cleanupEventListeners()] (lines 1486-1520) *)
Definition cleanupEventListeners (p : Proxy) : Proxy :=
  if negb (canvasInContainer p) then p
  else
    mkProxy (chartId p) (isDisposed p) (cachedInteractionX p) (cachedZoomRange p)
            (pendingRequests p) (rejected p) (listeners p) false
            false None (resizeObserver p) (dprListener p)
            (pendingResize p) (resizeRafId p) (overlays p) (dataZoomSlider p) (zoomState p)
            (overlayUpdateRafId p) (pendingOverlayUpdates p) (workerListener p)
            (canvasInContainer p) (posted p).

(** [cleanupResizeMonitoring()] (lines 1646-1668) *)
Definition cleanupResizeMonitoring (p : Proxy) : Proxy :=
  mkProxy (chartId p) (isDisposed p) (cachedInteractionX p) (cachedZoomRange p)
          (pendingRequests p) (rejected p) (listeners p) (eventHandlersBound p)
          (pendingMoveEvent p) (moveThrottleRafId p) false false
          None None (overlays p) (dataZoomSlider p) (zoomState p)
          (overlayUpdateRafId p) (pendingOverlayUpdates p) (workerListener p)
          (canvasInContainer p) (posted p).

(** [disposeOverlays()] (lines 1753-1777) *)
Definition disposeOverlays (p : Proxy) : Proxy :=
  mkProxy (chartId p) (isDisposed p) (cachedInteractionX p) (cachedZoomRange p)
          (pendingRequests p) (rejected p) (listeners p) (eventHandlersBound p)
          (pendingMoveEvent p) (moveThrottleRafId p) (resizeObserver p) (dprListener p)
          (pendingResize p) (resizeRafId p) false false None
          None [] (workerListener p)
          (canvasInContainer p) (posted p).

(** The tail of [dispose()] (lines 1983-2007): reject what is pending, drop the
    listeners, stop listening to the worker, take the canvas out. *)
Definition rejectAndDetach (p : Proxy) : Proxy :=
  mkProxy (chartId p) (isDisposed p) (cachedInteractionX p) (cachedZoomRange p)
          ∅
          (rejected p
           ++ map (fun '(messageId, op) =>
                     (messageId, mkError DisposedBeforeCompleted DISPOSED op (chartId p)))
                  (map_to_list (pendingRequests p)))
          ((fun _ => ∅) <$> listeners p)
          (eventHandlersBound p)
          (pendingMoveEvent p) (moveThrottleRafId p) (resizeObserver p) (dprListener p)
          (pendingResize p) (resizeRafId p) (overlays p) (dataZoomSlider p) (zoomState p)
          (overlayUpdateRafId p) (pendingOverlayUpdates p) false
          false (posted p).

(** [dispose()] (lines 1961-2008) *)
Definition dispose (p : Proxy) : Proxy * Outcome :=
  if isDisposed p then (p, Returned)          (* Already disposed *)
  else
    let p := setDisposed p in
    let p := cleanupEventListeners p in
    let p := cleanupResizeMonitoring p in
    let p := disposeOverlays p in
    let p := sendMessage (PostDispose (chartId p)) p in
    (rejectAndDetach p, Returned).

(** [appendData(seriesIndex, newPoints)] (lines 1899-1932) *)
Definition appendData (seriesIndex : number) (newPoints : list Point) (p : Proxy)
  : Proxy * Outcome :=
  if isDisposed p then
    (p, Threw (mkError CannotOnDisposed DISPOSED "appendData" (chartId p)))
  else if negb (isInteger seriesIndex) || lt seriesIndex (ofZ 0) then
    (p, Threw (mkError (BadSeriesIndex seriesIndex) INVALID_ARGUMENT "appendData"
                       (chartId p)))
  else if Nat.eqb (length newPoints) 0 then (p, Returned)
  else
    let '(data, stride) := serializeDataPoints newPoints in
    (sendMessage (PostAppendData (chartId p) seriesIndex data
                                 (ofNat (length newPoints)) stride) p,
     Returned).

(** [getZoomRange()] (lines 2073-2078) *)
Definition getZoomRange (p : Proxy) : option (number * number) :=
  if isDisposed p then None else cachedZoomRange p.

(** [setZoomRange(start, end)] (lines 2080-2111) *)
Definition setZoomRange (start end_ : number) (p : Proxy) : Proxy * Outcome :=
  if isDisposed p then (p, Returned)
  else if lt start (ofZ 0) || gt start (ofZ 100) || lt end_ (ofZ 0) || gt end_ (ofZ 100)
  then (p, Threw (mkError (ZoomRangeOutside0100 start end_) INVALID_ARGUMENT
                          "setZoomRange" (chartId p)))
  else if ge start end_
  then (p, Threw (mkError (ZoomRangeNotIncreasing start end_) INVALID_ARGUMENT
                          "setZoomRange" (chartId p)))
  else
    let p := setCachedZoomRange (Some (start, end_)) p in
    (sendMessage (PostSetZoomRange (chartId p) start end_) p, Returned).

(** The proxy as its constructor and [init] leave it, for a chart without a
    zoom slider; one request (the init message) is still pending. *)
Definition created (id : string) : Proxy :=
  mkProxy id false None None
          {["msg_1" := "init"]} []
          (list_to_map [("click", ∅); ("mouseover", ∅); ("mouseout", ∅);
                        ("crosshairMove", ∅)])
          true false None true true None None true false None None [] true true [].

(** [0 <= start < end <= 100] *)
Definition inPercentRange (start end_ : number) : bool :=
  le (ofZ 0) start && lt start end_ && le end_ (ofZ 100).

(** ** Facts *)

Lemma isDisposed_dispose (p : Proxy) : isDisposed (fst (dispose p)) = true.
Proof.
  unfold dispose. destruct (isDisposed p) eqn:E; [exact E |].
  unfold cleanupEventListeners. cbn. destruct (canvasInContainer p); reflexivity.
Qed.

(** C6: [dispose] can be called twice.  The first call returns; a second call
    changes nothing and returns without an error; an [appendData] after that
    is refused with the code DISPOSED. *)
Theorem dispose_twice (p : Proxy) :
  let p1 := fst (dispose p) in
  snd (dispose p) = Returned
  /\ dispose p1 = (p1, Returned)
  /\ forall seriesIndex newPoints,
       appendData seriesIndex newPoints p1
       = (p1, Threw (mkError CannotOnDisposed DISPOSED "appendData" (chartId p1))).
Proof.
  intros p1. pose proof (isDisposed_dispose p) as Hd. fold p1 in Hd.
  split; [| split].
  - unfold dispose. destruct (isDisposed p); reflexivity.
  - unfold dispose. now rewrite Hd.
  - intros seriesIndex newPoints. unfold appendData. now rewrite Hd.
Qed.

(** The [dispose] message itself is never posted: [isDisposed] is set before
    [sendMessage] is called, and [sendMessage] does nothing on a disposed
    proxy. *)
Remark dispose_posts_nothing (p : Proxy) : posted (fst (dispose p)) = posted p.
Proof.
  unfold dispose. destruct (isDisposed p) eqn:E; [reflexivity |].
  unfold sendMessage, cleanupEventListeners. cbn.
  destruct (canvasInContainer p); reflexivity.
Qed.

Lemma Qle_bool_false (x y : Q) : Qle_bool x y = false -> (y < x)%Q.
Proof.
  intros H. apply Qnot_le_lt. intros Hle. apply Qle_bool_iff in Hle. congruence.
Qed.

Lemma Qle_bool_true (x y : Q) : Qle_bool x y = true -> (x <= y)%Q.
Proof. apply Qle_bool_iff. Qed.

(** C1, as the code has it: [setZoomRange] does not clamp.  On a proxy that is
    not disposed, for arguments that are numbers (not NaN): if
    0 <= start < end <= 100 the pair becomes the cached zoom range, which
    [getZoomRange] returns, and a setZoomRange message is posted, without an
    error; otherwise the call throws INVALID_ARGUMENT and changes nothing. *)
Theorem setZoomRange_checks (p : Proxy) (start end_ : number) :
  isDisposed p = false -> start <> NaN -> end_ <> NaN ->
  if inPercentRange start end_ then
    setZoomRange start end_ p
    = (post (PostSetZoomRange (chartId p) start end_)
            (setCachedZoomRange (Some (start, end_)) p), Returned)
    /\ getZoomRange (fst (setZoomRange start end_ p)) = Some (start, end_)
  else
    exists why,
      setZoomRange start end_ p
      = (p, Threw (mkError why INVALID_ARGUMENT "setZoomRange" (chartId p))).
Proof.
  intros Hd Hs He. unfold setZoomRange, getZoomRange, inPercentRange, sendMessage.
  rewrite Hd.
  destruct start as [| | | a]; [contradiction | | |];
    destruct end_ as [| | | b]; try contradiction;
    try (cbn; rewrite ?Hd; eauto; fail);
    try (cbn; destruct (Qle_bool _ _); cbn; rewrite ?Hd; eauto; fail).
  all: unfold lt, gt, ge, le, ofZ; unfold lt.
  all: try (destruct (Qle_bool (inject_Z 0) a) eqn:E1, (Qle_bool a (inject_Z 100)) eqn:E2;
            cbn; rewrite ?Hd; eauto; fail).
  destruct (Qle_bool (inject_Z 0) a) eqn:E1, (Qle_bool a (inject_Z 100)) eqn:E2,
           (Qle_bool (inject_Z 0) b) eqn:E3, (Qle_bool b (inject_Z 100)) eqn:E4,
           (Qle_bool b a) eqn:E5;
    cbn; rewrite ?Hd; eauto;
    try (split; [reflexivity | unfold post, setCachedZoomRange; cbn; now rewrite Hd]);
    exfalso;
    repeat match goal with
           | H : Qle_bool _ _ = true |- _ => apply Qle_bool_true in H
           | H : Qle_bool _ _ = false |- _ => apply Qle_bool_false in H
           end;
    change (inject_Z 0) with 0%Q in *; change (inject_Z 100) with 100%Q in *; lra.
Qed.

Lemma setZoomRange_checks_witness :
  setZoomRange (Fin (25 # 2)) (ofZ 80) (created "chart")
  = (post (PostSetZoomRange "chart" (Fin (25 # 2)) (ofZ 80))
          (setCachedZoomRange (Some (Fin (25 # 2), ofZ 80)) (created "chart")), Returned)
  /\ getZoomRange (fst (setZoomRange (Fin (25 # 2)) (ofZ 80) (created "chart")))
     = Some (Fin (25 # 2), ofZ 80).
Proof.
  apply (setZoomRange_checks (created "chart") (Fin (25 # 2)) (ofZ 80));
    [reflexivity | discriminate | discriminate].
Defined.

(** C1 as stated fails: start = -10 is not clamped to 0; the call throws and
    the zoom range stays what it was. *)
Lemma out_of_range_zoom_is_rejected :
  setZoomRange (ofZ (-10)) (ofZ 50) (created "chart")
  = (created "chart",
     Threw (mkError (ZoomRangeOutside0100 (ofZ (-10)) (ofZ 50)) INVALID_ARGUMENT
                    "setZoomRange" "chart"))
  /\ getZoomRange (fst (setZoomRange (ofZ (-10)) (ofZ 50) (created "chart"))) = None.
Proof. split; reflexivity. Qed.

End Proxy.

(* ====================================================================== *)
(** * From the proxy to the coordinator                                    *)
(* ====================================================================== *)

Module Bridge.
Import JS Wire.

Section WithCollaborators.
Context {ChartGPUOptions ResolvedOptions PointerEventData AnimationConfig : Type}.
Variable resolveOptions : ChartGPUOptions -> string + ResolvedOptions.

(** The worker-side message for what the proxy posts. *)
Definition delivered (m : Proxy.Posted)
  : @Controller.WorkerInboundMessage ChartGPUOptions PointerEventData AnimationConfig :=
  match m with
  | Proxy.PostAppendData chartId seriesIndex data pointCount stride =>
      Controller.AppendDataMsg chartId seriesIndex data pointCount stride
  | Proxy.PostSetZoomRange chartId start end_ =>
      Controller.SetZoomRangeMsg chartId start end_
  | Proxy.PostDispose chartId => Controller.DisposeChart chartId
  end.

(** [appendData] on the proxy, then the message handled by the controller: the
    coordinator of a live chart is given the very tuples the caller passed. *)
Corollary appendData_crosses_unchanged
          (p : Proxy.Proxy) (seriesIndex : number) (points : list Point)
          (up : Controller.BringUp) (c : Controller.Controller)
          (i : Controller.ChartInstance) :
  Proxy.isDisposed p = false ->
  isInteger seriesIndex = true -> lt seriesIndex (ofZ 0) = false ->
  points <> [] -> Forall isXY points \/ Forall isOHLC5 points ->
  Controller.charts c !! Proxy.chartId p = Some i ->
  Controller.disposed (Controller.state i) = false ->
  Controller.deviceLost (Controller.state i) = false ->
  exists m,
    Proxy.appendData seriesIndex points p = (Proxy.post m p, Proxy.Returned)
    /\ Controller.Has (Proxy.chartId p)
         (fun i' => Controller.calls (Controller.coordinator i')
                    = Controller.calls (Controller.coordinator i)
                      ++ [Controller.AppendData seriesIndex points])
         (Controller.step resolveOptions (Controller.Message up (delivered m)) c).
Proof.
  intros Hd Hs1 Hs2 Hne Hshape Hi Hdisp Hlost.
  assert (Hlen : Nat.eqb (length points) 0 = false)
    by (destruct points; [contradiction | reflexivity]).
  assert (Hround : exists buffer stride,
             serializeDataPoints points = (buffer, stride)
             /\ deserializeDataPoints buffer (ofNat (length points)) stride = inr points).
  { destruct Hshape as [H | H].
    - eexists _, _. split; [now apply serialize_xy | now apply deserialize_xy].
    - eexists _, _. split; [now apply serialize_ohlc | now apply deserialize_ohlc]. }
  destruct Hround as (buffer & stride & Hser & Hde).
  exists (Proxy.PostAppendData (Proxy.chartId p) seriesIndex buffer
                               (ofNat (length points)) stride).
  split.
  - unfold Proxy.appendData, Proxy.sendMessage. now rewrite Hd, Hs1, Hs2, Hlen, Hser.
  - cbn [delivered].
    eapply Controller.appendData_accepted;
      eauto using Controller.isInteger_ofNat, Controller.lt_ofNat_0.
Qed.

End WithCollaborators.
End Bridge.

(* ====================================================================== *)
(** * More JavaScript arithmetic                                           *)
(* ====================================================================== *)

Module JSArith.
Import JS.

(** [-a] *)
Definition neg (a : number) : number :=
  match a with
  | NaN => NaN
  | PosInf => NegInf
  | NegInf => PosInf
  | Fin q => Fin (- q)
  end.

(** [a + b] *)
Definition add (a b : number) : number :=
  match a, b with
  | NaN, _ | _, NaN => NaN
  | Fin x, Fin y => Fin (x + y)
  | PosInf, NegInf | NegInf, PosInf => NaN
  | PosInf, _ | _, PosInf => PosInf
  | NegInf, _ | _, NegInf => NegInf
  end.

(** [a - b] *)
Definition sub (a b : number) : number := add a (neg b).

(** [a / b]; a finite value over zero is an infinity of the dividend's sign
    (the zero of this model has no sign), zero over zero is [NaN]. *)
Definition div (a b : number) : number :=
  match a, b with
  | NaN, _ | _, NaN => NaN
  | Fin x, Fin y =>
      if Qeq_bool y 0 then
        match sign a with
        | Z0 => NaN
        | Zpos _ => PosInf
        | Zneg _ => NegInf
        end
      else Fin (x / y)
  | Fin _, _ => Fin 0
  | _, Fin _ =>
      match (sign a * (if lt b (Fin 0) then -1 else 1))%Z with
      | Z0 => NaN
      | Zpos _ => PosInf
      | Zneg _ => NegInf
      end
  | _, _ => NaN
  end.

(** [Math.ceil(a)] *)
Definition ceil (a : number) : number :=
  match a with Fin q => Fin (inject_Z (Qceiling q)) | _ => a end.

End JSArith.

(* ====================================================================== *)
(** * Histogram binning (computeHistogramBins)                             *)
(* ====================================================================== *)

Module Histogram.
Import JS JSArith.

(** [Math.min(...xs)] and [Math.max(...xs)]: the infinities when [xs] is empty. *)
Definition minOf (xs : list number) : number := fold_left min xs PosInf.
Definition maxOf (xs : list number) : number := fold_left max xs NegInf.

(** [xs[i]] where it is used as a number: [undefined] becomes [NaN]. *)
Definition at_ (xs : list number) (i : nat) : number := nth i xs NaN.

(** [xs[i]] for an index that is itself a [number]. *)
Definition atNumber (xs : list number) (i : number) : number :=
  match i with
  | Fin q =>
      if isInteger i && Qle_bool 0 q then at_ xs (Z.to_nat (Qfloor q)) else NaN
  | _ => NaN
  end.

(** [[...xs].sort(compare)]: the sort is stable, so for a comparator like the
    one used here every sorting algorithm gives the list that insertion from
    the right gives. *)
Fixpoint insertSorted (compare : number -> number -> number) (x : number)
    (sorted : list number) : list number :=
  match sorted with
  | [] => [x]
  | y :: rest =>
      if le (compare x y) (Fin 0) then x :: sorted
      else y :: insertSorted compare x rest
  end.

Definition sort (compare : number -> number -> number) (xs : list number) : list number :=
  fold_right (insertSorted compare) [] xs.

(** The numbers [i = 0, 1, 2, ...] with [i < bound]; none when the loop
    [for (i = 0; i < bound; i++)] would not end. *)
Definition below (bound : number) : option (list nat) :=
  match bound with
  | Fin q => Some (seq 0 (Z.to_nat (Qceiling q)))
  | PosInf => None
  | NaN | NegInf => Some []
  end.

(** The same for [i <= bound]. *)
Definition upTo (bound : number) : option (list nat) :=
  match bound with
  | Fin q => Some (seq 0 (Z.to_nat (Qfloor q + 1)))
  | PosInf => None
  | NaN | NegInf => Some []
  end.

(** ** The source *)

Record HistogramBinsResult : Type := mkResult {
  binEdges : list number;
  counts : list nat
}.

(** How a call ends.  Arrays are lists here: the limit of 2^32 - 1 elements an
    array can hold is modelled only where the code asks for a length
    ([new Array(numBins)]). *)
Inductive Outcome : Type :=
| Returns (result : HistogramBinsResult)
| RangeError          (* new Array(numBins): 'Invalid array length' *)
| Unfinished.         (* a loop is still running *)

(** [quartile(sorted, p)] (lines 15-25) *)
Definition quartile (sorted : list number) (p : number) : number :=
  match sorted with
  | [] => Fin 0
  | [only] => only
  | _ =>
      let i := mul p (sub (ofNat (length sorted)) (Fin 1)) in
      let lo := floor i in
      let hi := ceil i in
      if strict_eq lo hi then atNumber sorted lo
      else
        let a := atNumber sorted lo in
        let b := atNumber sorted hi in
        add a (mul (sub i lo) (sub b a))
  end.

(** The [while] loop of lines 55-57; [fuel] bounds the number of edges it may
    push. *)
Fixpoint pushEdges (fuel : nat) (binWidth max : number) (edges : list number)
  : option (list number) :=
  if lt (add (List.last edges NaN) binWidth) max then
    match fuel with
    | O => None
    | S fuel => pushEdges fuel binWidth max (edges ++ [add (List.last edges NaN) binWidth])
    end
  else Some edges.

(** The test of lines 86-88. *)
Definition inBin (binEdges : list number) (numBins : number) (v : number) (k : nat) : bool :=
  let left := at_ binEdges k in
  let right := at_ binEdges (k + 1) in
  if lt (ofNat k) (sub numBins (Fin 1)) then ge v left && lt v right
  else ge v left && le v right.

(** [counts[k]++] *)
Definition increment (k : nat) (counts : list nat) : list nat := alter S k counts.

(** The loops of lines 83-94 over the bins [ks = 0, ..., numBins - 1]. *)
Definition countValues (binEdges : list number) (numBins : number) (ks : list nat)
    (finite : list number) (counts : list nat) : list nat :=
  fold_left (fun counts v =>
               match find (inBin binEdges numBins v) ks with
               | Some k => increment k counts
               | None => counts
               end)
            finite counts.

(** [new Array<number>(numBins).fill(0)] *)
Definition newCounts (numBins : number) : option (list nat) :=
  match numBins with
  | Fin q =>
      if isInteger numBins && Qle_bool 0 q && Qle_bool q 4294967295
      then Some (replicate (Z.to_nat (Qfloor q)) 0%nat)
      else None
  | _ => None
  end.

(** Lines 54-60: the edges for a given bin width, and their number less one. *)
Definition fixedWidthEdges (fuel : nat) (binWidth min max : number)
  : option (list number * number) :=
  match pushEdges fuel binWidth max [min] with
  | Some edges =>
      let binEdges := edges ++ [max] in
      Some (binEdges, sub (ofNat (length binEdges)) (Fin 1))
  | None => None
  end.

Section WithPow.

(** [Math.pow] *)
Variable pow : number -> number -> number.

(** Lines 62-78: the Freedman-Diaconis edges. *)
Definition freedmanDiaconisEdges (finite : list number) (n min span : number)
  : option (list number * number) :=
  let sorted := sort (fun a b => sub a b) finite in
  let q1 := quartile sorted (Fin (1 # 4)) in
  let q3 := quartile sorted (Fin (3 # 4)) in
  let iqr := sub q3 q1 in
  let width :=
    if negb (isFinite iqr) || le iqr (Fin 0) || lt n (Fin 2)
    then div span (JS.min (Fin 10) (JS.max (Fin 1) n))
    else
      let h := div (mul (Fin 2) iqr) (pow n (div (Fin 1) (Fin 3))) in
      if isFinite h && gt h (Fin 0) then h else div span (Fin 10) in
  let numBins := JS.max (Fin 1) (ceil (div span width)) in
  let actualWidth := div span numBins in
  match upTo numBins with
  | Some is_ => Some (map (fun i => add min (mul (ofNat i) actualWidth)) is_, numBins)
  | None => None
  end.

(** [computeHistogramBins(values, binWidth)] (lines 32-97); [binWidth] is
    [None] when the argument is left out. *)
Definition computeHistogramBins (fuel : nat) (values : list number)
    (binWidth : option number) : Outcome :=
  let finite := List.filter isFinite values in
  if (length finite =? 0)%nat then Returns (mkResult [] [])
  else
    let n := ofNat (length finite) in
    let min := minOf finite in
    let max := maxOf finite in
    let span := sub max min in
    if le span (Fin 0) || negb (isFinite span)
    then Returns (mkResult [min; max] [length finite])
    else
      let edges :=
        match binWidth with
        | Some binWidth =>
            if isFinite binWidth && gt binWidth (Fin 0)
            then fixedWidthEdges fuel binWidth min max
            else freedmanDiaconisEdges finite n min span
        | None => freedmanDiaconisEdges finite n min span
        end in
      match edges with
      | None => Unfinished
      | Some (binEdges, numBins) =>
          match newCounts numBins with
          | None => RangeError
          | Some counts =>
              match below numBins with
              | None => Unfinished
              | Some ks =>
                  Returns (mkResult binEdges
                                    (countValues binEdges numBins ks finite counts))
              end
          end
      end.

End WithPow.

(** ** Facts *)

Local Open Scope Q_scope.

Lemma finite_values (values : list number) (v : number) :
  In v (List.filter isFinite values) -> exists q, v = Fin q.
Proof.
  intros Hin. apply filter_In in Hin as [_ Hfin].
  destruct v; try discriminate. now eexists.
Qed.

Lemma fold_min (xs : list number) : forall a0,
  (forall v, In v xs -> exists q, v = Fin q) ->
  exists a, fold_left min xs (Fin a0) = Fin a
    /\ (a = a0 \/ In (Fin a) xs) /\ a <= a0 /\ (forall q, In (Fin q) xs -> a <= q).
Proof.
  induction xs as [| x xs IH]; intros a0 Hfin.
  - exists a0. cbn. repeat split; [now left | lra | intros q []].
  - destruct (Hfin x (or_introl eq_refl)) as [q ->].
    cbn [fold_left]. unfold min at 2. unfold le.
    destruct (Qle_bool a0 q) eqn:E.
    + apply Qle_bool_iff in E.
      destruct (IH a0 (fun v Hv => Hfin v (or_intror Hv))) as (a & Ha & Hor & Hle & Hall).
      exists a. split; [exact Ha |]. split; [destruct Hor; [now left | right; now right] |].
      split; [exact Hle |]. intros q' [[= <-] | Hq']; [lra | now apply Hall].
    + assert (Hlt : q < a0).
      { apply Qnot_le_lt. intros H. apply Qle_bool_iff in H. congruence. }
      destruct (IH q (fun v Hv => Hfin v (or_intror Hv))) as (a & Ha & Hor & Hle & Hall).
      exists a. split; [exact Ha |].
      split; [right; destruct Hor as [-> | Hor]; [now left | now right] |].
      split; [lra |]. intros q' [[= <-] | Hq']; [lra | now apply Hall].
Qed.

Lemma fold_max (xs : list number) : forall b0,
  (forall v, In v xs -> exists q, v = Fin q) ->
  exists b, fold_left max xs (Fin b0) = Fin b
    /\ (b = b0 \/ In (Fin b) xs) /\ b0 <= b /\ (forall q, In (Fin q) xs -> q <= b).
Proof.
  induction xs as [| x xs IH]; intros b0 Hfin.
  - exists b0. cbn. repeat split; [now left | lra | intros q []].
  - destruct (Hfin x (or_introl eq_refl)) as [q ->].
    cbn [fold_left]. unfold max at 2. unfold le.
    destruct (Qle_bool b0 q) eqn:E.
    + apply Qle_bool_iff in E.
      destruct (IH q (fun v Hv => Hfin v (or_intror Hv))) as (b & Hb & Hor & Hle & Hall).
      exists b. split; [exact Hb |].
      split; [right; destruct Hor as [-> | Hor]; [now left | now right] |].
      split; [lra |]. intros q' [[= <-] | Hq']; [lra | now apply Hall].
    + assert (Hlt : q < b0).
      { apply Qnot_le_lt. intros H. apply Qle_bool_iff in H. congruence. }
      destruct (IH b0 (fun v Hv => Hfin v (or_intror Hv))) as (b & Hb & Hor & Hle & Hall).
      exists b. split; [exact Hb |]. split; [destruct Hor; [now left | right; now right] |].
      split; [exact Hle |]. intros q' [[= <-] | Hq']; [lra | now apply Hall].
Qed.

(** The smallest and the largest of a non-empty list of finite values. *)
Lemma minOf_spec (xs : list number) :
  xs <> [] -> (forall v, In v xs -> exists q, v = Fin q) ->
  exists a, minOf xs = Fin a /\ In (Fin a) xs /\ (forall q, In (Fin q) xs -> a <= q).
Proof.
  destruct xs as [| x xs]; [congruence |]. intros _ Hfin.
  destruct (Hfin x (or_introl eq_refl)) as [q ->].
  unfold minOf. cbn [fold_left]. change (min PosInf (Fin q)) with (Fin q).
  destruct (fold_min xs q (fun v Hv => Hfin v (or_intror Hv))) as (a & Ha & Hor & Hle & Hall).
  exists a. split; [exact Ha |].
  split; [destruct Hor as [-> | Hor]; [now left | now right] |].
  intros q' [[= <-] | Hq']; [exact Hle | now apply Hall].
Qed.

Lemma maxOf_spec (xs : list number) :
  xs <> [] -> (forall v, In v xs -> exists q, v = Fin q) ->
  exists b, maxOf xs = Fin b /\ In (Fin b) xs /\ (forall q, In (Fin q) xs -> q <= b).
Proof.
  destruct xs as [| x xs]; [congruence |]. intros _ Hfin.
  destruct (Hfin x (or_introl eq_refl)) as [q ->].
  unfold maxOf. cbn [fold_left]. change (max NegInf (Fin q)) with (Fin q).
  destruct (fold_max xs q (fun v Hv => Hfin v (or_intror Hv))) as (b & Hb & Hor & Hle & Hall).
  exists b. split; [exact Hb |].
  split; [destruct Hor as [-> | Hor]; [now left | now right] |].
  intros q' [[= <-] | Hq']; [exact Hle | now apply Hall].
Qed.

(** *** The fixed-width edges *)

(** What the loop of lines 55-57 appends after the edge [x]: [x + w],
    [x + w + w], ... as long as the next one is still below [b]. *)
Inductive Rungs (w b : Q) : Q -> list Q -> Prop :=
| rungs_done x : ~ (x + w < b) -> Rungs w b x []
| rungs_step x more : x + w < b -> Rungs w b (x + w) more -> Rungs w b x ((x + w) :: more).

Lemma last_snoc (front : list Q) (x : Q) :
  List.last (map Fin (front ++ [x])) NaN = Fin x.
Proof. rewrite map_app. cbn [map]. apply last_last. Qed.

Lemma pushEdges_spec (w b : Q) : 0 < w -> forall fuel front x,
  b - x <= inject_Z (Z.of_nat fuel) * w ->
  exists more,
    pushEdges fuel (Fin w) (Fin b) (map Fin (front ++ [x]))
    = Some (map Fin (front ++ x :: more))
    /\ Rungs w b x more.
Proof.
  intros Hw. induction fuel as [| fuel IH]; intros front x Hfuel.
  - exists []. cbn [pushEdges]. rewrite last_snoc. cbn [add lt].
    change (inject_Z (Z.of_nat 0)) with 0 in Hfuel.
    assert (Hno : ~ (x + w < b)) by lra.
    destruct (Qle_bool b (x + w)) eqn:E; cbn [negb].
    + split; [reflexivity | now constructor].
    + exfalso. apply Hno. apply Qnot_le_lt. intros H. apply Qle_bool_iff in H. congruence.
  - cbn [pushEdges]. rewrite last_snoc. cbn [add lt].
    destruct (Qle_bool b (x + w)) eqn:E; cbn [negb].
    + exists []. split; [reflexivity |]. constructor.
      apply Qle_bool_iff in E. lra.
    + assert (Hlt : x + w < b).
      { apply Qnot_le_lt. intros H. apply Qle_bool_iff in H. congruence. }
      destruct (IH (front ++ [x]) (x + w)) as (more & Hpush & Hrungs).
      { rewrite Nat2Z.inj_succ, <- Z.add_1_r, inject_Z_plus in Hfuel.
        change (inject_Z 1) with 1 in Hfuel. lra. }
      exists ((x + w) :: more). split; [| now constructor].
      change (map Fin (front ++ [x]) ++ [Fin (x + w)])
        with (map Fin (front ++ [x]) ++ map Fin [x + w]).
      rewrite <- map_app, Hpush, <- app_assoc. reflexivity.
Qed.

(** More fuel does not change what the loop returns. *)
Lemma pushEdges_more_fuel (binWidth max : number) : forall fuel fuel' edges result,
  pushEdges fuel binWidth max edges = Some result ->
  (fuel <= fuel')%nat ->
  pushEdges fuel' binWidth max edges = Some result.
Proof.
  induction fuel as [| fuel IH]; intros fuel' edges result Hpush Hle.
  - cbn [pushEdges] in Hpush.
    destruct fuel'; cbn [pushEdges];
      destruct (lt (add (List.last edges NaN) binWidth) max); congruence.
  - destruct fuel' as [| fuel']; [lia |]. cbn [pushEdges] in *.
    destruct (lt (add (List.last edges NaN) binWidth) max); [| exact Hpush].
    apply (IH fuel' _ _ Hpush). lia.
Qed.

(** The edges [x :: more ++ [b]] the fixed-width branch ends with: they
    increase, neighbours are [w] apart, only the last bin may be narrower. *)
Lemma rungs_bins (w b : Q) : 0 < w -> forall x more,
  Rungs w b x more -> x < b ->
  (inject_Z (Z.of_nat (length more)) * w < b - x)
  /\ forall k lo hi,
      (x :: more ++ [b]) !! k = Some lo ->
      (x :: more ++ [b]) !! S k = Some hi ->
      lo < hi /\ hi - lo <= w
      /\ ((S (S k) < length (x :: more ++ [b]))%nat -> hi == lo + w).
Proof.
  intros Hw x more Hrungs. induction Hrungs as [x Hdone | x more Hlt Hrungs IH]; intros Hx.
  - split; [change (inject_Z (Z.of_nat (length (@nil Q)))) with 0; lra |].
    intros k lo hi Hlo Hhi.
    destruct k as [| [| k]]; cbn in Hlo, Hhi; try discriminate.
    injection Hlo as <-. injection Hhi as <-.
    split; [exact Hx |]. split; [lra |]. cbn. lia.
  - destruct (IH Hlt) as [Hlen Hbins]. split.
    + cbn [length]. rewrite Nat2Z.inj_succ, <- Z.add_1_r, inject_Z_plus.
      change (inject_Z 1) with 1. lra.
    + intros k lo hi Hlo Hhi. destruct k as [| k].
      * cbn in Hlo, Hhi. injection Hlo as <-. injection Hhi as <-.
        split; [lra |]. split; [lra |]. intros _. reflexivity.
      * cbn [app] in Hlo, Hhi. rewrite lookup_cons in Hlo. rewrite lookup_cons in Hhi.
        destruct (Hbins k lo hi Hlo Hhi) as (H1 & H2 & H3).
        split; [exact H1 |]. split; [exact H2 |].
        intros Hk. apply H3. cbn [length app] in *. lia.
Qed.

(** *** Counting *)

Lemma at_map (qs : list Q) : forall k x, qs !! k = Some x -> at_ (map Fin qs) k = Fin x.
Proof.
  unfold at_. induction qs as [| y qs IH]; intros [| k] x H; cbn in *; try discriminate.
  - now injection H as <-.
  - now apply IH.
Qed.

Lemma length_countValues (binEdges : list number) (numBins : number) (ks : list nat)
    (finite : list number) : forall counts0,
  length (countValues binEdges numBins ks finite counts0) = length counts0.
Proof.
  unfold countValues. induction finite as [| v finite IH]; intros counts0; [reflexivity |].
  cbn [fold_left]. rewrite IH.
  destruct (find (inBin binEdges numBins v) ks); [apply length_alter | reflexivity].
Qed.

(** Bin [k] counts the values whose first matching bin is [k]. *)
Lemma countValues_lookup (binEdges : list number) (numBins : number) (ks : list nat)
    (k : nat) (finite : list number) : forall counts0 c0,
  counts0 !! k = Some c0 ->
  countValues binEdges numBins ks finite counts0 !! k
  = Some (c0 + length (List.filter
                         (fun v => bool_decide (find (inBin binEdges numBins v) ks = Some k))
                         finite))%nat.
Proof.
  unfold countValues. induction finite as [| v finite IH]; intros counts0 c0 Hc0.
  - cbn. now rewrite Nat.add_0_r.
  - cbn [fold_left List.filter].
    destruct (find (inBin binEdges numBins v) ks) as [j |] eqn:Hfind.
    + destruct (decide (j = k)) as [-> | Hne].
      * rewrite bool_decide_eq_true_2 by reflexivity.
        rewrite (IH _ (S c0)).
        -- cbn [length]. f_equal. lia.
        -- unfold increment. rewrite list_lookup_alter_eq, Hc0. reflexivity.
      * rewrite bool_decide_eq_false_2 by congruence.
        apply IH. unfold increment. rewrite list_lookup_alter_ne by exact Hne. exact Hc0.
    + rewrite bool_decide_eq_false_2 by discriminate. now apply IH.
Qed.

Lemma list_sum_increment (counts0 : list nat) : forall k,
  (k < length counts0)%nat -> list_sum (increment k counts0) = S (list_sum counts0).
Proof.
  unfold increment, list_sum. induction counts0 as [| c counts0 IH]; intros [| k] Hk;
    cbn [length] in Hk; try lia.
  - reflexivity.
  - change (alter S (S k) (c :: counts0)) with (c :: alter S k counts0).
    cbn [fold_right]. rewrite IH by lia. lia.
Qed.

(** A value that falls into some bin adds one to the total. *)
Lemma list_sum_countValues (binEdges : list number) (numBins : number) (ks : list nat)
    (finite : list number) : forall counts0,
  (forall v, In v finite ->
     exists k, find (inBin binEdges numBins v) ks = Some k /\ (k < length counts0)%nat) ->
  list_sum (countValues binEdges numBins ks finite counts0)
  = (list_sum counts0 + length finite)%nat.
Proof.
  unfold countValues. induction finite as [| v finite IH]; intros counts0 Hall.
  - cbn [fold_left length]. lia.
  - cbn [fold_left length].
    destruct (Hall v (or_introl eq_refl)) as (k & -> & Hk).
    rewrite IH.
    + rewrite list_sum_increment by exact Hk. lia.
    + intros v' Hv'. destruct (Hall v' (or_intror Hv')) as (k' & Hfind & Hk').
      exists k'. split; [exact Hfind |]. unfold increment. now rewrite length_alter.
Qed.

(** The bin count the fixed-width branch computes from [len] edges. *)
Lemma numBins_fixed (len : nat) :
  sub (ofNat len) (Fin 1) = Fin (inject_Z (Z.of_nat len) + - (1)).
Proof. reflexivity. Qed.

Lemma numBins_floor (len : nat) :
  Qfloor (inject_Z (Z.of_nat len) + - (1)) = (Z.of_nat len - 1)%Z.
Proof.
  rewrite <- (Qfloor_Z (Z.of_nat len - 1)). apply Qfloor_comp.
  unfold Z.sub. rewrite inject_Z_plus, inject_Z_opp. reflexivity.
Qed.

Lemma numBins_ceiling (len : nat) :
  Qceiling (inject_Z (Z.of_nat len) + - (1)) = (Z.of_nat len - 1)%Z.
Proof.
  rewrite <- (Qceiling_Z (Z.of_nat len - 1)). apply Qceiling_comp.
  unfold Z.sub. rewrite inject_Z_plus, inject_Z_opp. reflexivity.
Qed.

(** The test of lines 86-88 on finite edges and a finite value. *)
Lemma inBin_value (qs : list Q) (q lo hi : Q) (k : nat) :
  qs !! k = Some lo -> qs !! S k = Some hi ->
  inBin (map Fin qs) (sub (ofNat (length qs)) (Fin 1)) (Fin q) k
  = Qle_bool lo q
    && (if (S (S k) <? length qs)%nat then negb (Qle_bool hi q) else Qle_bool q hi).
Proof.
  intros Hlo Hhi. unfold inBin. rewrite Nat.add_1_r.
  rewrite (at_map qs k lo Hlo), (at_map qs (S k) hi Hhi), numBins_fixed.
  cbn [sub add neg lt ge le ofNat ofZ].
  assert (Hcond : negb (Qle_bool (inject_Z (Z.of_nat (length qs)) + - (1) + - (1))
                                 (inject_Z (Z.of_nat k)))
                  = (S (S k) <? length qs)%nat).
  { destruct (Nat.ltb_spec (S (S k)) (length qs)) as [Hl | Hl].
    - apply negb_true_iff. destruct (Qle_bool _ _) eqn:E; [| reflexivity].
      apply Qle_bool_iff in E. exfalso.
      assert (H : inject_Z (Z.of_nat (length qs)) <= inject_Z (Z.of_nat k + 2)).
      { rewrite inject_Z_plus. change (inject_Z 2) with 2. lra. }
      rewrite <- Zle_Qle in H. lia.
    - apply negb_false_iff. apply Qle_bool_iff.
      assert (H : inject_Z (Z.of_nat (length qs)) <= inject_Z (Z.of_nat k + 2)).
      { rewrite <- Zle_Qle. lia. }
      rewrite inject_Z_plus in H. change (inject_Z 2) with 2 in H. lra. }
  rewrite Hcond. destruct (S (S k) <? length qs)%nat; reflexivity.
Qed.

(** Edges that increase. *)
Definition Increasing (qs : list Q) : Prop :=
  forall k lo hi, qs !! k = Some lo -> qs !! S k = Some hi -> lo < hi.

Lemma increasing_le (qs : list Q) : Increasing qs -> forall d i x y,
  qs !! i = Some x -> qs !! (i + d)%nat = Some y -> x <= y.
Proof.
  intros Hinc. induction d as [| d IH]; intros i x y Hx Hy.
  - rewrite Nat.add_0_r in Hy. assert (x = y) by congruence. subst. lra.
  - rewrite Nat.add_succ_r in Hy.
    destruct (lookup_lt_is_Some_2 qs (i + d)) as [z Hz].
    { apply lookup_lt_Some in Hy. lia. }
    pose proof (IH i x z Hx Hz). pose proof (Hinc _ _ _ Hz Hy). lra.
Qed.

Section Bins.

(** Increasing edges [qs], at least two, and a value between the first and
    the last of them. *)
Variable qs : list Q.
Variable q a b : Q.
Hypothesis Hinc : Increasing qs.
Hypothesis Hlen : (2 <= length qs)%nat.
Hypothesis Hfirst : qs !! 0%nat = Some a.
Hypothesis Hlast : qs !! (length qs - 1)%nat = Some b.
Hypothesis Hge : a <= q.
Hypothesis Hle : q <= b.

Let hit := inBin (map Fin qs) (sub (ofNat (length qs)) (Fin 1)) (Fin q).
Let ks := seq 0 (length qs - 1).

Lemma bins_disjoint (j k : nat) :
  (j < k)%nat -> (k < length qs - 1)%nat -> hit j = true -> hit k = true -> False.
Proof.
  intros Hjk Hk Hj Hk'.
  destruct (lookup_lt_is_Some_2 qs j) as [lo Hlo]; [lia |].
  destruct (lookup_lt_is_Some_2 qs (S j)) as [hi Hhi]; [lia |].
  destruct (lookup_lt_is_Some_2 qs k) as [lo' Hlo']; [lia |].
  destruct (lookup_lt_is_Some_2 qs (S k)) as [hi' Hhi']; [lia |].
  unfold hit in Hj, Hk'.
  rewrite (inBin_value qs q lo hi j Hlo Hhi) in Hj.
  rewrite (inBin_value qs q lo' hi' k Hlo' Hhi') in Hk'.
  apply andb_true_iff in Hj as [_ Hj]. apply andb_true_iff in Hk' as [Hk' _].
  destruct (Nat.ltb_spec (S (S j)) (length qs)) as [_ | ?]; [| lia].
  apply negb_true_iff in Hj. apply Qle_bool_iff in Hk'.
  assert (Hmono : hi <= lo').
  { apply (increasing_le qs Hinc (k - S j) (S j) hi lo' Hhi).
    replace (S j + (k - S j))%nat with k by lia. exact Hlo'. }
  assert (Hq : hi <= q) by lra.
  apply Qle_bool_iff in Hq. congruence.
Qed.

Lemma bins_cover : exists k, find hit ks = Some k /\ (k < length qs - 1)%nat.
Proof.
  destruct (find hit ks) as [k |] eqn:Hfind.
  - exists k. split; [reflexivity |]. apply find_some in Hfind as [Hin _].
    apply in_seq in Hin. lia.
  - exfalso.
    assert (Hmiss : forall k, (k < length qs - 1)%nat -> hit k = false).
    { intros k Hk. apply (find_none _ _ Hfind). apply in_seq. lia. }
    assert (Hclimb : forall j, (j <= length qs - 2)%nat ->
                     exists lo, qs !! j = Some lo /\ lo <= q).
    { induction j as [| j IH]; intros Hj.
      - exists a. split; [exact Hfirst | exact Hge].
      - destruct IH as (lo & Hlo & Hloq); [lia |].
        destruct (lookup_lt_is_Some_2 qs (S j)) as [hi Hhi]; [lia |].
        exists hi. split; [exact Hhi |].
        pose proof (Hmiss j ltac:(lia)) as Hm. unfold hit in Hm.
        rewrite (inBin_value qs q lo hi j Hlo Hhi) in Hm.
        destruct (Nat.ltb_spec (S (S j)) (length qs)) as [_ | ?]; [| lia].
        apply Qle_bool_iff in Hloq. rewrite Hloq in Hm. cbn in Hm.
        apply negb_false_iff in Hm. now apply Qle_bool_iff in Hm. }
    destruct (Hclimb (length qs - 2)%nat) as (lo & Hlo & Hloq); [lia |].
    pose proof (Hmiss (length qs - 2)%nat ltac:(lia)) as Hm. unfold hit in Hm.
    assert (Hhi : qs !! S (length qs - 2) = Some b).
    { replace (S (length qs - 2)) with (length qs - 1)%nat by lia. exact Hlast. }
    rewrite (inBin_value qs q lo b _ Hlo Hhi) in Hm.
    destruct (Nat.ltb_spec (S (S (length qs - 2))) (length qs)) as [? | _]; [lia |].
    apply Qle_bool_iff in Hloq. apply Qle_bool_iff in Hle.
    rewrite Hloq, Hle in Hm. discriminate.
Qed.

Lemma first_hit_is_the_bin (k : nat) :
  (k < length qs - 1)%nat -> (find hit ks = Some k <-> hit k = true).
Proof.
  intros Hk. split.
  - intros Hfind. now apply find_some in Hfind as [_ H].
  - intros Hhit. destruct bins_cover as (j & Hfind & Hj).
    pose proof (find_some _ _ Hfind) as [_ Hhitj].
    destruct (lt_eq_lt_dec j k) as [[Hlt | ->] | Hgt].
    + exfalso. exact (bins_disjoint j k Hlt Hk Hhitj Hhit).
    + exact Hfind.
    + exfalso. exact (bins_disjoint k j Hgt Hj Hhit Hhitj).
Qed.

End Bins.

Lemma list_sum_zeros (n : nat) : list_sum (replicate n 0%nat) = 0%nat.
Proof. induction n as [| n IH]; [reflexivity | exact IH]. Qed.

(** Values by which the statements below count: those in [lo, hi), or in
    [lo, hi] for the last bin. *)
Definition within (lo hi : Q) (lastBin : bool) (v : number) : bool :=
  ge v (Fin lo) && (if lastBin then le v (Fin hi) else lt v (Fin hi)).

Section FixedWidth.

Variable pow : number -> number -> number.
Variable values : list number.
Variable w a b : Q.

Let finite := List.filter isFinite values.

Hypothesis Hmin : minOf finite = Fin a.
Hypothesis Hmax : maxOf finite = Fin b.
Hypothesis Hspan : a < b.
Hypothesis Hw : 0 < w.
Hypothesis Hfits : b - a <= 4294967295 * w.

Lemma finite_in_range (v : number) :
  In v finite -> exists q, v = Fin q /\ a <= q <= b.
Proof.
  intros Hin. destruct (finite_values values v Hin) as [q ->]. exists q.
  split; [reflexivity |].
  assert (Hne : finite <> []) by (intros E; rewrite E in Hin; destruct Hin).
  destruct (minOf_spec finite Hne (finite_values values)) as (a' & Ha & _ & Hlow).
  destruct (maxOf_spec finite Hne (finite_values values)) as (b' & Hb & _ & Hhigh).
  rewrite Hmin in Ha. injection Ha as <-. rewrite Hmax in Hb. injection Hb as <-.
  split; [now apply Hlow | now apply Hhigh].
Qed.

Lemma fixed_width_result :
  exists more,
    Rungs w b a more
    /\ forall fuel, (Z.to_nat (Qceiling ((b - a) / w)) <= fuel)%nat ->
        computeHistogramBins pow fuel values (Some (Fin w))
        = let qs := a :: more ++ [b] in
          Returns (mkResult (map Fin qs)
                     (countValues (map Fin qs) (sub (ofNat (length qs)) (Fin 1))
                                  (seq 0 (length qs - 1)) finite
                                  (replicate (length qs - 1) 0%nat))).
Proof.
  set (fuel0 := Z.to_nat (Qceiling ((b - a) / w))).
  assert (Hfuel0 : b - a <= inject_Z (Z.of_nat fuel0) * w).
  { assert (Hpos : 0 < (b - a) / w).
    { apply Qlt_shift_div_l; [exact Hw | lra]. }
    pose proof (Qle_ceiling ((b - a) / w)) as Hc.
    assert (Hz : (0 <= Qceiling ((b - a) / w))%Z).
    { rewrite Zle_Qle. change (inject_Z 0) with 0. lra. }
    unfold fuel0. rewrite Z2Nat.id by exact Hz.
    assert (Hdiv : b - a == (b - a) / w * w) by (field; lra).
    rewrite Hdiv at 1. apply Qmult_le_compat_r; [exact Hc | lra]. }
  destruct (pushEdges_spec w b Hw fuel0 [] a Hfuel0) as (more & Hpush & Hrungs).
  exists more. split; [exact Hrungs |]. intros fuel Hfuel.
  pose proof (pushEdges_more_fuel _ _ _ _ _ _ Hpush Hfuel) as Hpush'.
  cbn [app map] in Hpush'.
  destruct (rungs_bins w b Hw a more Hrungs Hspan) as [Hcount _].
  assert (E0 : (length finite =? 0)%nat = false).
  { destruct finite; [discriminate Hmin | reflexivity]. }
  unfold computeHistogramBins. fold finite. rewrite E0, Hmin, Hmax.
  cbn [sub add neg le isFinite negb orb].
  assert (E1 : Qle_bool (b + - a) 0 = false).
  { destruct (Qle_bool (b + - a) 0) eqn:E; [| reflexivity].
    apply Qle_bool_iff in E. lra. }
  rewrite E1. cbn [orb andb gt lt].
  assert (E2 : Qle_bool w 0 = false).
  { destruct (Qle_bool w 0) eqn:E; [| reflexivity]. apply Qle_bool_iff in E. lra. }
  rewrite E2. cbn [negb]. unfold fixedWidthEdges. rewrite Hpush'.
  change (Fin a :: map Fin more) with (map Fin (a :: more)).
  change [Fin b] with (map Fin [b]). rewrite <- map_app.
  change ((a :: more) ++ [b]) with (a :: more ++ [b]).
  set (qs := a :: more ++ [b]). cbv zeta. rewrite length_map.
  assert (Hlen : length qs = S (S (length more))).
  { unfold qs. cbn [length]. rewrite length_app. cbn [length]. lia. }
  rewrite numBins_fixed. unfold newCounts, below, isInteger.
  rewrite numBins_floor, numBins_ceiling.
  assert (E3 : Qeq_bool (inject_Z (Z.of_nat (length qs) - 1))
                        (inject_Z (Z.of_nat (length qs)) + - (1)) = true).
  { apply Qeq_bool_iff. unfold Z.sub. rewrite inject_Z_plus, inject_Z_opp. reflexivity. }
  assert (E4 : Qle_bool 0 (inject_Z (Z.of_nat (length qs)) + - (1)) = true).
  { apply Qle_bool_iff. rewrite Hlen.
    rewrite !Nat2Z.inj_succ, <- !Z.add_1_r, !inject_Z_plus. change (inject_Z 1) with 1.
    assert (0 <= inject_Z (Z.of_nat (length more))).
    { change 0 with (inject_Z 0). rewrite <- Zle_Qle. lia. }
    lra. }
  assert (E5 : Qle_bool (inject_Z (Z.of_nat (length qs)) + - (1)) 4294967295 = true).
  { apply Qle_bool_iff. rewrite Hlen.
    assert (Hm : inject_Z (Z.of_nat (length more)) < 4294967295).
    { apply Qnot_le_lt. intros Hbig.
      assert (4294967295 * w <= inject_Z (Z.of_nat (length more)) * w).
      { apply Qmult_le_compat_r; [exact Hbig | lra]. }
      lra. }
    change 4294967295 with (inject_Z 4294967295) in Hm. rewrite <- Zlt_Qlt in Hm.
    assert (Hz : (Z.of_nat (S (S (length more))) - 1 <= 4294967295)%Z) by lia.
    rewrite Zle_Qle in Hz. unfold Z.sub in Hz. rewrite inject_Z_plus, inject_Z_opp in Hz.
    exact Hz. }
  rewrite E3, E4, E5. cbn [andb].
  replace (Z.to_nat (Z.of_nat (length qs) - 1)) with (length qs - 1)%nat by lia.
  reflexivity.
Qed.


End FixedWidth.

(** Five readings and one that is missing, in bins of width 4. *)
Definition readings : list number := [Fin 2; Fin 1; NaN; Fin 10; Fin (5 # 2); Fin 7].


Lemma filter_isFinite_twice (values : list number) :
  List.filter isFinite (List.filter isFinite values) = List.filter isFinite values.
Proof.
  induction values as [| v values IH]; [reflexivity |].
  cbn [List.filter]. destruct (isFinite v) eqn:E; [| exact IH].
  cbn [List.filter]. now rewrite E, IH.
Qed.

(** What is not a finite number is left out before anything is computed;
    with no finite value there are no bins at all, and with finite values
    that are all equal there is one bin, from that value to itself, holding
    all of them, whatever bin width is asked for. *)
Theorem degenerate_input_gives_degenerate_bins
    (pow : number -> number -> number) (fuel : nat) (values : list number)
    (binWidth : option number) :
  let finite := List.filter isFinite values in
  computeHistogramBins pow fuel values binWidth
  = computeHistogramBins pow fuel finite binWidth
  /\ (finite = [] ->
      computeHistogramBins pow fuel values binWidth = Returns (mkResult [] []))
  /\ (forall c,
        finite <> [] -> (forall q, In (Fin q) finite -> q == c) ->
        exists a b,
          a == c /\ b == c
          /\ computeHistogramBins pow fuel values binWidth
             = Returns (mkResult [Fin a; Fin b] [length finite])).
Proof.
  intros finite. split; [| split].
  - unfold computeHistogramBins, finite. rewrite filter_isFinite_twice. reflexivity.
  - intros Hnone. unfold computeHistogramBins. fold finite. now rewrite Hnone.
  - intros c Hne Hsame.
    destruct (minOf_spec finite Hne (finite_values values)) as (a & Ha & Hina & _).
    destruct (maxOf_spec finite Hne (finite_values values)) as (b & Hb & Hinb & _).
    exists a, b. pose proof (Hsame a Hina) as Hac. pose proof (Hsame b Hinb) as Hbc.
    split; [exact Hac |]. split; [exact Hbc |].
    unfold computeHistogramBins. fold finite.
    assert (E0 : (length finite =? 0)%nat = false).
    { destruct finite; [congruence | reflexivity]. }
    rewrite E0, Ha, Hb. cbn [sub add neg le].
    assert (E1 : Qle_bool (b + - a) 0 = true) by (apply Qle_bool_iff; lra).
    rewrite E1. reflexivity.
Qed.

Lemma degenerate_input_gives_degenerate_bins_witness :
  computeHistogramBins (fun _ _ => NaN) 0 [NaN; PosInf] None = Returns (mkResult [] [])
  /\ exists a b,
       a == 3 /\ b == 3
       /\ computeHistogramBins (fun _ _ => NaN) 0 [Fin 3; NaN; Fin (6 # 2)] (Some (Fin 1))
          = Returns (mkResult [Fin a; Fin b] [2%nat]).
Proof.
  split.
  - exact (proj1 (proj2 (degenerate_input_gives_degenerate_bins
                           (fun _ _ => NaN) 0 [NaN; PosInf] None)) eq_refl).
  - apply (proj2 (proj2 (degenerate_input_gives_degenerate_bins
                           (fun _ _ => NaN) 0 [Fin 3; NaN; Fin (6 # 2)] (Some (Fin 1)))) 3).
    + discriminate.
    + intros q [[= <-] | [[= <-] | []]]; reflexivity.
Defined.

(** *** Quartiles *)

Lemma atNumber_integer (qs : list Q) (z : Z) (x : Q) :
  (0 <= z)%Z -> qs !! Z.to_nat z = Some x ->
  atNumber (map Fin qs) (Fin (inject_Z z)) = Fin x.
Proof.
  intros Hz Hx. unfold atNumber, isInteger. rewrite Qfloor_Z.
  assert (E1 : Qeq_bool (inject_Z z) (inject_Z z) = true) by (apply Qeq_bool_iff; reflexivity).
  assert (E2 : Qle_bool 0 (inject_Z z) = true).
  { apply Qle_bool_iff. change 0 with (inject_Z 0). now rewrite <- Zle_Qle. }
  rewrite E1, E2. cbn [andb]. now apply at_map.
Qed.

Lemma quartile_one (sorted : list number) (p : number) :
  length sorted = 1%nat -> quartile sorted p = at_ sorted 0.
Proof. destruct sorted as [| x [| y rest]]; cbn [length]; try lia. reflexivity. Qed.

Lemma quartile_many (sorted : list number) (p : number) :
  (2 <= length sorted)%nat ->
  quartile sorted p
  = let i := mul p (sub (ofNat (length sorted)) (Fin 1)) in
    let lo := floor i in
    let hi := ceil i in
    if strict_eq lo hi then atNumber sorted lo
    else add (atNumber sorted lo)
             (mul (sub i lo) (sub (atNumber sorted hi) (atNumber sorted lo))).
Proof. destruct sorted as [| x [| y rest]]; cbn [length]; try lia. reflexivity. Qed.



End Histogram.

(* ====================================================================== *)
(** * Heatmap colours (mapValueToColor, getColormap)                       *)
(* ====================================================================== *)

Module Heatmap.
Import Stdlib.Strings.Ascii.
Import JS JSArith.

(** [type Rgba = readonly [r, g, b, a]] *)
Definition Rgba : Type := (number * number * number * number)%type.

Definition rgba (r g b a : Q) : Rgba := (Fin r, Fin g, Fin b, Fin a).

(** [clamp01(v)] (line 187) *)
Definition clamp01 (v : number) : number := min (Fin 1) (max (Fin 0) v).

(** The three built-in colormaps (lines 224-261). *)
Definition VIRIDIS_COLORS : list Rgba :=
  [ rgba (267 # 1000) (5 # 1000) (329 # 1000) 1;
    rgba (283 # 1000) (141 # 1000) (458 # 1000) 1;
    rgba (254 # 1000) (265 # 1000) (530 # 1000) 1;
    rgba (207 # 1000) (372 # 1000) (553 # 1000) 1;
    rgba (164 # 1000) (471 # 1000) (558 # 1000) 1;
    rgba (128 # 1000) (566 # 1000) (551 # 1000) 1;
    rgba (135 # 1000) (659 # 1000) (518 # 1000) 1;
    rgba (267 # 1000) (749 # 1000) (441 # 1000) 1;
    rgba (478 # 1000) (821 # 1000) (318 # 1000) 1;
    rgba (741 # 1000) (873 # 1000) (150 # 1000) 1 ].

Definition PLASMA_COLORS : list Rgba :=
  [ rgba (50 # 1000) (30 # 1000) (529 # 1000) 1;
    rgba (347 # 1000) (47 # 1000) (647 # 1000) 1;
    rgba (533 # 1000) (88 # 1000) (642 # 1000) 1;
    rgba (682 # 1000) (135 # 1000) (599 # 1000) 1;
    rgba (802 # 1000) (193 # 1000) (524 # 1000) 1;
    rgba (891 # 1000) (267 # 1000) (417 # 1000) 1;
    rgba (956 # 1000) (361 # 1000) (292 # 1000) 1;
    rgba (992 # 1000) (481 # 1000) (164 # 1000) 1;
    rgba (987 # 1000) (625 # 1000) (73 # 1000) 1;
    rgba (940 # 1000) (788 # 1000) (148 # 1000) 1 ].

Definition INFERNO_COLORS : list Rgba :=
  [ rgba (1 # 1000) (1 # 1000) (14 # 1000) 1;
    rgba (86 # 1000) (25 # 1000) (200 # 1000) 1;
    rgba (199 # 1000) (23 # 1000) (380 # 1000) 1;
    rgba (332 # 1000) (25 # 1000) (483 # 1000) 1;
    rgba (478 # 1000) (26 # 1000) (535 # 1000) 1;
    rgba (622 # 1000) (62 # 1000) (509 # 1000) 1;
    rgba (755 # 1000) (138 # 1000) (438 # 1000) 1;
    rgba (865 # 1000) (250 # 1000) (332 # 1000) 1;
    rgba (944 # 1000) (408 # 1000) (216 # 1000) 1;
    rgba (988 # 1000) (645 # 1000) (198 # 1000) 1 ].

(** The value of a character that [[0-9a-f]] matches under the [i] flag. *)
Definition hexDigit (c : Ascii.ascii) : option Z :=
  let n := Z.of_N (Ascii.N_of_ascii c) in
  if (48 <=? n)%Z && (n <=? 57)%Z then Some (n - 48)%Z
  else if (97 <=? n)%Z && (n <=? 102)%Z then Some (n - 87)%Z
  else if (65 <=? n)%Z && (n <=? 70)%Z then Some (n - 55)%Z
  else None.

(** [parseInt(pair, 16) / 255] for a pair of hexadecimal digits. *)
Definition channel (hi lo : Z) : number := Fin (inject_Z (16 * hi + lo) / 255).

(** [parseColorToRgba(color)] (lines 276-287): [None] is [null]. *)
Definition parseColorToRgba (color : string) : option Rgba :=
  match color with
  | String "#"%char (String r1 (String r0 (String g1 (String g0 (String b1 (String b0 EmptyString)))))) =>
      match hexDigit r1, hexDigit r0, hexDigit g1, hexDigit g0, hexDigit b1, hexDigit b0 with
      | Some r1, Some r0, Some g1, Some g0, Some b1, Some b0 =>
          Some (channel r1 r0, channel g1 g0, channel b1 b0, Fin 1)
      | _, _, _, _, _, _ => None
      end
  | _ => None
  end.

(** The argument of [getColormap]: left out, a name, or a list of colours. *)
Inductive ColormapName : Type :=
| Absent
| Named (name : string)
| Colors (colors : list string).

(** [getColormap(name)] (lines 263-274) *)
Definition getColormap (name : ColormapName) : list Rgba :=
  match name with
  | Absent => VIRIDIS_COLORS
  | Named name =>
      if bool_decide (name = "") || bool_decide (name = "viridis") then VIRIDIS_COLORS
      else if bool_decide (name = "plasma") then PLASMA_COLORS
      else if bool_decide (name = "inferno") then INFERNO_COLORS
      else VIRIDIS_COLORS
  | Colors colors =>
      map (fun c => match parseColorToRgba c with
                    | Some parsed => parsed
                    | None => (Fin 0, Fin 0, Fin 0, Fin 1)
                    end) colors
  end.

(** [colormap[i]] for an index that is a [number]: [None] is [undefined]. *)
Definition colorAt (colormap : list Rgba) (i : number) : option Rgba :=
  match i with
  | Fin q => if isInteger i && Qle_bool 0 q then colormap !! Z.to_nat (Qfloor q) else None
  | _ => None
  end.

Inductive TypeError : Type :=
| CannotReadProperties.  (* Cannot read properties of undefined (reading '0') *)

(** Lines 291-302 of [mapValueToColor]: the colour at the fraction [t] of the
    colormap, blended from its two neighbours. *)
Definition blend (t : number) (colormap : list Rgba) : TypeError + Rgba :=
  let idx := mul t (sub (ofNat (length colormap)) (Fin 1)) in
  let i0 := floor idx in
  let i1 := min (add i0 (Fin 1)) (sub (ofNat (length colormap)) (Fin 1)) in
  let f := sub idx i0 in
  match colorAt colormap i0, colorAt colormap i1 with
  | Some (r0, g0, b0, a0), Some (r1, g1, b1, a1) =>
      inr (add r0 (mul f (sub r1 r0)),
           add g0 (mul f (sub g1 g0)),
           add b0 (mul f (sub b1 b0)),
           add a0 (mul f (sub a1 a0)))
  | _, _ => inl CannotReadProperties
  end.

(** [mapValueToColor(value, valueMin, valueMax, colormap)] (lines 289-303) *)
Definition mapValueToColor (value valueMin valueMax : number) (colormap : list Rgba)
  : TypeError + Rgba :=
  let t := if gt valueMax valueMin
           then clamp01 (div (sub value valueMin) (sub valueMax valueMin))
           else Fin (1 # 2) in
  blend t colormap.

(** ** Facts *)

Local Open Scope Q_scope.

(** A colour of finite channels. *)
Definition finite (c : Q * Q * Q * Q) : Rgba :=
  let '(r, g, b, a) := c in rgba r g b a.

(** [c0 + f * (c1 - c0)], channel by channel. *)
Definition mix (f : Q) (c0 c1 : Q * Q * Q * Q) : Q * Q * Q * Q :=
  let '(r0, g0, b0, a0) := c0 in
  let '(r1, g1, b1, a1) := c1 in
  (r0 + f * (r1 + - r0), g0 + f * (g1 + - g0), b0 + f * (b1 + - b0), a0 + f * (a1 + - a0)).

Lemma colorAt_integer (colormap : list Rgba) (q : Q) (z : Z) :
  q == inject_Z z -> (0 <= z)%Z -> colorAt colormap (Fin q) = colormap !! Z.to_nat z.
Proof.
  intros Hq Hz. unfold colorAt, isInteger.
  rewrite (Qfloor_comp _ _ Hq), Qfloor_Z.
  assert (E1 : Qeq_bool (inject_Z z) q = true) by (apply Qeq_bool_iff; now symmetry).
  assert (E2 : Qle_bool 0 q = true).
  { apply Qle_bool_iff. rewrite Hq. change 0 with (inject_Z 0). now rewrite <- Zle_Qle. }
  now rewrite E1, E2.
Qed.

(** [blend] on a colormap of finite colours and a fraction between 0 and 1. *)
Lemma blend_spec (cs : list (Q * Q * Q * Q)) (t : Q) :
  cs <> [] -> 0 <= t <= 1 ->
  let idx := t * (inject_Z (Z.of_nat (length cs)) + - (1)) in
  exists c0 c1,
    cs !! Z.to_nat (Qfloor idx) = Some c0
    /\ cs !! Nat.min (Z.to_nat (Qfloor idx) + 1) (length cs - 1) = Some c1
    /\ blend (Fin t) (map finite cs)
       = inr (finite (mix (idx + - inject_Z (Qfloor idx)) c0 c1)).
Proof.
  intros Hne Ht idx.
  assert (Hn : (1 <= Z.of_nat (length cs))%Z) by (destruct cs; [congruence | cbn [length]; lia]).
  assert (Hn' : 1 <= inject_Z (Z.of_nat (length cs))).
  { change 1 with (inject_Z 1). now rewrite <- Zle_Qle. }
  assert (Hidx : 0 <= idx /\ idx <= inject_Z (Z.of_nat (length cs) - 1)).
  { unfold idx, Z.sub. rewrite inject_Z_plus, inject_Z_opp. change (inject_Z 1) with 1.
    split; nra. }
  assert (Hlo : (0 <= Qfloor idx)%Z).
  { change 0%Z with (Qfloor 0). apply Qfloor_resp_le. tauto. }
  assert (Hhi : (Qfloor idx <= Z.of_nat (length cs) - 1)%Z).
  { rewrite <- (Qfloor_Z (Z.of_nat (length cs) - 1)). apply Qfloor_resp_le. tauto. }
  destruct (lookup_lt_is_Some_2 cs (Z.to_nat (Qfloor idx))) as [c0 Hc0]; [lia |].
  destruct (lookup_lt_is_Some_2 cs (Nat.min (Z.to_nat (Qfloor idx) + 1) (length cs - 1)))
    as [c1 Hc1]; [lia |].
  exists c0, c1. split; [exact Hc0 |]. split; [exact Hc1 |].
  unfold blend. rewrite length_map.
  change (mul (Fin t) (sub (ofNat (length cs)) (Fin 1))) with (Fin idx).
  cbn [floor add].
  rewrite (colorAt_integer _ _ (Qfloor idx)) by (reflexivity || exact Hlo).
  rewrite list_lookup_fmap, Hc0. cbn [fmap option_fmap option_map].
  assert (Hi1 : exists q z,
             min (Fin (inject_Z (Qfloor idx) + 1)) (sub (ofNat (length cs)) (Fin 1)) = Fin q
             /\ q == inject_Z z /\ (0 <= z)%Z
             /\ Z.to_nat z = Nat.min (Z.to_nat (Qfloor idx) + 1) (length cs - 1)).
  { change (sub (ofNat (length cs)) (Fin 1))
      with (Fin (inject_Z (Z.of_nat (length cs)) + - (1))).
    cbn [min le].
    destruct (Qle_bool (inject_Z (Qfloor idx) + 1)
                       (inject_Z (Z.of_nat (length cs)) + - (1))) eqn:E.
    - apply Qle_bool_iff in E.
      exists (inject_Z (Qfloor idx) + 1), (Qfloor idx + 1)%Z.
      split; [reflexivity |]. split; [now rewrite inject_Z_plus |]. split; [lia |].
      assert (Hz : (Qfloor idx + 1 <= Z.of_nat (length cs) - 1)%Z).
      { rewrite Zle_Qle. unfold Z.sub. rewrite !inject_Z_plus, inject_Z_opp. exact E. }
      lia.
    - assert (Hgt : inject_Z (Z.of_nat (length cs)) + - (1) < inject_Z (Qfloor idx) + 1).
      { apply Qnot_le_lt. intros H. apply Qle_bool_iff in H. congruence. }
      exists (inject_Z (Z.of_nat (length cs)) + - (1)), (Z.of_nat (length cs) - 1)%Z.
      split; [reflexivity |].
      split; [unfold Z.sub; now rewrite inject_Z_plus, inject_Z_opp |]. split; [lia |].
      assert (Hz : (Z.of_nat (length cs) - 1 < Qfloor idx + 1)%Z).
      { rewrite Zlt_Qlt. unfold Z.sub. rewrite !inject_Z_plus, inject_Z_opp. exact Hgt. }
      lia. }
  destruct Hi1 as (q & z & -> & Hq & Hz & Hnat).
  rewrite (colorAt_integer _ q z Hq Hz), Hnat, list_lookup_fmap, Hc1.
  cbn [fmap option_fmap option_map].
  destruct c0 as [[[r0 g0] b0] a0]. destruct c1 as [[[r1 g1] b1] a1]. reflexivity.
Qed.

(** The fraction [t] that [mapValueToColor] computes from finite arguments. *)
Lemma fraction_spec (value valueMin valueMax : Q) :
  exists t,
    (if gt (Fin valueMax) (Fin valueMin)
     then clamp01 (div (sub (Fin value) (Fin valueMin)) (sub (Fin valueMax) (Fin valueMin)))
     else Fin (1 # 2)) = Fin t
    /\ 0 <= t <= 1
    /\ (valueMin < valueMax -> value <= valueMin -> t == 0)
    /\ (valueMin < valueMax -> valueMax <= value -> t == 1)
    /\ (valueMax <= valueMin -> t == 1 # 2).
Proof.
  cbn [gt lt sub add neg].
  destruct (Qle_bool valueMax valueMin) eqn:E; cbn [negb].
  - apply Qle_bool_iff in E. exists (1 # 2). split; [reflexivity |].
    split; [split; vm_compute; discriminate |].
    split; [intros; lra |]. split; [intros; lra |]. intros _. reflexivity.
  - assert (Hlt : valueMin < valueMax).
    { apply Qnot_le_lt. intros H. apply Qle_bool_iff in H. congruence. }
    assert (Hnz : Qeq_bool (valueMax + - valueMin) 0 = false).
    { destruct (Qeq_bool (valueMax + - valueMin) 0) eqn:E0; [| reflexivity].
      apply Qeq_bool_iff in E0. lra. }
    unfold div. rewrite Hnz. set (x := (value + - valueMin) / (valueMax + - valueMin)).
    assert (Hx0 : value <= valueMin -> x <= 0).
    { intros H. unfold x. apply Qle_shift_div_r; lra. }
    assert (Hx0' : valueMin <= value -> 0 <= x).
    { intros H. unfold x. apply Qle_shift_div_l; lra. }
    assert (Hx1 : valueMax <= value -> 1 <= x).
    { intros H. unfold x. apply Qle_shift_div_l; lra. }
    assert (Hx1' : value <= valueMax -> x <= 1).
    { intros H. unfold x. apply Qle_shift_div_r; lra. }
    unfold clamp01. cbn [max le].
    destruct (Qle_bool 0 x) eqn:E0; cbn [min le].
    + apply Qle_bool_iff in E0.
      destruct (Qle_bool 1 x) eqn:E1.
      * apply Qle_bool_iff in E1. exists 1. split; [reflexivity |].
        split; [lra |]. split; [| split; [reflexivity | intros; lra]].
        intros _ H. pose proof (Hx0 H). lra.
      * assert (x < 1).
        { apply Qnot_le_lt. intros H. apply Qle_bool_iff in H. congruence. }
        exists x. split; [reflexivity |]. split; [lra |].
        split; [| split; [| intros; lra]].
        -- intros _ H'. pose proof (Hx0 H'). lra.
        -- intros _ H'. pose proof (Hx1 H'). lra.
    + assert (x < 0).
      { apply Qnot_le_lt. intros H. apply Qle_bool_iff in H. congruence. }
      change (Qle_bool 1 0) with false. cbn iota.
      exists 0. split; [reflexivity |]. split; [lra |].
      split; [reflexivity |]. split; [| intros; lra].
      intros _ H'. pose proof (Hx1 H'). lra.
Qed.

(** Channels between 0 and 1, opaque. *)
Definition validColour (c : Q * Q * Q * Q) : Prop :=
  let '(r, g, b, a) := c in
  0 <= r <= 1 /\ 0 <= g <= 1 /\ 0 <= b <= 1 /\ a == 1.

Lemma hexDigit_range (c : ascii) (d : Z) : hexDigit c = Some d -> (0 <= d <= 15)%Z.
Proof.
  unfold hexDigit. set (n := Z.of_N (N_of_ascii c)).
  destruct ((48 <=? n)%Z && (n <=? 57)%Z) eqn:E1.
  { intros [= <-]. apply andb_true_iff in E1 as [H1 H2]. lia. }
  destruct ((97 <=? n)%Z && (n <=? 102)%Z) eqn:E2.
  { intros [= <-]. apply andb_true_iff in E2 as [H1 H2]. lia. }
  destruct ((65 <=? n)%Z && (n <=? 70)%Z) eqn:E3; [| discriminate].
  intros [= <-]. apply andb_true_iff in E3 as [H1 H2]. lia.
Qed.

Lemma channel_range (hi lo : Z) :
  (0 <= hi <= 15)%Z -> (0 <= lo <= 15)%Z ->
  0 <= inject_Z (16 * hi + lo) / 255 <= 1.
Proof.
  intros Hhi Hlo.
  assert (H0 : 0 <= inject_Z (16 * hi + lo)).
  { change 0 with (inject_Z 0). rewrite <- Zle_Qle. lia. }
  assert (H1 : inject_Z (16 * hi + lo) <= 255).
  { change 255 with (inject_Z 255). rewrite <- Zle_Qle. lia. }
  split; [apply Qle_shift_div_l; lra | apply Qle_shift_div_r; lra].
Qed.

Lemma parseColorToRgba_valid (color : string) (parsed : Rgba) :
  parseColorToRgba color = Some parsed ->
  exists c, parsed = finite c /\ validColour c.
Proof.
  unfold parseColorToRgba.
  destruct color as [| c0 [| r1 [| r0 [| g1 [| g0 [| b1 [| b0 [| ? ?]]]]]]]];
    try discriminate; try (destruct c0 as [[] [] [] [] [] [] [] []]; discriminate).
  destruct c0 as [[] [] [] [] [] [] [] []]; try discriminate.
  destruct (hexDigit r1) as [x1 |] eqn:E1; [| discriminate].
  destruct (hexDigit r0) as [x0 |] eqn:E2; [| discriminate].
  destruct (hexDigit g1) as [y1 |] eqn:E3; [| discriminate].
  destruct (hexDigit g0) as [y0 |] eqn:E4; [| discriminate].
  destruct (hexDigit b1) as [z1 |] eqn:E5; [| discriminate].
  destruct (hexDigit b0) as [z0 |] eqn:E6; [| discriminate].
  intros [= <-].
  exists (inject_Z (16 * x1 + x0) / 255, inject_Z (16 * y1 + y0) / 255,
          inject_Z (16 * z1 + z0) / 255, 1).
  split; [reflexivity |].
  repeat split; try apply channel_range; eauto using hexDigit_range; reflexivity.
Qed.

Ltac preset :=
  repeat (apply List.Forall_cons;
          [eexists (_, _, _, _); split;
           [reflexivity | repeat split; vm_compute; discriminate] |]);
  apply List.Forall_nil.

(** Every colour [getColormap] returns has channels between 0 and 1 and is
    opaque. *)
Lemma getColormap_valid (name : ColormapName) :
  Forall (fun colour => exists c, colour = finite c /\ validColour c) (getColormap name).
Proof.
  assert (Hv : Forall (fun colour => exists c, colour = finite c /\ validColour c)
                      VIRIDIS_COLORS) by (unfold VIRIDIS_COLORS; preset).
  destruct name as [| name | colors]; cbn [getColormap].
  - exact Hv.
  - destruct (bool_decide (name = "") || bool_decide (name = "viridis")); [exact Hv |].
    destruct (bool_decide (name = "plasma")); [unfold PLASMA_COLORS; preset |].
    destruct (bool_decide (name = "inferno")); [unfold INFERNO_COLORS; preset | exact Hv].
  - induction colors as [| c colors IH]; [constructor |].
    cbn [map]. constructor; [| exact IH].
    destruct (parseColorToRgba c) as [parsed |] eqn:E.
    + now apply (parseColorToRgba_valid c).
    + exists (0, 0, 0, 1). split; [reflexivity |].
      repeat split; vm_compute; discriminate.
Qed.

Lemma finite_colormap (colormap : list Rgba) :
  Forall (fun colour => exists c, colour = finite c /\ validColour c) colormap ->
  exists cs, colormap = map finite cs /\ Forall validColour cs.
Proof.
  induction 1 as [| colour colormap (c & -> & Hc) _ (cs & -> & Hcs)].
  - exists []. split; [reflexivity | constructor].
  - exists (c :: cs). split; [reflexivity | now constructor].
Qed.

Lemma mix_valid (f : Q) (c0 c1 : Q * Q * Q * Q) :
  0 <= f <= 1 -> validColour c0 -> validColour c1 -> validColour (mix f c0 c1).
Proof.
  destruct c0 as [[[r0 g0] b0] a0]. destruct c1 as [[[r1 g1] b1] a1].
  unfold validColour, mix. intros Hf (Hr0 & Hg0 & Hb0 & Ha0) (Hr1 & Hg1 & Hb1 & Ha1).
  repeat split; first [nra | rewrite Ha0, Ha1; ring].
Qed.

Lemma fraction_of_floor (idx : Q) : 0 <= idx + - inject_Z (Qfloor idx) <= 1.
Proof.
  pose proof (Qfloor_le idx). pose proof (Qlt_floor idx) as Hlt.
  rewrite inject_Z_plus in Hlt. change (inject_Z 1) with 1 in Hlt. lra.
Qed.



(** Equal channel by channel. *)
Definition sameColour (c c' : Q * Q * Q * Q) : Prop :=
  let '(r, g, b, a) := c in
  let '(r', g', b', a') := c' in
  r == r' /\ g == g' /\ b == b' /\ a == a'.

Lemma mix_0 (f : Q) (c0 c1 : Q * Q * Q * Q) : f == 0 -> sameColour (mix f c0 c1) c0.
Proof.
  destruct c0 as [[[r0 g0] b0] a0]. destruct c1 as [[[r1 g1] b1] a1].
  unfold sameColour, mix. intros Hf. repeat split; nra.
Qed.


(** A scale from blue over white to red for temperatures between -10 and 30. *)
Definition blueWhiteRed : list (Q * Q * Q * Q) := [(0, 0, 1, 1); (1, 1, 1, 1); (1, 0, 0, 1)].


End Heatmap.

(* ====================================================================== *)
(** * Option resolution (resolveOptions) and the legend's colours          *)
(* ====================================================================== *)

Module Options.
Import Stdlib.Strings.Ascii.
Import JS.

(** ** Strings

    A string is a sequence of code units below 256. *)

(** The white space and line terminators of [String.prototype.trim] below 256:
    tab, line feed, vertical tab, form feed, carriage return, space and
    no-break space. *)
Definition isWhiteSpace (c : ascii) : bool :=
  let n := N_of_ascii c in
  ((9 <=? n) && (n <=? 13) || (n =? 32) || (n =? 160))%N.

Fixpoint trimStart (s : string) : string :=
  match s with
  | EmptyString => EmptyString
  | String c rest => if isWhiteSpace c then trimStart rest else s
  end.

Fixpoint trimEnd (s : string) : string :=
  match s with
  | EmptyString => EmptyString
  | String c rest =>
      match trimEnd rest with
      | EmptyString => if isWhiteSpace c then EmptyString else String c EmptyString
      | kept => String c kept
      end
  end.

(** [s.trim()] *)
Definition trim (s : string) : string := trimEnd (trimStart s).

(** [s.toLowerCase()], code unit by code unit: A-Z and the capital letters
    from U+00C0 to U+00DE (the multiplication sign U+00D7 is not one). *)
Definition lowerCase (c : ascii) : ascii :=
  let n := N_of_ascii c in
  if ((65 <=? n) && (n <=? 90) || (192 <=? n) && (n <=? 222) && negb (n =? 215))%N
  then ascii_of_N (n + 32)
  else c.

Fixpoint toLowerCase (s : string) : string :=
  match s with
  | EmptyString => EmptyString
  | String c rest => String (lowerCase c) (toLowerCase rest)
  end.

(** ** Values of unknown type

    What the code receives as [unknown] and inspects with [typeof],
    [Array.isArray] and comparisons with [null]. *)
Local Unset Elimination Schemes.
Inductive value : Type :=
| Undefined
| Null
| Boolean (b : bool)
| Num (n : number)
| Str (s : string)
| Arr (items : list value)
| Obj (fields : gmap string value)
| Fn.                         (* a function: [typeof] is neither 'object' nor 'string' *)
Local Set Elimination Schemes.

(** An object as the code spreads and copies it. *)
Abbreviation object := (gmap string value).

(** [o[key]] on an object *)
Definition get (o : object) (key : string) : value := default Undefined (o !! key).

(** [v?.[key]] for the keys used here (none is an index or 'length'). *)
Definition getOptional (v : value) (key : string) : value :=
  match v with
  | Obj fields => get fields key
  | _ => Undefined
  end.

(** [v ?? d] *)
Definition orElse (v d : value) : value :=
  match v with
  | Undefined | Null => d
  | _ => v
  end.

(** Whether [v] counts as true in a condition. *)
Definition truthy (v : value) : bool :=
  match v with
  | Undefined | Null => false
  | Boolean b => b
  | Num NaN => false
  | Num (Fin q) => negb (Qeq_bool q 0)
  | Num _ => true
  | Str s => negb (bool_decide (s = ""))
  | Arr _ | Obj _ | Fn => true
  end.

(** [v === s] for a string [s] *)
Definition isString (v : value) (s : string) : bool :=
  match v with
  | Str s' => bool_decide (s' = s)
  | _ => false
  end.

(** ** The source *)

(** [ThemeConfig] *)
Record ThemeConfig : Type := mkTheme {
  backgroundColor : string;
  textColor : string;
  axisLineColor : string;
  axisTickColor : string;
  gridLineColor : string;
  colorPalette : list string;
  fontFamily : string;
  fontSize : number
}.

(** [GridConfig], every field optional, and the resolved grid. *)
Record GridConfig : Type := mkGridConfig {
  left : option number;
  right : option number;
  top : option number;
  bottom : option number
}.

Record ResolvedGridConfig : Type := mkGrid {
  gridLeft : number;
  gridRight : number;
  gridTop : number;
  gridBottom : number
}.

(** [ChartGPUOptions], as far as [resolveOptions] reads it.  Axes and series
    are objects, since the code copies them with spreads. *)
Record ChartGPUOptions : Type := mkOptions {
  grid : option GridConfig;
  xAxis : option object;
  yAxis : option object;
  theme : value;
  palette : value;
  series : option (list object)
}.

Record ResolvedChartGPUOptions : Type := mkResolved {
  resolvedGrid : ResolvedGridConfig;
  resolvedXAxis : object;
  resolvedYAxis : object;
  resolvedTheme : ThemeConfig;
  resolvedPalette : list string;
  resolvedSeries : list object
}.

(** [sanitizePalette(palette)] (lines 198-204) *)
Definition sanitizePalette (palette : value) : list string :=
  match palette with
  | Arr items =>
      List.filter (fun c => negb (bool_decide (c = "")))
        (map trim
           (omap (fun c => match c with Str s => Some s | _ => None end) items))
  | _ => []
  end.

(** [normalizeOptionalColor(color)] (lines 244-248); [None] is [undefined]. *)
Definition normalizeOptionalColor (color : value) : option string :=
  match color with
  | Str s => let trimmed := trim s in
             if bool_decide (trimmed = "") then None else Some trimmed
  | _ => None
  end.

(** A list of strings as the array it is. *)
Definition strings (l : list string) : value := Arr (map Str l).

Section WithDefaults.

(** [getTheme('dark')] and [getTheme('light')] *)
Variable darkTheme lightTheme : ThemeConfig.
(** [defaultOptions.grid], [defaultOptions.xAxis], [defaultOptions.yAxis],
    [defaultOptions.palette] *)
Variable defaultGrid : ResolvedGridConfig.
Variable defaultXAxis defaultYAxis : object.
Variable defaultOptionsPalette : option (list string).
(** [defaultPalette] *)
Variable defaultPalette : list string.
(** [defaultLineStyle.width], [defaultLineStyle.opacity], [defaultAreaStyle.opacity] *)
Variable defaultLineWidth defaultLineOpacity defaultAreaOpacity : number.

(** [resolveTheme(themeInput)] (lines 206-242) *)
Definition resolveTheme (themeInput : value) : ThemeConfig :=
  let base := darkTheme in
  match themeInput with
  | Str s =>
      let name := toLowerCase (trim s) in
      if bool_decide (name = "light") then lightTheme else darkTheme
  | Obj input =>
      let takeString (key : string) : option string :=
        match get input key with
        | Str v => let trimmed := trim v in
                   if bool_decide (trimmed = "") then None else Some trimmed
        | _ => None
        end in
      let fontSize' :=
        match get input "fontSize" with
        | Num n => if isFinite n then Some n else None
        | _ => None
        end in
      let colorPaletteCandidate := sanitizePalette (get input "colorPalette") in
      mkTheme
        (default (backgroundColor base) (takeString "backgroundColor"))
        (default (textColor base) (takeString "textColor"))
        (default (axisLineColor base) (takeString "axisLineColor"))
        (default (axisTickColor base) (takeString "axisTickColor"))
        (default (gridLineColor base) (takeString "gridLineColor"))
        (if (0 <? length colorPaletteCandidate)%nat then colorPaletteCandidate
         else colorPalette base)
        (default (fontFamily base) (takeString "fontFamily"))
        (default (fontSize base) fontSize')
  | _ => base
  end.

(** The palette the series colours are taken from (lines 253-263). *)
Definition paletteOf (userOptions : ChartGPUOptions) (theme : ThemeConfig)
  : list string * list string :=
  let paletteCandidate := sanitizePalette (palette userOptions) in
  let palette :=
    if (0 <? length paletteCandidate)%nat then paletteCandidate
    else if (0 <? length (sanitizePalette (strings (colorPalette theme))))%nat
         then sanitizePalette (strings (colorPalette theme))
         else default defaultPalette defaultOptionsPalette in
  let safePalette := if (0 <? length palette)%nat then palette else defaultPalette in
  let paletteForIndexing :=
    if (0 <? length safePalette)%nat then safePalette else ["#000000"] in
  (safePalette, paletteForIndexing).

(** An axis (lines 272-290). *)
Definition resolveAxis (axis : option object) (defaultAxis : object) : object :=
  match axis with
  | Some axis =>
      <["type" := orElse (get axis "type") (get defaultAxis "type")]> (axis ∪ defaultAxis)
  | None => defaultAxis
  end.

(** One series (the callback of lines 292-327). *)
Definition resolveSeries (paletteForIndexing : list string) (s : object) (i : nat) : object :=
  let explicitColor := normalizeOptionalColor (get s "color") in
  let inheritedColor :=
    match paletteForIndexing !! (i mod length paletteForIndexing)%nat with
    | Some c => Str c
    | None => Undefined
    end in
  let color := match explicitColor with Some c => Str c | None => inheritedColor end in
  if isString (get s "type") "area" then
    let areaStyle : object :=
      {[ "opacity" := orElse (getOptional (get s "areaStyle") "opacity")
                             (Num defaultAreaOpacity) ]} in
    <["areaStyle" := Obj areaStyle]> (<["color" := color]> s)
  else
    let lineStyle : object :=
      <["opacity" := orElse (getOptional (get s "lineStyle") "opacity")
                            (Num defaultLineOpacity)]>
        {[ "width" := orElse (getOptional (get s "lineStyle") "width")
                             (Num defaultLineWidth) ]} in
    let rest := delete "areaStyle" s in
    let resolved := <["lineStyle" := Obj lineStyle]> (<["color" := color]> rest) in
    if truthy (get s "areaStyle") then
      <["areaStyle" := Obj ({[ "opacity" := orElse (getOptional (get s "areaStyle") "opacity")
                                                   (Num defaultAreaOpacity) ]} : object)]>
        resolved
    else resolved.

(** [resolveOptions(userOptions)] (lines 250-337) *)
Definition resolveOptions (userOptions : ChartGPUOptions) : ResolvedChartGPUOptions :=
  let theme := resolveTheme (theme userOptions) in
  let '(safePalette, paletteForIndexing) := paletteOf userOptions theme in
  let side (pick : GridConfig -> option number) (d : number) : number :=
    match grid userOptions with
    | Some g => default d (pick g)
    | None => d
    end in
  let grid := mkGrid (side left (gridLeft defaultGrid)) (side right (gridRight defaultGrid))
                     (side top (gridTop defaultGrid)) (side bottom (gridBottom defaultGrid)) in
  let series := imap (fun i s => resolveSeries paletteForIndexing s i)
                     (default [] (series userOptions)) in
  mkResolved grid (resolveAxis (xAxis userOptions) defaultXAxis)
             (resolveAxis (yAxis userOptions) defaultYAxis)
             theme safePalette series.

End WithDefaults.

(** ** The legend (getSeriesName and getSeriesColor of createLegend) *)

Inductive TypeError : Type :=
| NotAFunction.   (* series.color.trim is not a function *)

(** [series.color?.trim()] and [series.name?.trim()] *)
Definition trimOptional (v : value) : TypeError + value :=
  match v with
  | Undefined | Null => inr Undefined
  | Str s => inr (Str (trim s))
  | _ => inl NotAFunction
  end.

(** [getSeriesColor(series, index, theme)] *)
Definition getSeriesColor (series : object) (index : nat) (theme : ThemeConfig)
  : TypeError + string :=
  match trimOptional (get series "color") with
  | inl e => inl e
  | inr explicit =>
      let fromPalette :=
        let palette := colorPalette theme in
        if (0 <? length palette)%nat
        then default "#000000" (palette !! (index mod length palette)%nat)
        else "#000000" in
      match explicit with
      | Str c => if truthy explicit then inr c else inr fromPalette
      | _ => inr fromPalette
      end
  end.

(** ** Facts *)

Lemma trimEnd_twice (s : string) : trimEnd (trimEnd s) = trimEnd s.
Proof.
  induction s as [| c rest IH]; [reflexivity |].
  cbn [trimEnd]. destruct (trimEnd rest) as [| k kept] eqn:E.
  - destruct (isWhiteSpace c) eqn:Ews; [reflexivity |].
    cbn [trimEnd]. now rewrite Ews.
  - cbn [trimEnd]. cbn [trimEnd] in IH. rewrite IH. reflexivity.
Qed.

(** A string that does not begin with white space. *)
Definition headed (s : string) : Prop :=
  match s with
  | EmptyString => True
  | String c _ => isWhiteSpace c = false
  end.

Lemma headed_trimStart (s : string) : headed (trimStart s).
Proof.
  induction s as [| c rest IH]; [exact I |].
  cbn [trimStart]. destruct (isWhiteSpace c) eqn:E; [exact IH | exact E].
Qed.

Lemma trimStart_headed (s : string) : headed s -> trimStart s = s.
Proof. destruct s as [| c rest]; [reflexivity |]. cbn. now intros ->. Qed.

Lemma headed_trimEnd (s : string) : headed s -> headed (trimEnd s).
Proof.
  destruct s as [| c rest]; [exact id |]. cbn [headed trimEnd]. intros Hc.
  destruct (trimEnd rest); [now rewrite Hc | exact Hc].
Qed.

(** Trimming what is trimmed changes nothing. *)
Lemma trim_twice (s : string) : trim (trim s) = trim s.
Proof.
  unfold trim.
  rewrite (trimStart_headed (trimEnd (trimStart s)))
    by apply headed_trimEnd, headed_trimStart.
  apply trimEnd_twice.
Qed.

(** The entries of a palette that are fit for use: not blank, and with no
    white space around them. *)
Definition clean (c : string) : Prop := c <> "" /\ trim c = c.

Lemma sanitize_strings (l : list string) :
  sanitizePalette (strings l)
  = List.filter (fun c => negb (bool_decide (c = ""))) (map trim l).
Proof.
  unfold sanitizePalette, strings. do 2 f_equal.
  induction l as [| c l IH]; [reflexivity |]. cbn. now rewrite IH.
Qed.

Lemma sanitize_clean (l : list string) :
  Forall clean l -> sanitizePalette (strings l) = l.
Proof.
  rewrite sanitize_strings. induction 1 as [| c l [Hne Htrim] _ IH]; [reflexivity |].
  cbn [map List.filter]. rewrite Htrim, bool_decide_eq_false_2 by exact Hne.
  cbn [negb]. now rewrite IH.
Qed.

Lemma sanitizePalette_clean (palette : value) : Forall clean (sanitizePalette palette).
Proof.
  destruct palette as [| | | | | items | |]; try constructor.
  unfold sanitizePalette.
  induction (omap (fun c => match c with Str s => Some s | _ => None end) items)
    as [| c l IH]; [constructor |].
  cbn [map List.filter]. destruct (bool_decide (trim c = "")) eqn:E; cbn [negb]; [exact IH |].
  constructor; [| exact IH]. split; [| apply trim_twice].
  intros Hc. rewrite Hc in E. discriminate.
Qed.

(** [sanitizePalette] keeps only what is fit for use, and what is fit for use
    it keeps as it is: every entry of its result is a string that is not
    blank and has no white space around it, and sanitising the result again
    returns it unchanged. *)
Theorem sanitizePalette_is_idempotent (palette : value) :
  Forall clean (sanitizePalette palette)
  /\ sanitizePalette (strings (sanitizePalette palette)) = sanitizePalette palette.
Proof.
  split; [apply sanitizePalette_clean |].
  apply sanitize_clean, sanitizePalette_clean.
Qed.

Section ResolvedColours.

Variable darkTheme lightTheme : ThemeConfig.
Variable defaultGrid : ResolvedGridConfig.
Variable defaultXAxis defaultYAxis : object.
Variable defaultOptionsPalette : option (list string).
Variable defaultPalette : list string.
Variable defaultLineWidth defaultLineOpacity defaultAreaOpacity : number.

Local Abbreviation resolve :=
  (resolveOptions darkTheme lightTheme defaultGrid defaultXAxis defaultYAxis
                  defaultOptionsPalette defaultPalette
                  defaultLineWidth defaultLineOpacity defaultAreaOpacity).
Local Abbreviation resolveOne :=
  (resolveSeries defaultLineWidth defaultLineOpacity defaultAreaOpacity).
Local Abbreviation palettes := (paletteOf defaultOptionsPalette defaultPalette).

(** The palette that is indexed is never empty. *)
Lemma paletteForIndexing_nonempty (userOptions : ChartGPUOptions) (theme : ThemeConfig) :
  (0 < length (snd (palettes userOptions theme)))%nat.
Proof.
  unfold paletteOf. cbn [snd].
  match goal with
  | |- context [if (0 <? length ?safe)%nat then ?safe else ["#000000"]] =>
      destruct (Nat.ltb_spec 0 (length safe)); [assumption | cbn; lia]
  end.
Qed.

(** Where the palette comes from: the user's palette if it has a usable
    entry, else the theme's. *)
Lemma paletteForIndexing_source (userOptions : ChartGPUOptions) (theme : ThemeConfig) :
  (sanitizePalette (palette userOptions) <> [] ->
   snd (palettes userOptions theme) = sanitizePalette (palette userOptions))
  /\ (sanitizePalette (palette userOptions) = [] ->
      sanitizePalette (strings (colorPalette theme)) <> [] ->
      snd (palettes userOptions theme) = sanitizePalette (strings (colorPalette theme))).
Proof.
  unfold paletteOf. cbn [snd]. split.
  - intros Hne. destruct (sanitizePalette (palette userOptions)) as [| c l]; [congruence |].
    reflexivity.
  - intros -> Hne. cbn [length Nat.ltb Nat.leb].
    destruct (sanitizePalette (strings (colorPalette theme))) as [| c l]; [congruence |].
    reflexivity.
Qed.

Lemma resolveSeries_color (paletteForIndexing : list string) (s : object) (i : nat) :
  resolveOne paletteForIndexing s i !! "color"
  = Some (match normalizeOptionalColor (get s "color") with
          | Some c => Str c
          | None =>
              match paletteForIndexing !! (i mod length paletteForIndexing)%nat with
              | Some c => Str c
              | None => Undefined
              end
          end).
Proof.
  unfold resolveSeries. cbv zeta. destruct (isString (get s "type") "area").
  - rewrite lookup_insert_ne by discriminate. now rewrite lookup_insert_eq.
  - destruct (truthy (get s "areaStyle")).
    + rewrite lookup_insert_ne by discriminate. rewrite lookup_insert_ne by discriminate.
      now rewrite lookup_insert_eq.
    + rewrite lookup_insert_ne by discriminate. now rewrite lookup_insert_eq.
Qed.

Lemma resolveSeries_other (paletteForIndexing : list string) (s : object) (i : nat)
    (key : string) :
  key <> "color" -> key <> "lineStyle" -> key <> "areaStyle" ->
  resolveOne paletteForIndexing s i !! key = s !! key.
Proof.
  intros H1 H2 H3. unfold resolveSeries. cbv zeta.
  destruct (isString (get s "type") "area").
  - rewrite lookup_insert_ne by congruence. now rewrite lookup_insert_ne by congruence.
  - destruct (truthy (get s "areaStyle")).
    + rewrite !lookup_insert_ne by congruence. now rewrite lookup_delete_ne by congruence.
    + rewrite !lookup_insert_ne by congruence. now rewrite lookup_delete_ne by congruence.
Qed.

Lemma resolved_series (userOptions : ChartGPUOptions) :
  resolvedSeries (resolve userOptions)
  = imap (fun i s => resolveOne
                       (snd (palettes userOptions
                               (resolveTheme darkTheme lightTheme (theme userOptions)))) s i)
         (default [] (series userOptions))
  /\ resolvedTheme (resolve userOptions)
     = resolveTheme darkTheme lightTheme (theme userOptions).
Proof.
  unfold resolveOptions.
  destruct (paletteOf _ _ userOptions _) as [safe indexing]. split; reflexivity.
Qed.

(** Every series comes out of [resolveOptions] with a colour that is a string,
    whatever the palettes and the defaults are (the palette that is indexed is
    never empty): its own colour, trimmed, if it has one that is a string and
    not blank; otherwise entry [i mod n] of the user's palette, if that has a
    usable entry.  No series is added or lost, and apart from color, lineStyle
    and areaStyle the fields of a series are what they were. *)
Theorem every_series_gets_a_colour
    (userOptions : ChartGPUOptions) (given : list object) (i : nat) (s : object) :
  series userOptions = Some given ->
  given !! i = Some s ->
  length (resolvedSeries (resolve userOptions)) = length given
  /\ exists s' c,
      resolvedSeries (resolve userOptions) !! i = Some s'
      /\ s' !! "color" = Some (Str c)
      /\ (forall own, normalizeOptionalColor (get s "color") = Some own -> c = own)
      /\ (normalizeOptionalColor (get s "color") = None ->
          sanitizePalette (palette userOptions) <> [] ->
          sanitizePalette (palette userOptions)
            !! (i mod length (sanitizePalette (palette userOptions)))%nat = Some c)
      /\ (forall key, key <> "color" -> key <> "lineStyle" -> key <> "areaStyle" ->
                      s' !! key = s !! key).
Proof.
  intros Hgiven Hs. destruct (resolved_series userOptions) as [-> _].
  rewrite Hgiven. change (default [] (Some given)) with given. split; [apply length_imap |].
  set (th := resolveTheme darkTheme lightTheme (theme userOptions)).
  set (indexing := snd (palettes userOptions th)).
  assert (Hlen : (0 < length indexing)%nat) by apply paletteForIndexing_nonempty.
  destruct (lookup_lt_is_Some_2 indexing (i mod length indexing)) as [inherited Hin].
  { apply Nat.mod_upper_bound. lia. }
  pose proof (resolveSeries_color indexing s i) as Hcolor. rewrite Hin in Hcolor.
  exists (resolveOne indexing s i).
  exists (match normalizeOptionalColor (get s "color") with
          | Some c => c
          | None => inherited
          end).
  split; [rewrite list_lookup_imap, Hs; reflexivity |].
  split; [rewrite Hcolor; now destruct (normalizeOptionalColor (get s "color")) |].
  split; [intros own ->; reflexivity |].
  split; [| intros key; apply resolveSeries_other].
  intros -> Hne.
  destruct (paletteForIndexing_source userOptions th) as [Huser _].
  fold indexing in Huser. rewrite <- (Huser Hne). exact Hin.
Qed.

(** The legend shows the colour the chart draws with.  For a series whose
    colour [resolveOptions] took from the series itself, from the user's
    palette or from the theme's palette, [getSeriesColor] on the resolved
    series and the resolved theme returns exactly that colour. *)
Theorem legend_shows_the_resolved_colour
    (userOptions : ChartGPUOptions) (given : list object) (i : nat) (s : object) :
  series userOptions = Some given ->
  given !! i = Some s ->
  normalizeOptionalColor (get s "color") <> None
  \/ sanitizePalette (palette userOptions) <> []
  \/ sanitizePalette (strings (colorPalette (resolvedTheme (resolve userOptions)))) <> [] ->
  exists s' c,
    resolvedSeries (resolve userOptions) !! i = Some s'
    /\ s' !! "color" = Some (Str c)
    /\ getSeriesColor s' i (resolvedTheme (resolve userOptions)) = inr c.
Proof.
  intros Hgiven Hs Hsource. destruct (resolved_series userOptions) as [-> ->].
  rewrite Hgiven. change (default [] (Some given)) with given.
  set (th := resolveTheme darkTheme lightTheme (theme userOptions)) in *.
  set (indexing := snd (palettes userOptions th)).
  assert (Hlen : (0 < length indexing)%nat) by apply paletteForIndexing_nonempty.
  destruct (lookup_lt_is_Some_2 indexing (i mod length indexing)) as [inherited Hin].
  { apply Nat.mod_upper_bound. lia. }
  pose proof (resolveSeries_color indexing s i) as Hcolor. rewrite Hin in Hcolor.
  set (c := match normalizeOptionalColor (get s "color") with
            | Some c => c
            | None => inherited
            end).
  assert (Hc : resolveOne indexing s i !! "color" = Some (Str c)).
  { rewrite Hcolor. unfold c. now destruct (normalizeOptionalColor (get s "color")). }
  assert (Hclean : clean c).
  { unfold c. destruct (normalizeOptionalColor (get s "color")) as [own |] eqn:Eown.
    - unfold normalizeOptionalColor in Eown.
      destruct (get s "color"); try discriminate.
      destruct (bool_decide (trim s0 = "")) eqn:E; [discriminate |].
      injection Eown as <-. split; [| apply trim_twice].
      intros H. rewrite H in E. discriminate.
    - destruct (paletteForIndexing_source userOptions th) as [Huser Htheme].
      fold indexing in Huser, Htheme.
      assert (Hfrom : Forall clean indexing).
      { destruct (sanitizePalette (palette userOptions)) as [| u us] eqn:Eu.
        - destruct Hsource as [H | [H | H]]; [congruence | congruence |].
          rewrite (Htheme eq_refl H). apply sanitizePalette_clean.
        - rewrite Huser by discriminate. rewrite <- Eu. apply sanitizePalette_clean. }
      rewrite Forall_forall in Hfrom. apply Hfrom.
      eapply list_elem_of_lookup_2. exact Hin. }
  exists (resolveOne indexing s i), c.
  split; [rewrite list_lookup_imap, Hs; reflexivity |]. split; [exact Hc |].
  unfold getSeriesColor, get. rewrite Hc.
  change (default Undefined (Some (Str c))) with (Str c). cbn [trimOptional].
  destruct Hclean as [Hne Htrim]. rewrite Htrim. cbn [truthy].
  now rewrite bool_decide_eq_false_2 by exact Hne.
Qed.

End ResolvedColours.

(** Two themes and the defaults, for the examples. *)
Definition demoDark : ThemeConfig :=
  mkTheme "#1a1a2e" "#e0e0e0" "#444" "#444" "#333" ["#00e5ff"; "#ff2d95"] "sans-serif" (Fin 12).
Definition demoLight : ThemeConfig :=
  mkTheme "#ffffff" "#222" "#ccc" "#ccc" "#eee" ["#5470c6"; "#91cc75"] "sans-serif" (Fin 12).
Definition demoAxis : object := {[ "type" := Str "value" ]}.

Definition demoResolve : ChartGPUOptions -> ResolvedChartGPUOptions :=
  resolveOptions demoDark demoLight (mkGrid (Fin 60) (Fin 20) (Fin 40) (Fin 40))
                 demoAxis demoAxis None ["#5470c6"] (Fin 2) (Fin 1) (Fin (1 # 4)).

(** A line with a colour of its own and an area without, and a palette with
    entries that cannot be used. *)
Definition redLine : object := {[ "type" := Str "line"; "color" := Str "  red " ]}.
Definition plainArea : object := {[ "type" := Str "area"; "name" := Str "load" ]}.
Definition demoOptions : ChartGPUOptions :=
  mkOptions None None None (Str "light")
            (Arr [Str " #111 "; Num (Fin 3); Str "  "; Str "#222"])
            (Some [redLine; plainArea]).

Lemma every_series_gets_a_colour_witness :
  sanitizePalette (palette demoOptions) = ["#111"; "#222"]
  /\ length (resolvedSeries (demoResolve demoOptions)) = 2%nat
  /\ exists s' c,
      resolvedSeries (demoResolve demoOptions) !! 1%nat = Some s'
      /\ s' !! "color" = Some (Str c)
      /\ ["#111"; "#222"] !! 1%nat = Some c
      /\ s' !! "name" = Some (Str "load").
Proof.
  split; [reflexivity |].
  destruct (every_series_gets_a_colour demoDark demoLight
              (mkGrid (Fin 60) (Fin 20) (Fin 40) (Fin 40)) demoAxis demoAxis None ["#5470c6"]
              (Fin 2) (Fin 1) (Fin (1 # 4)) demoOptions [redLine; plainArea] 1 plainArea
              eq_refl eq_refl) as (Hlen & s' & c & Hs' & Hc & _ & Hpalette & Hkeys).
  split; [exact Hlen |]. exists s', c.
  split; [exact Hs' |]. split; [exact Hc |].
  split; [apply Hpalette; [reflexivity | discriminate] |].
  rewrite Hkeys by discriminate. reflexivity.
Defined.

Lemma legend_shows_the_resolved_colour_witness :
  exists s' c,
    resolvedSeries (demoResolve demoOptions) !! 0%nat = Some s'
    /\ s' !! "color" = Some (Str c)
    /\ getSeriesColor s' 0 (resolvedTheme (demoResolve demoOptions)) = inr c.
Proof.
  apply (legend_shows_the_resolved_colour demoDark demoLight
           (mkGrid (Fin 60) (Fin 20) (Fin 40) (Fin 40)) demoAxis demoAxis None ["#5470c6"]
           (Fin 2) (Fin 1) (Fin (1 # 4)) demoOptions [redLine; plainArea] 0 redLine
           eq_refl eq_refl).
  left. discriminate.
Defined.

End Options.

(* ====================================================================== *)
(** * Further properties of the render scheduler                        *)
(* ====================================================================== *)

Module RenderSchedulerFacts.
Import RenderScheduler.

(** What a client of the scheduler does to it, and what the host does. *)
Inductive Action : Type :=
| Start (cb : RenderCallback) (now : Q)   (* scheduler.start(cb), performance.now() = now *)
| Stop                                    (* scheduler.stop() *)
| RequestRender                           (* scheduler.requestRender() *)
| Frame (currentTime : Q).                (* the host runs an animation frame *)

(** A [start] that throws leaves the scheduler as it was. *)
Definition act (a : Action) (s : Scheduler) : Scheduler :=
  match a with
  | Start cb now => match start (Some cb) now s with inr s' => s' | inl _ => s end
  | Stop => stop s
  | RequestRender => requestRender s
  | Frame currentTime => frame currentTime s
  end.

Definition actAll (actions : list Action) (s : Scheduler) : Scheduler :=
  fold_left (fun acc a => act a acc) actions s.

(** The frame request the scheduler holds is the only one the host has
    queued, and it holds one exactly while it is running. *)
Definition tidy (s : Scheduler) : Prop :=
  match rafId (fields s) with
  | Some id => isRunning (fields s) = true /\ rafQueue s = [id]
  | None => isRunning (fields s) = false /\ rafQueue s = []
  end.

Lemma filter_only (id : nat) : List.filter (fun j => negb (Nat.eqb j id)) [id] = [].
Proof. cbn. now rewrite Nat.eqb_refl. Qed.

Lemma tidy_stop (s : Scheduler) : tidy s -> tidy (stop s).
Proof.
  unfold tidy, stop. destruct (rafId (fields s)) as [id |]; cbn.
  - intros [_ ->]. now rewrite filter_only.
  - intros [_ ->]. split; reflexivity.
Qed.

Lemma tidy_requestRender (s : Scheduler) : tidy s -> tidy (requestRender s).
Proof. unfold tidy, requestRender. cbn. destruct (rafId (fields s)); exact id. Qed.

Lemma tidy_start (cb : RenderCallback) (now : Q) (s s' : Scheduler) :
  tidy s -> start (Some cb) now s = inr s' -> tidy s'.
Proof.
  unfold tidy, start. destruct (isRunning (fields s)) eqn:Hrun; [discriminate |].
  destruct (rafId (fields s)) as [id |]; intros [Hr Hq]; [congruence |].
  intros [= <-]. cbn. rewrite Hq. split; reflexivity.
Qed.

(** While a callback runs, the scheduler holds no request (the one that
    started this frame has been taken off the queue). *)
Definition midFrame (s : Scheduler) : Prop := rafQueue s = [].

Lemma midFrame_reenter (c : Reentrant) (s : Scheduler) : midFrame s -> midFrame (reenter c s).
Proof.
  unfold midFrame. destruct c; cbn; [| exact id].
  unfold stop. destruct (rafId (fields s)); cbn; intros ->; reflexivity.
Qed.

Lemma midFrame_reenter_all (calls : list Reentrant) : forall s,
  midFrame s -> midFrame (fold_left (fun acc c => reenter c acc) calls s).
Proof.
  induction calls as [| c calls IH]; intros s Hs; [exact Hs |].
  cbn [fold_left]. apply IH. now apply midFrame_reenter.
Qed.

(** Once a callback has called [stop], the scheduler holds no request id. *)
Lemma stopped_reenter (c : Reentrant) (s : Scheduler) :
  (isRunning (fields s) = false -> rafId (fields s) = None) ->
  isRunning (fields (reenter c s)) = false -> rafId (fields (reenter c s)) = None.
Proof.
  destruct c; cbn; [| exact id].
  unfold stop. destruct (rafId (fields s)); reflexivity.
Qed.

Lemma stopped_reenter_all (calls : list Reentrant) : forall s,
  (isRunning (fields s) = false -> rafId (fields s) = None) ->
  let s' := fold_left (fun acc c => reenter c acc) calls s in
  isRunning (fields s') = false -> rafId (fields s') = None.
Proof.
  induction calls as [| c calls IH]; intros s Hs; [exact Hs |].
  cbn [fold_left]. apply IH. now apply stopped_reenter.
Qed.

Lemma frameHandler_running (currentTime : Q) (s : Scheduler) :
  isRunning (fields s) = true ->
  exists s0,
    rafQueue s0 = rafQueue s
    /\ isRunning (fields s0) = true
    /\ lastFrameTime (fields s0) = currentTime
    /\ callback s0 = callback s
    /\ rendered s0 = rendered s ++ [(currentTime - lastFrameTime (fields s))%Q]
    /\ frameHandler currentTime s
       = let calls := match callback s with
                      | Some cb => cb (currentTime - lastFrameTime (fields s))%Q
                      | None => []
                      end in
         let s1 := fold_left (fun acc c => reenter c acc) calls s0 in
         if isRunning (fields s1) then
           mkScheduler (mkFields (Some (nextRafId s1)) (isRunning (fields s1))
                                 (lastFrameTime (fields s1)) (_dirty (fields s1)))
                       (callback s1) (S (nextRafId s1)) (rafQueue s1 ++ [nextRafId s1])
                       (rendered s1)
         else s1.
Proof.
  intros Hrun. unfold frameHandler. rewrite Hrun. cbn [negb].
  eexists. split; [| split; [| split; [| split; [| split; [| reflexivity]]]]].
  - reflexivity.
  - cbn. destruct (_dirty (fields s)); cbn; first [exact Hrun | reflexivity].
  - cbn. destruct (_dirty (fields s)); reflexivity.
  - reflexivity.
  - reflexivity.
Qed.

Lemma tidy_frameHandler (currentTime : Q) (s : Scheduler) :
  isRunning (fields s) = true -> rafQueue s = [] ->
  tidy (frameHandler currentTime s).
Proof.
  intros Hrun Hq.
  destruct (frameHandler_running currentTime s Hrun) as (s0 & Hq0 & Hrun0 & _ & _ & _ & ->).
  rewrite Hq in Hq0. set (calls := match callback s with Some cb => _ | None => _ end).
  pose proof (midFrame_reenter_all calls s0 Hq0) as Hmid.
  pose proof (stopped_reenter_all calls s0) as Hstop.
  cbv zeta in *. unfold midFrame in Hmid.
  destruct (isRunning (fields (fold_left (fun acc c => reenter c acc) calls s0))) eqn:E.
  - unfold tidy. cbn. rewrite Hmid. split; reflexivity.
  - unfold tidy. rewrite Hstop; [split; [exact E | exact Hmid] | | reflexivity].
    congruence.
Qed.

Lemma rendered_frameHandler (currentTime : Q) (s : Scheduler) :
  isRunning (fields s) = true ->
  rendered (frameHandler currentTime s)
  = rendered s ++ [(currentTime - lastFrameTime (fields s))%Q].
Proof.
  intros Hrun.
  destruct (frameHandler_running currentTime s Hrun) as (s0 & _ & _ & _ & _ & Hr & ->).
  set (calls := match callback s with Some cb => _ | None => _ end). cbv zeta.
  destruct (isRunning (fields (fold_left (fun acc c => reenter c acc) calls s0)));
    cbn [rendered]; rewrite rendered_reenter_all; exact Hr.
Qed.

Lemma tidy_frame (currentTime : Q) (s : Scheduler) : tidy s -> tidy (frame currentTime s).
Proof.
  unfold tidy at 1, frame. destruct (rafId (fields s)) as [id |] eqn:Hid; intros [Hrun Hq];
    rewrite Hq; cbn [fold_left].
  - now apply tidy_frameHandler.
  - unfold tidy. cbn. rewrite Hid. split; [exact Hrun | reflexivity].
Qed.

Lemma tidy_act (a : Action) (s : Scheduler) : tidy s -> tidy (act a s).
Proof.
  intros Hs. destruct a as [cb now | | | t]; cbn [act].
  - destruct (start (Some cb) now s) as [e | s'] eqn:E; [exact Hs |].
    now apply (tidy_start cb now s s').
  - now apply tidy_stop.
  - now apply tidy_requestRender.
  - now apply tidy_frame.
Qed.

Lemma tidy_actAll (actions : list Action) : forall s, tidy s -> tidy (actAll actions s).
Proof.
  induction actions as [| a actions IH]; intros s Hs; [exact Hs |].
  cbn [actAll fold_left]. apply IH. now apply tidy_act.
Qed.


(** Frames and dirty marks, the things that happen to a stopped scheduler
    short of starting it again. *)
Definition notStart (a : Action) : bool :=
  match a with Start _ _ => false | _ => true end.

Lemma idle_act (a : Action) (s : Scheduler) :
  notStart a = true ->
  isRunning (fields s) = false -> rafQueue s = [] ->
  isRunning (fields (act a s)) = false /\ rafQueue (act a s) = []
  /\ rendered (act a s) = rendered s.
Proof.
  intros Ha Hrun Hq. destruct a as [cb now | | | t]; [discriminate | | |]; cbn [act].
  - unfold stop. destruct (rafId (fields s)); cbn; rewrite ?Hq; repeat split; reflexivity.
  - cbn. repeat split; assumption.
  - unfold frame. rewrite Hq. cbn. repeat split; first [exact Hrun | reflexivity].
Qed.

Lemma idle_actAll (actions : list Action) : forall s,
  forallb notStart actions = true ->
  isRunning (fields s) = false -> rafQueue s = [] ->
  rendered (actAll actions s) = rendered s.
Proof.
  induction actions as [| a actions IH]; intros s Hall Hrun Hq; [reflexivity |].
  cbn [forallb] in Hall. apply andb_true_iff in Hall as [Ha Hall].
  destruct (idle_act a s Ha Hrun Hq) as (Hrun' & Hq' & Hr).
  cbn [actAll fold_left]. fold (actAll actions (act a s)).
  rewrite (IH _ Hall Hrun' Hq'). exact Hr.
Qed.



Lemma stopped_stays (calls : list Reentrant) : forall s,
  isRunning (fields s) = false ->
  isRunning (fields (fold_left (fun acc c => reenter c acc) calls s)) = false.
Proof.
  induction calls as [| c calls IH]; intros s Hs; [exact Hs |].
  cbn [fold_left]. apply IH. destruct c; cbn; [| exact Hs].
  unfold stop. destruct (rafId (fields s)); reflexivity.
Qed.

Lemma stop_called (calls : list Reentrant) : forall s,
  In CallStop calls ->
  isRunning (fields (fold_left (fun acc c => reenter c acc) calls s)) = false.
Proof.
  induction calls as [| c calls IH]; intros s Hin; [destruct Hin |].
  cbn [fold_left]. destruct Hin as [-> | Hin]; [| now apply IH].
  apply stopped_stays. cbn. unfold stop. destruct (rafId (fields s)); reflexivity.
Qed.

Lemma callback_reenter_all (calls : list Reentrant) : forall s,
  callback (fold_left (fun acc c => reenter c acc) calls s) = callback s.
Proof.
  induction calls as [| c calls IH]; intros s; [reflexivity |].
  cbn [fold_left]. rewrite IH. destruct c; cbn; [| reflexivity].
  unfold stop. destruct (rafId (fields s)); reflexivity.
Qed.

(** A render callback that calls [stop] while it runs makes that frame the last:
    the call it is in is completed and counted, no new frame is requested, and
    the frames the host runs afterwards call nothing. *)
Theorem stop_inside_the_callback_is_honoured
    (before after : list Action) (cb : RenderCallback) (currentTime : Q) :
  let s := actAll before create in
  isRunning (fields s) = true ->
  callback s = Some cb ->
  In CallStop (cb (currentTime - lastFrameTime (fields s))%Q) ->
  forallb notStart after = true ->
  let s' := frame currentTime s in
  isRunning (fields s') = false
  /\ rafQueue s' = []
  /\ rendered (actAll after s')
     = rendered s ++ [(currentTime - lastFrameTime (fields s))%Q].
Proof.
  intros s Hrun Hcb Hstop Hafter s'.
  assert (Hs : tidy s) by (apply tidy_actAll; unfold tidy; cbn; tauto).
  assert (Hs' : tidy s') by now apply tidy_frame.
  assert (Hr : rendered s' = rendered s ++ [(currentTime - lastFrameTime (fields s))%Q]).
  { unfold s', frame. unfold tidy in Hs. rewrite Hrun in Hs.
    destruct (rafId (fields s)); destruct Hs as [Hrun' Hq]; [| discriminate].
    rewrite Hq. cbn [fold_left].
    exact (rendered_frameHandler currentTime
             (mkScheduler (fields s) (callback s) (nextRafId s) [] (rendered s)) Hrun). }
  assert (Hoff : isRunning (fields s') = false).
  { unfold s', frame. unfold tidy in Hs. rewrite Hrun in Hs.
    destruct (rafId (fields s)); destruct Hs as [Hrun' Hq]; [| discriminate].
    rewrite Hq. cbn [fold_left].
    destruct (frameHandler_running currentTime
                (mkScheduler (fields s) (callback s) (nextRafId s) [] (rendered s)) Hrun)
      as (s0 & _ & _ & _ & _ & _ & ->).
    cbn [callback fields]. rewrite Hcb. cbv zeta.
    rewrite (stop_called _ s0 Hstop). apply stop_called. exact Hstop. }
  unfold tidy in Hs'. rewrite Hoff in Hs'.
  destruct (rafId (fields s')); destruct Hs' as [Hrun' Hq]; [discriminate |].
  split; [exact Hoff |]. split; [exact Hq |].
  rewrite (idle_actAll after s' Hafter Hoff Hq). exact Hr.
Qed.

(** A callback that draws ten frames' worth and then stops the loop: here it
    stops as soon as a frame takes longer than 20 ms. *)
Definition stopWhenSlow : RenderCallback :=
  fun deltaTime => if Qle_bool deltaTime 20 then [] else [CallStop].

Lemma stop_inside_the_callback_is_honoured_witness :
  let s := actAll [Start stopWhenSlow 0; Frame 16] create in
  rendered (actAll [Frame 66; Frame 82; RequestRender; Frame 98] s) = [16%Q; (66 - 16)%Q].
Proof.
  exact (proj2 (proj2 (stop_inside_the_callback_is_honoured
           [Start stopWhenSlow 0; Frame 16] [Frame 82; RequestRender; Frame 98]
           stopWhenSlow 66 eq_refl eq_refl (or_introl eq_refl) eq_refl))).
Defined.

Fixpoint sumQ (l : list Q) : Q :=
  match l with
  | [] => 0
  | d :: l => d + sumQ l
  end.

Lemma sumQ_app (l l' : list Q) : sumQ (l ++ l') == sumQ l + sumQ l'.
Proof. induction l as [| d l IH]; cbn [sumQ app]; [ring | rewrite IH; ring]. Qed.

Definition frames (times : list Q) (s : Scheduler) : Scheduler :=
  fold_left (fun acc t => frame t acc) times s.

Lemma running_stays (calls : list Reentrant) : forall s,
  ~ In CallStop calls ->
  let s' := fold_left (fun acc c => reenter c acc) calls s in
  isRunning (fields s') = isRunning (fields s)
  /\ lastFrameTime (fields s') = lastFrameTime (fields s).
Proof.
  induction calls as [| c calls IH]; intros s Hno; [split; reflexivity |].
  cbn [fold_left]. destruct c; [exfalso; apply Hno; now left |].
  destruct (IH (reenter CallRequestRender s)) as [H1 H2];
    [intros Hin; apply Hno; now right |].
  cbv zeta in *. rewrite H1, H2. split; reflexivity.
Qed.

Lemma frame_keeps_running (cb : RenderCallback) (t : Q) (s : Scheduler) :
  (forall d, ~ In CallStop (cb d)) ->
  tidy s -> isRunning (fields s) = true -> callback s = Some cb ->
  let s' := frame t s in
  tidy s' /\ isRunning (fields s') = true /\ callback s' = Some cb
  /\ lastFrameTime (fields s') = t
  /\ rendered s' = rendered s ++ [(t - lastFrameTime (fields s))%Q].
Proof.
  intros Hquiet Hs Hrun Hcb s'.
  split; [now apply tidy_frame |].
  unfold s', frame. unfold tidy in Hs. rewrite Hrun in Hs.
  destruct (rafId (fields s)); destruct Hs as [Hrun' Hq]; [| discriminate].
  rewrite Hq. cbn [fold_left].
  split; [| split; [| split]].
  4: exact (rendered_frameHandler t
             (mkScheduler (fields s) (callback s) (nextRafId s) [] (rendered s)) Hrun).
  all: destruct (frameHandler_running t
                (mkScheduler (fields s) (callback s) (nextRafId s) [] (rendered s)) Hrun)
      as (s0 & _ & Hrun0 & Ht0 & Hcb0 & _ & ->);
    cbn [callback fields] in *; rewrite Hcb in *; cbv zeta;
    destruct (running_stays (cb (t - lastFrameTime (fields s))%Q) s0 (Hquiet _)) as [H1 H2];
    cbv zeta in H1, H2; rewrite Hrun0 in H1; rewrite H1.
  - reflexivity.
  - cbn [callback]. rewrite callback_reenter_all. exact Hcb0.
  - cbn [fields lastFrameTime]. rewrite H2. exact Ht0.
Qed.

Lemma frames_deltas (cb : RenderCallback) (times : list Q) : forall s,
  (forall d, ~ In CallStop (cb d)) ->
  tidy s -> isRunning (fields s) = true -> callback s = Some cb ->
  exists deltas,
    rendered (frames times s) = rendered s ++ deltas
    /\ length deltas = length times
    /\ sumQ deltas == List.last times (lastFrameTime (fields s)) - lastFrameTime (fields s).
Proof.
  induction times as [| t times IH]; intros s Hquiet Hs Hrun Hcb.
  - exists []. cbn. rewrite app_nil_r. split; [reflexivity |]. split; [reflexivity | ring].
  - destruct (frame_keeps_running cb t s Hquiet Hs Hrun Hcb) as (Hs' & Hrun' & Hcb' & Ht & Hr).
    cbv zeta in *.
    destruct (IH (frame t s) Hquiet Hs' Hrun' Hcb') as (deltas & Hd & Hlen & Hsum).
    exists ((t - lastFrameTime (fields s))%Q :: deltas).
    cbn [frames fold_left]. fold (frames times (frame t s)).
    split; [| split].
    + rewrite Hd, Hr, <- app_assoc. reflexivity.
    + cbn [length]. now rewrite Hlen.
    + cbn [sumQ]. rewrite Hsum, Ht.
      replace (List.last (t :: times) (lastFrameTime (fields s))) with (List.last times t).
      * ring.
      * destruct times; [reflexivity |]. cbn [List.last]. 
        clear. revert q. induction times as [| u times IH]; intros q; [reflexivity |].
        cbn [List.last] in *. apply IH.
Qed.

(** While the loop runs (the callback does not stop it), the delta times the
    callback receives add up to the time from [start] to the latest frame,
    one delta per frame: no interval is lost or counted twice, whether or
    not the callback calls [requestRender]. *)
Theorem frame_deltas_add_up (cb : RenderCallback) (now : Q) (times : list Q) (s : Scheduler) :
  (forall d, ~ In CallStop (cb d)) ->
  start (Some cb) now create = inr s ->
  exists deltas,
    rendered (frames times s) = deltas
    /\ length deltas = length times
    /\ sumQ deltas == List.last times now - now.
Proof.
  intros Hquiet Hstart.
  assert (Hs : tidy s) by (apply (tidy_start cb now create s); [unfold tidy; cbn; tauto | exact Hstart]).
  injection Hstart as <-.
  match goal with
  | |- context [frames times ?s] =>
      destruct (frames_deltas cb times s Hquiet Hs eq_refl eq_refl) as (deltas & Hd & Hlen & Hsum)
  end.
  exists deltas. split; [exact Hd |]. split; [exact Hlen |]. exact Hsum.
Qed.

Lemma frame_deltas_add_up_witness :
  exists s deltas,
    start (Some quietCallback) 5 create = inr s
    /\ rendered (frames [21; 38; 54]%Q s) = deltas
    /\ length deltas = 3%nat
    /\ sumQ deltas == 54 - 5.
Proof.
  eexists. 
  destruct (frame_deltas_add_up quietCallback 5 [21; 38; 54]%Q _
              (fun d H => H) eq_refl) as (deltas & H).
  exists deltas. split; [reflexivity | exact H].
Defined.

End RenderSchedulerFacts.

(* ====================================================================== *)
(** * Further properties of the scales                                  *)
(* ====================================================================== *)

Module LinearScaleFacts.
Import JS LinearScale.
Local Open Scope Q_scope.



(** A linear scale has one slope: on a non-degenerate domain the images of two
    finite values differ by their difference times
    (rangeMax - rangeMin) / (domainMax - domainMin), with no clamping anywhere.
    So a scale with an increasing domain and an increasing range preserves
    order. *)
Theorem scale_has_constant_slope (s : LinearScale) (v w : Q) :
  ~ domainMin s == domainMax s ->
  exists x y,
    scale s (Fin v) = Fin x /\ scale s (Fin w) = Fin y
    /\ y - x == (w - v) * ((rangeMax s - rangeMin s) / (domainMax s - domainMin s))
    /\ (domainMin s < domainMax s -> rangeMin s <= rangeMax s -> v <= w -> x <= y).
Proof.
  intros Hd.
  assert (Hd0 : ~ domainMax s - domainMin s == 0) by (intros E; apply Hd; lra).
  rewrite !scale_formula by assumption.
  eexists. eexists. split; [reflexivity |]. split; [reflexivity |].
  assert (Hslope :
    rangeMin s + (w - domainMin s) / (domainMax s - domainMin s) * (rangeMax s - rangeMin s)
    - (rangeMin s + (v - domainMin s) / (domainMax s - domainMin s) * (rangeMax s - rangeMin s))
    == (w - v) * ((rangeMax s - rangeMin s) / (domainMax s - domainMin s))).
  { field. assumption. }
  split; [exact Hslope |].
  intros Hdom Hran Hvw.
  assert (H0 : 0 <= (w - v) * ((rangeMax s - rangeMin s) / (domainMax s - domainMin s))).
  { apply Qmult_le_0_compat; [lra |].
    apply Qle_shift_div_l; lra. }
  lra.
Qed.

Lemma scale_has_constant_slope_witness :
  exists x y,
    scale yearsToPixels (Fin 2005) = Fin x /\ scale yearsToPixels (Fin 2010) = Fin y
    /\ y - x == (2010 - 2005)
                * ((rangeMax yearsToPixels - rangeMin yearsToPixels)
                   / (domainMax yearsToPixels - domainMin yearsToPixels))
    /\ (domainMin yearsToPixels < domainMax yearsToPixels ->
        rangeMin yearsToPixels <= rangeMax yearsToPixels -> 2005 <= 2010 -> x <= y).
Proof.
  apply (scale_has_constant_slope yearsToPixels 2005 2010). vm_compute. discriminate.
Defined.

End LinearScaleFacts.

Module CategoryScaleFacts.
Import JS CategoryScale.
Local Open Scope Q_scope.

(** On a scale whose index is in step with its labels, [categoryIndex] is the
    position of a label in the domain: it returns i for the label at position
    i, and the label at the position it returns is the label asked for; for
    a label that is not in the domain it returns -1. *)
Theorem categoryIndex_is_the_position (s : CategoryScale) :
  indexed s ->
  (forall (i : nat) (c : string),
     categories s !! i = Some c <-> categoryIndex s c = Z.of_nat i)
  /\ (forall c : string, c ∉ categories s <-> categoryIndex s c = (-1)%Z).
Proof.
  intros Hidx. apply rebuildIndexFrom_inr in Hidx as (Hnd & _ & Hin & Hout).
  assert (Hunknown : forall c, c ∉ categories s -> categoryIndex s c = (-1)%Z).
  { intros c Hc. unfold categoryIndex. now rewrite (Hout _ Hc), lookup_empty. }
  assert (Hknown : forall i c, categories s !! i = Some c -> categoryIndex s c = Z.of_nat i).
  { intros i c Hc. unfold categoryIndex. now rewrite (Hin _ _ Hc). }
  split.
  - intros i c. split; [apply Hknown |].
    intros Hci. destruct (decide (c ∈ categories s)) as [Hmem | Hmem].
    + apply list_elem_of_lookup in Hmem as [j Hj].
      rewrite (Hknown _ _ Hj) in Hci. apply Nat2Z.inj in Hci. now subst j.
    + rewrite (Hunknown _ Hmem) in Hci. lia.
  - intros c. split; [apply Hunknown |].
    intros Hci Hmem. apply list_elem_of_lookup in Hmem as [j Hj].
    rewrite (Hknown _ _ Hj) in Hci. lia.
Qed.

Lemma categoryIndex_is_the_position_witness :
  (forall (i : nat) (c : string),
     categories weekdays !! i = Some c <-> categoryIndex weekdays c = Z.of_nat i)
  /\ (forall c : string, c ∉ categories weekdays <-> categoryIndex weekdays c = (-1)%Z).
Proof. apply (categoryIndex_is_the_position weekdays). vm_compute. reflexivity. Defined.



(** [domain] is not undone when it throws: the list of labels is assigned
    before the index is rebuilt.  After a call that is refused because of a
    repeated label, the scale holds the refused list next to the index of the
    list it had before, so that [bandwidth] already divides by the length of
    the refused list while [categoryIndex] still answers for the old one. *)
Theorem refused_domain_is_kept (ds : list string) (s : CategoryScale) :
  ~ NoDup ds ->
  exists c s',
    domain ds s = Threw (DuplicateCategory c) s'
    /\ c ∈ ds
    /\ categories s' = ds
    /\ (forall x, categoryIndex s' x = categoryIndex s x)
    /\ bandwidth s'
       = Fin (Qabs ((rangeMax s - rangeMin s) / inject_Z (Z.of_nat (length ds)))).
Proof.
  intros Hds. unfold domain. cbn [categories].
  destruct (rebuildIndex ds) as [e | m] eqn:E.
  - apply rebuildIndexFrom_inl in E as (c & -> & Hc).
    eexists. eexists. split; [reflexivity |]. split; [exact Hc |].
    split; [reflexivity |]. split; [reflexivity |].
    unfold bandwidth. cbn [categories rangeMin rangeMax].
    destruct ds as [| d ds]; [exfalso; apply Hds; constructor | reflexivity].
  - exfalso. apply Hds. apply rebuildIndex_NoDup. eauto.
Qed.

Lemma refused_domain_is_kept_witness :
  exists c s',
    domain ["sat"; "sun"; "sat"; "mon"] weekdays = Threw (DuplicateCategory c) s'
    /\ c ∈ ["sat"; "sun"; "sat"; "mon"]
    /\ categories s' = ["sat"; "sun"; "sat"; "mon"]
    /\ (forall x, categoryIndex s' x = categoryIndex weekdays x)
    /\ bandwidth s'
       = Fin (Qabs ((rangeMax weekdays - rangeMin weekdays) / inject_Z (Z.of_nat 4))).
Proof.
  apply (refused_domain_is_kept ["sat"; "sun"; "sat"; "mon"] weekdays).
  intros H. apply NoDup_cons in H as [H _]. apply H. right. left.
Defined.

End CategoryScaleFacts.

(* ====================================================================== *)
(** * Further properties of the wire format                             *)
(* ====================================================================== *)

Module WireFacts.
Import JS Wire.
Local Open Scope Z_scope.

(** The first point of an array decides the layout: a 5-tuple, or an object
    with [timestamp] and [open], makes it a candle array. *)
Definition startsWithCandle (points : list Point) : Prop :=
  match points with
  | OHLCDataPointTuple _ _ _ _ _ :: _ | OHLCDataPointObject _ _ _ _ _ :: _ => True
  | _ => False
  end.

Lemma length_writeXY (points : list Point) : forall offset view,
  length (writeXY points offset view) = length view.
Proof.
  induction points as [| p points IH]; intros offset view; [reflexivity |].
  cbn [writeXY]. rewrite IH, !length_insert. reflexivity.
Qed.

Lemma length_writeOHLC (points : list Point) : forall offset view,
  length (writeOHLC points offset view) = length view.
Proof.
  induction points as [| p points IH]; intros offset view; [reflexivity |].
  cbn [writeOHLC]. rewrite IH, !length_insert. reflexivity.
Qed.

Lemma readLanes_float64 (n : nat) : forall bytes, Forall isFloat64 (readLanes n bytes).
Proof.
  induction n as [| n IH]; intros bytes; [constructor |].
  cbn [readLanes]. constructor; [| apply IH].
  pose proof (le_combine_bound (firstn 8 bytes)) as Hb.
  pose proof (firstn_le_length 8 bytes) as Hl.
  unfold isFloat64. split; [lia |].
  eapply Z.lt_le_trans; [apply Hb |].
  apply Z.pow_le_mono_r; lia.
Qed.

Lemma laneBytes_readLanes (n : nat) : forall bytes,
  length bytes = (8 * n)%nat -> laneBytes (readLanes n bytes) = bytes.
Proof.
  induction n as [| n IH]; intros bytes Hlen.
  - destruct bytes; [reflexivity | discriminate].
  - cbn [readLanes]. unfold laneBytes in *. cbn [flat_map].
    rewrite IH by (rewrite length_skipn; lia).
    replace 8%nat with (length (firstn 8 bytes)) at 1
      by (rewrite length_firstn; lia).
    rewrite split_le_combine. apply firstn_skipn.
Qed.

Lemma Float64Array_bytes (buffer : ArrayBuffer) (view : list float64) :
  Float64Array buffer = inr view ->
  Forall isFloat64 view /\ laneBytes view = buffer.
Proof.
  unfold Float64Array.
  destruct (Nat.eqb_spec (length buffer mod 8) 0) as [Hmod |]; [| discriminate].
  intros [= <-]. split; [apply readLanes_float64 |].
  apply laneBytes_readLanes.
  rewrite (Nat.div_mod_eq (length buffer) 8) at 1. rewrite Hmod, Nat.add_0_r. reflexivity.
Qed.

Lemma readDataPoints_lanes (n : nat) : forall pre rest,
  Forall isFloat64 rest -> length rest = (2 * n)%nat ->
  Forall isXY (readDataPoints (pre ++ rest) n (length pre))
  /\ flat_map xyLanes (readDataPoints (pre ++ rest) n (length pre)) = rest.
Proof.
  induction n as [| n IH]; intros pre rest Hf Hlen.
  - destruct rest; [split; [constructor | reflexivity] | discriminate].
  - destruct rest as [| x [| y rest]]; try (cbn in Hlen; lia).
    apply Forall_cons in Hf as [Hx Hf]. apply Forall_cons in Hf as [Hy Hf].
    cbn [readDataPoints]. rewrite laneAt_app0, laneAt_app.
    cbn [laneAt lookup list_lookup default id].
    change (pre ++ x :: y :: rest) with (pre ++ [x; y] ++ rest).
    rewrite (app_assoc pre [x; y]).
    replace (length pre + 2)%nat with (length (pre ++ [x; y]))
      by (rewrite length_app; reflexivity).
    destruct (IH (pre ++ [x; y]) rest Hf) as [IH1 IH2]; [cbn in Hlen; lia |].
    split; [constructor; [now constructor | exact IH1] |].
    cbn [flat_map xyLanes app]. now rewrite IH2.
Qed.

Lemma readOHLCDataPoints_lanes (n : nat) : forall pre rest,
  Forall isFloat64 rest -> length rest = (5 * n)%nat ->
  Forall isOHLC5 (readOHLCDataPoints (pre ++ rest) n (length pre))
  /\ flat_map ohlcLanes (readOHLCDataPoints (pre ++ rest) n (length pre)) = rest.
Proof.
  induction n as [| n IH]; intros pre rest Hf Hlen.
  - destruct rest; [split; [constructor | reflexivity] | discriminate].
  - destruct rest as [| t [| o [| c [| l [| h rest]]]]]; try (cbn in Hlen; lia).
    apply Forall_cons in Hf as [Ht Hf]. apply Forall_cons in Hf as [Ho Hf].
    apply Forall_cons in Hf as [Hc Hf]. apply Forall_cons in Hf as [Hl Hf].
    apply Forall_cons in Hf as [Hh Hf].
    cbn [readOHLCDataPoints]. rewrite laneAt_app0, !laneAt_app.
    cbn [laneAt lookup list_lookup default id].
    change (pre ++ t :: o :: c :: l :: h :: rest) with (pre ++ [t; o; c; l; h] ++ rest).
    rewrite (app_assoc pre [t; o; c; l; h]).
    replace (length pre + 5)%nat with (length (pre ++ [t; o; c; l; h]))
      by (rewrite length_app; reflexivity).
    destruct (IH (pre ++ [t; o; c; l; h]) rest Hf) as [IH1 IH2]; [cbn in Hlen; lia |].
    split; [constructor; [now constructor | exact IH1] |].
    cbn [flat_map ohlcLanes app]. now rewrite IH2.
Qed.

(** Whatever the array holds (tuples, objects, a mix of the two layouts,
    points with fields missing), as long as it is not empty the serializer
    returns a buffer of exactly [points.length * stride] bytes with stride 40
    when the first point is a candle and 16 otherwise, and the deserializer,
    handed that buffer, the array's length and the stride, returns as many
    points as the array has: it never refuses what the serializer made. *)
Theorem serialized_buffer_is_accepted (points : list Point) :
  points <> [] ->
  exists (buffer : ArrayBuffer) (stride : Z) (received : list Point),
    serializeDataPoints points = (buffer, ofZ stride)
    /\ (startsWithCandle points -> stride = 40)
    /\ (~ startsWithCandle points -> stride = 16)
    /\ Z.of_nat (length buffer) = Z.of_nat (length points) * stride
    /\ deserializeDataPoints buffer (ofNat (length points)) (ofZ stride) = inr received
    /\ length received = length points.
Proof.
  intros Hne. destruct points as [| p points]; [contradiction |].
  set (all := p :: points).
  assert (Hcase :
    exists buffer stride,
      serializeDataPoints all = (buffer, ofZ stride)
      /\ (startsWithCandle all -> stride = 40)
      /\ (~ startsWithCandle all -> stride = 16)
      /\ (stride = 16 \/ stride = 40)
      /\ Z.of_nat (length buffer) = Z.of_nat (length all) * stride).
  { unfold serializeDataPoints, all.
    destruct p as [x y [s |] | x y s | t o c l h | t o c l h];
      cbn [isArray tupleLength hasTimestampAndOpen Nat.eqb];
      eexists; eexists; (split; [reflexivity |]);
      cbn [startsWithCandle];
      (split; [intros; solve [reflexivity | contradiction] |]);
      (split; [intros Hn; solve [reflexivity | exfalso; apply Hn; exact Logic.I] |]);
      (split; [solve [now left | now right] |]);
      rewrite length_laneBytes, ?length_writeXY, ?length_writeOHLC, length_replicate;
      lia. }
  destruct Hcase as (buffer & stride & Hser & H40 & H16 & Hstride & Hlen).
  destruct (deserialize_count buffer (length all) stride Hstride Hlen)
    as (received & Hde & Hcount).
  exists buffer, stride, received. repeat split; assumption.
Qed.

(** An [{x, y}] object followed by a candle tuple. *)
Definition mixedPoints : list Point :=
  [DataPointObject f_1 f_2_5 None; OHLCDataPointTuple f_1 f_100 f_101_5 f_2_5 f_101_5].

Lemma serialized_buffer_is_accepted_witness :
  exists (buffer : ArrayBuffer) (stride : Z) (received : list Point),
    serializeDataPoints mixedPoints
    = (buffer, ofZ stride)
    /\ (startsWithCandle mixedPoints -> stride = 40)
    /\ (~ startsWithCandle mixedPoints -> stride = 16)
    /\ Z.of_nat (length buffer) = 2 * stride
    /\ deserializeDataPoints buffer (ofNat 2) (ofZ stride) = inr received
    /\ length received = 2%nat.
Proof.
  apply (serialized_buffer_is_accepted mixedPoints).
  discriminate.
Defined.



End WireFacts.

(* ====================================================================== *)
(** * Further properties of the worker controller                       *)
(* ====================================================================== *)

Module ControllerFacts.
Import JS Wire Controller.

Section WithCollaborators.

Context {ChartGPUOptions ResolvedOptions PointerEventData AnimationConfig : Type}.
Variable resolveOptions : ChartGPUOptions -> string + ResolvedOptions.

Local Abbreviation Controller := (@Controller.Controller ResolvedOptions PointerEventData).
Local Abbreviation ChartInstance := (@Controller.ChartInstance ResolvedOptions PointerEventData).
Local Abbreviation Event :=
  (@Controller.Event ChartGPUOptions ResolvedOptions PointerEventData AnimationConfig).
Local Abbreviation WorkerInboundMessage :=
  (@Controller.WorkerInboundMessage ChartGPUOptions PointerEventData AnimationConfig).
Local Abbreviation step :=
  (@Controller.step ChartGPUOptions ResolvedOptions PointerEventData AnimationConfig
                    resolveOptions).
Local Abbreviation run :=
  (@Controller.run ChartGPUOptions ResolvedOptions PointerEventData AnimationConfig
                   resolveOptions).

(** The chart an event is about. *)
Definition eventChart (e : Event) : string :=
  match e with
  | Message _ msg => chartIdOf msg
  | Tick chartId | DeviceLost chartId _ _ | UncapturedError chartId _
  | CallsBack chartId _ => chartId
  end.

(** ** Invariants that only the charts in [ids] can break *)

(** The assignments the handlers and the callbacks make to a registered
    instance, [disposeChart] apart. *)
Inductive Assignment : (ChartInstance -> ChartInstance) -> Prop :=
| assign_schedule : Assignment scheduleRender
| assign_lost : Assignment (withState (setDeviceLost true))
| assign_call call : Assignment (withCalls (fun l => l ++ [call]))
| assign_canvas wh : Assignment (withCanvas wh)
| assign_tick : Assignment (fun i => withState (setRenderPending false) (deliver i))
| assign_deliver : Assignment deliver
| assign_close : Assignment (withChannel (fun ch => mkChannel (posted ch) true)).

(** [I] survives an outbound message and, for a chartId in [ids], those
    assignments, the registration of a new chart and [disposeChart]. *)
Record Framed (ids : string -> Prop) (I : Controller -> Prop) : Prop := {
  framed_emit : forall msg, preserves I (emit msg);
  framed_update : forall chartId f,
      ids chartId -> Assignment f -> preserves I (updateInstance chartId f);
  framed_insert : forall chartId context reaction wh, ids chartId ->
      preserves I (modify (fun c : Controller =>
                             mkController
                               (<[chartId := mkInstance context (mkCoordinator [] reaction) wh
                                                        (mkChannel 0 false)
                                                        (mkState false false false)]>
                                  (charts c))
                               (messageHandler c) (outbox c)));
  framed_dispose : forall chartId, ids chartId -> preserves I (disposeChart chartId)
}.

Section Frames.
Variable ids : string -> Prop.
Variable Inv : Controller -> Prop.
Hypothesis HI : Framed ids Inv.

Lemma framed_emitError chartId code e operation messageId :
  preserves Inv (emitError chartId code e operation messageId).
Proof. apply HI. Qed.

Lemma framed_runCallback chartId cb :
  ids chartId -> preserves Inv (runCallback chartId cb).
Proof.
  intros Hid. destruct cb as [| reason | types]; cbn [runCallback].
  - apply HI; [assumption | constructor].
  - apply preserves_bind; [apply HI; [assumption | constructor] | intros _; apply HI].
  - apply preserves_fold. intros t k Hk.
    apply preserves_bind; [apply HI | intros _; exact Hk].
Qed.

Lemma framed_callCoordinator chartId call :
  ids chartId -> preserves Inv (callCoordinator chartId call).
Proof.
  intros Hid. unfold callCoordinator.
  apply (preserves_dep _ (fun c0 c => match charts c0 !! chartId with
                                      | None => _
                                      | Some i => _ end)).
  intros c0. destruct (charts c0 !! chartId) as [i |]; [| apply preserves_ret].
  apply preserves_bind; [apply HI; [assumption | constructor] | intros _].
  apply preserves_bind; [| intros _].
  - apply preserves_fold. intros cb k Hk.
    apply preserves_bind; [now apply framed_runCallback | intros _; exact Hk].
  - destruct (throws _); [apply preserves_throw | apply preserves_ret].
Qed.

Lemma framed_handleSetOption chartId options :
  ids chartId -> preserves Inv (handleSetOption resolveOptions chartId options).
Proof.
  intros Hid. unfold handleSetOption.
  apply preserves_catch; [| intros e; apply framed_emitError].
  apply preserves_bind; [apply preserves_getChartInstance | intros _].
  destruct (resolveOptions options); [apply preserves_throw |].
  now apply framed_callCoordinator.
Qed.

Lemma framed_handleAppendData chartId seriesIndex data pointCount stride :
  ids chartId -> preserves Inv (handleAppendData chartId seriesIndex data pointCount stride).
Proof.
  intros Hid. unfold handleAppendData.
  apply preserves_catch; [| intros e; apply framed_emitError].
  apply preserves_bind; [apply preserves_validateSeriesIndex | intros _].
  apply preserves_bind; [apply preserves_validatePointCount | intros _].
  apply preserves_bind; [apply preserves_getChartInstance | intros _].
  apply preserves_bind; [apply preserves_deserialize | intros points].
  now apply framed_callCoordinator.
Qed.

Lemma framed_handleAppendDataBatch chartId items :
  ids chartId -> preserves Inv (handleAppendDataBatch chartId items).
Proof.
  intros Hid. unfold handleAppendDataBatch.
  apply preserves_catch; [| intros e; apply framed_emitError].
  apply preserves_bind; [apply preserves_getChartInstance | intros _].
  apply preserves_bind; [| intros _].
  - apply preserves_fold. intros item k Hk.
    apply preserves_bind; [apply preserves_validateSeriesIndex | intros _].
    apply preserves_bind; [apply preserves_validatePointCount | intros _; exact Hk].
  - apply preserves_fold. intros item k Hk.
    apply preserves_bind; [apply preserves_deserialize | intros points].
    apply preserves_bind; [now apply framed_callCoordinator | intros _; exact Hk].
Qed.

Lemma framed_handleResize chartId width height devicePixelRatio requestRender :
  ids chartId ->
  preserves Inv (handleResize chartId width height devicePixelRatio requestRender).
Proof.
  intros Hid. unfold handleResize.
  apply preserves_catch; [| intros e; apply framed_emitError].
  apply preserves_bind; [apply preserves_getChartInstance | intros instance].
  destruct (deviceLost (state instance)); [apply preserves_throw |].
  destruct (_ || _); [apply preserves_throw |].
  destruct (le devicePixelRatio (ofZ 0)); [apply preserves_throw |].
  cbv zeta. destruct (_ || _); [apply preserves_throw |].
  destruct (device (gpuContext instance)); [| apply preserves_throw].
  apply preserves_bind; [apply HI; [assumption | constructor] | intros _].
  destruct (canvasContext (gpuContext instance)) as [ctx |]; [| apply preserves_throw].
  destruct (preferredFormat (gpuContext instance)); [| apply preserves_throw].
  destruct (configureThrows ctx); [apply preserves_throw |].
  destruct requestRender; [now apply framed_callCoordinator | apply preserves_ret].
Qed.

Lemma framed_handlePointerEvent chartId event :
  ids chartId -> preserves Inv (handlePointerEvent chartId event).
Proof.
  intros Hid. unfold handlePointerEvent.
  apply preserves_catch; [| intros e; apply framed_emitError].
  apply preserves_bind; [apply preserves_getChartInstance | intros _].
  now apply framed_callCoordinator.
Qed.

Lemma framed_handleSetZoomRange chartId start end_ :
  ids chartId -> preserves Inv (handleSetZoomRange chartId start end_).
Proof.
  intros Hid. unfold handleSetZoomRange.
  apply preserves_catch; [| intros e; apply framed_emitError].
  destruct (_ || _); [apply preserves_throw |].
  destruct (ge _ _); [apply preserves_throw |].
  apply preserves_bind; [apply preserves_getChartInstance | intros _].
  now apply framed_callCoordinator.
Qed.

Lemma framed_handleSetInteractionX chartId x source :
  ids chartId -> preserves Inv (handleSetInteractionX chartId x source).
Proof.
  intros Hid. unfold handleSetInteractionX.
  apply preserves_catch; [| intros e; apply framed_emitError].
  apply preserves_bind; [apply preserves_getChartInstance | intros _].
  now apply framed_callCoordinator.
Qed.

Lemma framed_handleSetAnimation chartId enabled (config : option AnimationConfig) :
  ids chartId -> preserves Inv (handleSetAnimation chartId enabled config).
Proof.
  intros Hid. unfold handleSetAnimation.
  apply preserves_catch; [| intros e; apply framed_emitError].
  apply preserves_bind; [apply preserves_getChartInstance | intros _].
  destruct enabled; [now apply framed_callCoordinator | apply preserves_ret].
Qed.

Lemma framed_initChart up msg :
  ids (initChartId msg) -> preserves Inv (initChart resolveOptions up msg).
Proof.
  intros Hid. unfold initChart.
  apply (preserves_dep _ (fun c0 c => match charts c0 !! initChartId msg with
                                      | None => _
                                      | Some i => _ end)).
  intros c0. destruct (charts c0 !! initChartId msg); [apply framed_emitError |].
  apply preserves_catch.
  - destruct (le _ _); [apply preserves_throw |].
    destruct (initializedContext up); [apply preserves_throw |].
    destruct (resolveOptions _); [apply preserves_throw |].
    destruct (createdCoordinator up); [apply preserves_throw |].
    apply preserves_bind; [now apply HI | intros _].
    apply preserves_bind; [apply HI | intros _; now apply framed_callCoordinator].
  - intros e. apply preserves_bind; [| intros _; apply framed_emitError].
    apply HI; [assumption | constructor].
Qed.

Lemma framed_renderTick chartId : ids chartId -> preserves Inv (renderTick chartId).
Proof.
  intros Hid. unfold renderTick.
  apply (preserves_dep _ (fun c0 c => match charts c0 !! chartId with
                                      | None => _
                                      | Some i => _ end)).
  intros c0. destruct (charts c0 !! chartId) as [i |]; [| apply preserves_ret].
  destruct (_ || _); [apply preserves_ret |].
  destruct (_ && _).
  - apply preserves_bind; [apply HI; [assumption | constructor] | intros _].
    apply preserves_catch; [now apply framed_callCoordinator |].
    intros e. apply framed_emitError.
  - destruct (deviceLost (state i)); (apply HI; [assumption | constructor]).
Qed.

Lemma framed_dispatch up (msg : WorkerInboundMessage) :
  ids (chartIdOf msg) -> preserves Inv (dispatch resolveOptions up msg).
Proof.
  intros Hid. destruct msg; cbn [dispatch]; cbn [chartIdOf] in Hid.
  - now apply framed_initChart.
  - now apply framed_handleSetOption.
  - now apply framed_handleAppendData.
  - now apply framed_handleAppendDataBatch.
  - now apply framed_handleResize.
  - now apply framed_handlePointerEvent.
  - now apply framed_handleSetZoomRange.
  - now apply framed_handleSetInteractionX.
  - now apply framed_handleSetAnimation.
  - now apply HI.
Qed.

Lemma framed_step (e : Event) c : ids (eventChart e) -> Inv c -> Inv (step e c).
Proof.
  intros Hid Hc. destruct e; cbn [step]; cbn [eventChart] in Hid.
  - rewrite handleMessage_exec. now apply framed_dispatch.
  - now apply framed_renderTick.
  - assert (H : preserves Inv (deviceLostHandler chartId reason message)).
    { apply preserves_bind; [| intros _; apply HI]. apply HI; [assumption | constructor]. }
    now apply H.
  - now apply framed_emitError.
  - now apply framed_runCallback.
Qed.

Lemma framed_run (events : list Event) : forall c,
  Forall (fun e => ids (eventChart e)) events -> Inv c -> Inv (run events c).
Proof.
  induction events as [| e events IH]; intros c Hev Hc; [exact Hc |].
  apply Forall_cons in Hev as [He Hev].
  rewrite run_cons. apply IH; [assumption |]. now apply framed_step.
Qed.

End Frames.

(** An invariant that survives every assignment to a chart survives a call on
    its coordinator ... *)
Lemma callCoordinator_preserves (I : Controller -> Prop) chartId call :
  (forall msg, preserves I (emit msg)) ->
  (forall f, preserves I (updateInstance chartId f)) ->
  preserves I (callCoordinator chartId call).
Proof.
  intros Hemit Hup. unfold callCoordinator.
  apply (preserves_dep _ (fun c1 c => match charts c1 !! chartId with
                                      | None => _
                                      | Some i => _ end)).
  intros c1. destruct (charts c1 !! chartId) as [i |]; [| apply preserves_ret].
  apply preserves_bind; [apply Hup | intros _].
  apply preserves_bind; [| intros _].
  - apply preserves_fold. intros cb k Hk.
    apply preserves_bind; [| intros _; exact Hk].
    destruct cb as [| reason | types]; cbn [runCallback].
    + apply Hup.
    + apply preserves_bind; [apply Hup | intros _; apply Hemit].
    + apply preserves_fold. intros t k' Hk'.
      apply preserves_bind; [apply Hemit | intros _; exact Hk'].
  - destruct (throws _); [apply preserves_throw | apply preserves_ret].
Qed.

(** ... and, if it also survives the removal of the chart, [disposeChart]. *)
Lemma disposeChart_preserves (I : Controller -> Prop) chartId :
  (forall msg, preserves I (emit msg)) ->
  (forall f, preserves I (updateInstance chartId f)) ->
  preserves I (modify (fun c : Controller =>
                         mkController (delete chartId (charts c))
                                      (messageHandler c) (outbox c))) ->
  preserves I (disposeChart chartId).
Proof.
  intros Hemit Hup Hdel. unfold disposeChart.
  apply preserves_catch; [| intros e; apply Hemit].
  apply (preserves_dep _ (fun c0 c => match charts c0 !! chartId with
                                      | None => _
                                      | Some i => _ end)).
  intros c0. destruct (charts c0 !! chartId) as [instance |]; [| apply Hemit].
  destruct (disposed (state instance)); [apply Hemit |].
  apply preserves_bind; [apply Hup | intros _].
  apply preserves_bind; [apply Hup | intros _].
  apply preserves_bind; [| intros cleanupErrors].
  - apply preserves_catch; [| intros e; apply preserves_ret].
    apply preserves_bind; [| intros _; apply preserves_ret].
    now apply callCoordinator_preserves.
  - apply preserves_bind; [apply Hup | intros _].
    apply preserves_bind; [exact Hdel | intros _; apply Hemit].
Qed.

(** Charts do not interfere: whatever happens to other charts (messages,
    ticks of their render channels, device loss, callbacks of their
    coordinators), the entry of a chart in the registry stays what it was. *)
Theorem charts_are_isolated (events : list Event) (other : string) (c : Controller) :
  Forall (fun e => eventChart e <> other) events ->
  charts (run events c) !! other = charts c !! other.
Proof.
  intros Hev.
  apply (framed_run (fun id => id <> other)
                    (fun c' => charts c' !! other = charts c !! other));
    [| assumption | reflexivity].
  assert (Hemit : forall msg,
             preserves (fun c' : Controller => charts c' !! other = charts c !! other)
                       (emit msg)).
  { intros msg c' Hc'. unfold emit, modify. cbn. destruct (messageHandler c'); exact Hc'. }
  assert (Hup : forall id f, id <> other ->
             preserves (fun c' : Controller => charts c' !! other = charts c !! other)
                       (updateInstance id f)).
  { intros id f Hid c' Hc'. unfold updateInstance, modify. cbn. now rewrite lookup_alter_ne. }
  split.
  - exact Hemit.
  - intros id f Hid _. now apply Hup.
  - intros id context reaction wh Hid c' Hc'. unfold modify. cbn.
    now rewrite lookup_insert_ne.
  - intros id Hid. apply disposeChart_preserves; [exact Hemit | intros f; now apply Hup |].
    intros c' Hc'. unfold modify. cbn. now rewrite lookup_delete_ne.
Qed.

(** Until [onMessage] has registered a handler, everything the controller
    would send is dropped: whatever happens, the handler has been called with
    nothing. *)
Theorem messages_without_handler_are_dropped (events : list Event) (c : Controller) :
  messageHandler c = false ->
  messageHandler (run events c) = false /\ outbox (run events c) = outbox c.
Proof.
  intros Hh.
  apply (framed_run (fun _ => True)
                    (fun c' => messageHandler c' = false /\ outbox c' = outbox c));
    [| apply Forall_forall; intros; exact Logic.I | split; [assumption | reflexivity]].
  assert (Hemit : forall msg,
             preserves (fun c' : Controller =>
                          messageHandler c' = false /\ outbox c' = outbox c) (emit msg)).
  { intros msg c' [H1 H2]. unfold emit, modify. cbn. rewrite H1. now split. }
  split.
  - exact Hemit.
  - intros id f _ _ c' Hc'. exact Hc'.
  - intros id context reaction wh _ c' Hc'. exact Hc'.
  - intros id _. apply disposeChart_preserves;
      [exact Hemit | intros f c' Hc'; exact Hc' | intros c' Hc'; exact Hc'].
Qed.

(** ** A message for a chart that is not registered *)

(** The code under which each handler reports what it could not do. *)
Definition refusalCode (msg : WorkerInboundMessage) : ErrorCode :=
  match msg with
  | AppendDataMsg _ _ _ _ _ | AppendDataBatch _ _ => DATA_ERROR
  | Resize _ _ _ _ _ => RENDER_ERROR
  | _ => UNKNOWN
  end.

Lemma getChartInstance_missing (c : Controller) chartId operation :
  charts c !! chartId = None ->
  getChartInstance chartId operation c = (c, inl (ChartNotFound chartId operation)).
Proof. intros H. unfold getChartInstance. now rewrite H. Qed.

(** Any message but init that names a chartId the registry does not hold
    (never initialised, or disposed since) changes no chart and is answered by
    exactly one error message for that chartId, under the code of its handler:
    DATA_ERROR for appendData and appendDataBatch, RENDER_ERROR for resize,
    UNKNOWN for the others. *)
Theorem unknown_chart_is_refused up (msg : WorkerInboundMessage) (c : Controller) :
  (forall m, msg <> InitChart m) ->
  charts c !! chartIdOf msg = None ->
  messageHandler c = true ->
  exists why operation,
    step (Message up msg) c
    = mkController (charts c) true
        (outbox c ++ [ErrorMessage (chartIdOf msg) (refusalCode msg) why operation None]).
Proof.
  intros Hinit Hnone Hh. cbn [Controller.step]. rewrite handleMessage_exec.
  destruct msg as [m | id options | id seriesIndex data pointCount stride | id items
                  | id width height dpr rr | id event | id start end_ | id x source
                  | id enabled config | id];
    cbn [chartIdOf] in Hnone; cbn [dispatch chartIdOf refusalCode].
  - exfalso. now apply (Hinit m).
  - eexists. eexists. unfold handleSetOption. apply refused; [assumption |].
    unfold bind. now rewrite (getChartInstance_missing _ _ _ Hnone).
  - assert (Hbody : exists why,
               bind (validateSeriesIndex seriesIndex "in appendData")
                 (fun _ => bind (validatePointCount pointCount "in appendData")
                   (fun _ => bind (getChartInstance id "appendData")
                     (fun _ => bind (deserialize data pointCount stride)
                       (fun points => callCoordinator id (AppendData seriesIndex points))))) c
               = (c, inl why)).
    { unfold bind, validateSeriesIndex, validatePointCount.
      destruct (negb (isInteger seriesIndex) || lt seriesIndex (ofZ 0));
        [eexists; reflexivity |].
      destruct (negb (isInteger pointCount) || lt pointCount (ofZ 0));
        [eexists; reflexivity |].
      cbn. rewrite (getChartInstance_missing _ _ _ Hnone). eexists; reflexivity. }
    destruct Hbody as [why Hbody]. exists why. eexists.
    unfold handleAppendData. now apply refused.
  - eexists. eexists. unfold handleAppendDataBatch. apply refused; [assumption |].
    unfold bind. now rewrite (getChartInstance_missing _ _ _ Hnone).
  - eexists. eexists. unfold handleResize. apply refused; [assumption |].
    unfold bind. now rewrite (getChartInstance_missing _ _ _ Hnone).
  - eexists. eexists. unfold handlePointerEvent. apply refused; [assumption |].
    unfold bind. now rewrite (getChartInstance_missing _ _ _ Hnone).
  - assert (Hbody : exists why,
               (if lt start (ofZ 0) || gt start (ofZ 1) || lt end_ (ofZ 0) || gt end_ (ofZ 1)
                then throw (ZoomRangeOutside01 start end_)
                else if ge start end_ then throw (ZoomRangeNotIncreasing start end_)
                else bind (getChartInstance id "setZoomRange")
                          (fun _ => callCoordinator id (SetZoomRange start end_))) c
               = (c, inl why)).
    { destruct (_ || _); [eexists; reflexivity |].
      destruct (ge start end_); [eexists; reflexivity |].
      unfold bind. rewrite (getChartInstance_missing _ _ _ Hnone). eexists; reflexivity. }
    destruct Hbody as [why Hbody]. exists why. eexists.
    unfold handleSetZoomRange. now apply refused.
  - eexists. eexists. unfold handleSetInteractionX. apply refused; [assumption |].
    unfold bind. now rewrite (getChartInstance_missing _ _ _ Hnone).
  - eexists. eexists. unfold handleSetAnimation. apply refused; [assumption |].
    unfold bind. now rewrite (getChartInstance_missing _ _ _ Hnone).
  - eexists. eexists. unfold disposeChart, exec, catch. rewrite Hnone.
    unfold emitError, emit, modify. cbn. rewrite Hh. reflexivity.
Qed.


(** ** appendDataBatch *)

(** The two checks the first loop of [handleAppendDataBatch] makes on an item. *)
Definition validItem (item : BatchItem) : bool :=
  negb (negb (isInteger (itemSeriesIndex item)) || lt (itemSeriesIndex item) (ofZ 0))
  && negb (negb (isInteger (itemPointCount item)) || lt (itemPointCount item) (ofZ 0)).

(** The points of an item whose buffer can be read. *)
Definition pointsOf (item : BatchItem) : list Point :=
  match deserializeDataPoints (itemData item) (itemPointCount item) (itemStride item) with
  | inr points => points
  | inl _ => []
  end.

Definition appendCall (item : BatchItem) : @CoordinatorCall ResolvedOptions PointerEventData :=
  AppendData (itemSeriesIndex item) (pointsOf item).

Lemma validateItems_passes (items : list BatchItem) (c : Controller) :
  Forall (fun item => validItem item = true) items ->
  validateItems items c = (c, inr tt).
Proof.
  induction 1 as [| item items Hitem _ IH]; [reflexivity |].
  cbn [validateItems fold_right]. fold (@validateItems ResolvedOptions PointerEventData items).
  unfold validItem in Hitem. apply andb_true_iff in Hitem as [H1 H2].
  apply negb_true_iff in H1, H2.
  unfold bind, validateSeriesIndex, validatePointCount. rewrite H1, H2. cbn. exact IH.
Qed.

Lemma validateItems_throws (items : list BatchItem) (c : Controller) :
  Exists (fun item => validItem item = false) items ->
  exists why, validateItems items c = (c, inl why).
Proof.
  induction 1 as [item items Hitem | item items _ IH];
    cbn [validateItems fold_right];
    fold (@validateItems ResolvedOptions PointerEventData items);
    unfold bind, validateSeriesIndex, validatePointCount.
  - unfold validItem in Hitem. apply andb_false_iff in Hitem as [H | H];
      apply negb_false_iff in H.
    + rewrite H. eexists; reflexivity.
    + destruct (negb (isInteger (itemSeriesIndex item)) || lt (itemSeriesIndex item) (ofZ 0));
        [eexists; reflexivity |].
      cbn. rewrite H. eexists; reflexivity.
  - destruct (negb (isInteger (itemSeriesIndex item)) || lt (itemSeriesIndex item) (ofZ 0));
      [eexists; reflexivity |].
    cbn.
    destruct (negb (isInteger (itemPointCount item)) || lt (itemPointCount item) (ofZ 0));
      [eexists; reflexivity |].
    cbn. exact IH.
Qed.

(** Every item of a batch is checked before the first one is applied: if the
    seriesIndex or the pointCount of any item is not a non-negative integer,
    nothing is appended, not even the items before it, and the batch is
    answered by one DATA_ERROR. *)
Theorem batch_is_checked_before_it_is_applied
        up (c : Controller) (chartId : string) (items : list BatchItem) :
  messageHandler c = true ->
  Exists (fun item => validItem item = false) items ->
  exists why,
    step (Message up (AppendDataBatch chartId items)) c
    = mkController (charts c) true
        (outbox c ++ [ErrorMessage chartId DATA_ERROR why "appendDataBatch" None]).
Proof.
  intros Hh Hbad. cbn [Controller.step]. rewrite handleMessage_exec. cbn [dispatch].
  assert (Hbody : exists why,
             bind (getChartInstance chartId "appendDataBatch")
                  (fun _ => bind (validateItems items)
                                 (fun _ => appendItems chartId items)) c
             = (c, inl why)).
  { unfold bind.
    destruct (getChartInstance_reads c chartId "appendDataBatch") as [[why | i] ->];
      [eexists; reflexivity |].
    destruct (validateItems_throws items c Hbad) as [why ->]. eexists; reflexivity. }
  destruct Hbody as [why Hbody]. exists why.
  unfold handleAppendDataBatch. now apply refused.
Qed.

(** What holds of a controller while the calls [seen] have been made on the
    coordinator of [chartId]: the handler is registered, the outbox has only
    grown, and the coordinator is the one of [i0]. *)
Definition during (chartId : string) (i0 : ChartInstance)
           (sent : list WorkerOutboundMessage)
           (seen : list (@CoordinatorCall ResolvedOptions PointerEventData))
           (c : Controller) : Prop :=
  messageHandler c = true
  /\ (exists more, outbox c = sent ++ more)
  /\ Has chartId (fun i' => calls (coordinator i') = seen
                            /\ react (coordinator i') = react (coordinator i0)) c.

Lemma during_callbacks chartId i0 sent seen :
  CallbackInvariant (during chartId i0 sent seen).
Proof.
  assert (Hup : forall id f,
             (forall i : ChartInstance, coordinator (f i) = coordinator i) ->
             preserves (during chartId i0 sent seen) (updateInstance id f)).
  { intros id f Hf c (Hh & Hout & Hhas). split; [exact Hh |]. split; [exact Hout |].
    revert Hhas. apply (preserves_updateInstance_Has chartId _ id f).
    intros i. now rewrite Hf. }
  split.
  - intros msg c (Hh & [more Hout] & Hhas). unfold emit, modify. cbn. rewrite Hh.
    split; [reflexivity |]. split; [| exact Hhas].
    exists (more ++ [msg]). cbn. now rewrite Hout, app_assoc.
  - intros id. apply Hup. intros i. unfold scheduleRender. now destruct (_ && _).
  - intros id. apply Hup. reflexivity.
Qed.

Lemma runCallbacks_returns chartId cbs : forall c : Controller,
  exists c', runCallbacks chartId cbs c = (c', inr tt).
Proof.
  induction cbs as [| cb cbs IH]; intros c; [eexists; reflexivity |].
  cbn [runCallbacks fold_right]. fold (@runCallbacks ResolvedOptions PointerEventData chartId cbs).
  unfold bind. destruct (runCallback_returns chartId cb c) as [c1 ->]. apply IH.
Qed.

(** A call on a coordinator that does not throw returns, with the call on its
    record. *)
Lemma callCoordinator_returns chartId i0 sent seen call (c : Controller) :
  (forall l k, throws (react (coordinator i0) l k) = None) ->
  during chartId i0 sent seen c ->
  exists c', callCoordinator chartId call c = (c', inr tt)
             /\ during chartId i0 sent (seen ++ [call]) c'.
Proof.
  intros Hquiet (Hh & Hout & (i & Hi & Hcalls & Hreact)).
  unfold callCoordinator. rewrite Hi, Hreact, Hquiet.
  unfold bind at 1, updateInstance at 1, modify at 1.
  match goal with |- context [bind (runCallbacks chartId ?cbs) _ ?c1'] =>
    set (c1 := c1');
    pose proof (preserves_runCallbacks _ (during_callbacks chartId i0 sent (seen ++ [call]))
                                       chartId cbs c1) as Hrun;
    destruct (runCallbacks_returns chartId cbs c1) as [c2 Hc2]
  end.
  unfold bind. rewrite Hc2. rewrite Hc2 in Hrun. cbn in Hrun.
  exists c2. split; [reflexivity |]. apply Hrun.
  split; [exact Hh |]. split; [exact Hout |].
  exists (withCalls (fun l => l ++ [call]) i). unfold c1. cbn [charts].
  rewrite lookup_alter_eq, Hi. cbn. split; [reflexivity |].
  split; [now rewrite Hcalls | exact Hreact].
Qed.

Lemma appendItems_stops chartId i0 sent (good : list BatchItem) bad rest e :
  (forall l k, throws (react (coordinator i0) l k) = None) ->
  Forall (fun item => exists points,
            deserializeDataPoints (itemData item) (itemPointCount item) (itemStride item)
            = inr points) good ->
  deserializeDataPoints (itemData bad) (itemPointCount bad) (itemStride bad) = inl e ->
  forall seen (c : Controller),
    during chartId i0 sent seen c ->
    exists c', appendItems chartId (good ++ bad :: rest) c = (c', inl (DataPointsError e))
               /\ during chartId i0 sent (seen ++ map appendCall good) c'.
Proof.
  intros Hquiet Hgood Hbad.
  induction Hgood as [| item good [points Hitem] _ IH]; intros seen c Hc.
  - cbn [app appendItems fold_right map]. unfold bind, deserialize. rewrite Hbad.
    exists c. split; [reflexivity |]. now rewrite app_nil_r.
  - cbn [app appendItems fold_right map].
    fold (@appendItems ResolvedOptions PointerEventData chartId (good ++ bad :: rest)).
    unfold bind at 1, deserialize. rewrite Hitem. cbn.
    destruct (callCoordinator_returns chartId i0 sent seen
                (AppendData (itemSeriesIndex item) points) c Hquiet Hc) as (c1 & Hc1 & Hd1).
    unfold bind. rewrite Hc1.
    destruct (IH _ c1 Hd1) as (c' & Hc' & Hd').
    exists c'. split; [exact Hc' |].
    unfold appendCall at 1, pointsOf. rewrite Hitem.
    now rewrite <- app_assoc in Hd'.
Qed.

(** A batch is not undone: when every item passes the checks of the first loop
    but the buffer of one item cannot be read (wrong size, wrong stride), the
    items before it have been handed to the coordinator, in order, the bad item
    and the items after it have not, and one DATA_ERROR is sent, after whatever
    the coordinator's callbacks sent. *)
Theorem batch_stops_at_the_first_bad_buffer
        up (c : Controller) chartId (i : ChartInstance) (good : list BatchItem) bad rest e :
  charts c !! chartId = Some i ->
  disposed (state i) = false -> deviceLost (state i) = false ->
  messageHandler c = true ->
  (forall l k, throws (react (coordinator i) l k) = None) ->
  Forall (fun item => validItem item = true) (good ++ bad :: rest) ->
  Forall (fun item => exists points,
            deserializeDataPoints (itemData item) (itemPointCount item) (itemStride item)
            = inr points) good ->
  deserializeDataPoints (itemData bad) (itemPointCount bad) (itemStride bad) = inl e ->
  let c' := step (Message up (AppendDataBatch chartId (good ++ bad :: rest))) c in
  Has chartId (fun i' => calls (coordinator i')
                         = calls (coordinator i) ++ map appendCall good) c'
  /\ exists emitted,
      outbox c' = outbox c ++ emitted
                  ++ [ErrorMessage chartId DATA_ERROR (DataPointsError e)
                                   "appendDataBatch" None].
Proof.
  intros Hi Hd Hl Hh Hquiet Hvalid Hgood Hbad c'.
  assert (Hc : during chartId i (outbox c) (calls (coordinator i)) c).
  { split; [exact Hh |]. split; [exists []; now rewrite app_nil_r |].
    exists i. repeat split; assumption. }
  destruct (appendItems_stops chartId i (outbox c) good bad rest e Hquiet Hgood Hbad _ c Hc)
    as (c1 & Hc1 & (Hh1 & [more Hout1] & (i1 & Hi1 & Hcalls1 & _))).
  assert (Hc' : c' = mkController (charts c1) true
                       (outbox c1 ++ [ErrorMessage chartId DATA_ERROR (DataPointsError e)
                                                   "appendDataBatch" None])).
  { unfold c'. cbn [Controller.step]. rewrite handleMessage_exec. cbn [dispatch].
    unfold handleAppendDataBatch, exec, catch, bind at 1.
    rewrite (getChartInstance_live _ _ _ _ Hi Hd Hl).
    unfold bind at 1. rewrite (validateItems_passes _ _ Hvalid). rewrite Hc1.
    unfold emitError, emit, modify. cbn. now rewrite Hh1. }
  rewrite Hc'. split.
  - exists i1. cbn [charts]. split; assumption.
  - exists more. cbn [outbox]. now rewrite Hout1, app_assoc.
Qed.


(** ** dispose *)

(** What [disposeChart] leaves of a registered chart that is not disposed:
    the registry without it, and the disposed message behind whatever the
    coordinator's [dispose] had its callbacks send. *)
Lemma disposeChart_live (c : Controller) chartId (i : ChartInstance) :
  charts c !! chartId = Some i -> disposed (state i) = false ->
  exists (c2 : Controller) cleanupErrors,
    delete chartId (charts c2) = delete chartId (charts c)
    /\ messageHandler c2 = messageHandler c
    /\ (exists more, outbox c2 = outbox c ++ more)
    /\ exec (disposeChart chartId) c
       = fst (emit (DisposedMessage chartId cleanupErrors)
                   (mkController (delete chartId (charts c2))
                                 (messageHandler c2) (outbox c2))).
Proof.
  intros Hi Hd.
  set (I := fun c' : Controller =>
              delete chartId (charts c') = delete chartId (charts c)
              /\ messageHandler c' = messageHandler c
              /\ exists more, outbox c' = outbox c ++ more).
  assert (Hemit : forall msg, preserves I (emit msg)).
  { intros msg c' (H1 & H2 & [more H3]). unfold emit, modify, I. cbn.
    destruct (messageHandler c') eqn:E; cbn; [| rewrite E; eauto].
    split; [assumption |]. split; [congruence |].
    exists (more ++ [msg]). now rewrite H3, app_assoc. }
  assert (Hup : forall f, preserves I (updateInstance chartId f)).
  { intros f c' (H1 & H2 & H3). unfold updateInstance, modify, I. cbn.
    split; [now rewrite delete_alter_eq |]. split; assumption. }
  assert (HI : I c).
  { unfold I. split; [reflexivity |]. split; [reflexivity |].
    exists []. now rewrite app_nil_r. }
  unfold exec, disposeChart, catch at 1. rewrite Hi, Hd.
  unfold bind at 1. unfold updateInstance at 1, modify at 1.
  unfold bind at 1. unfold updateInstance at 1, modify at 1.
  match goal with |- context [bind (catch _ _) _ ?c1'] => set (c1 := c1') end.
  assert (H1 : I c1) by (unfold c1; apply (Hup _ _ (Hup _ _ HI))).
  pose proof (callCoordinator_preserves I chartId Dispose Hemit Hup c1 H1) as H2.
  unfold bind at 1, catch, bind at 1.
  destruct (callCoordinator chartId Dispose c1) as [c2 [e | []]]; cbn in H2;
    destruct H2 as (Hdel & Hh & Hout);
    exists c2; eexists; (split; [exact Hdel |]); (split; [exact Hh |]);
    (split; [exact Hout |]);
    unfold ret, bind, updateInstance, modify, emit; cbn;
    rewrite delete_alter_eq; reflexivity.
Qed.

(** In every case the registry after [disposeChart] is the registry before, or
    the registry before without the chart. *)
Lemma disposeChart_charts (c : Controller) chartId :
  charts (exec (disposeChart chartId) c) = charts c
  \/ charts (exec (disposeChart chartId) c) = delete chartId (charts c).
Proof.
  destruct (charts c !! chartId) as [i |] eqn:Hi.
  - destruct (disposed (state i)) eqn:Hd.
    + left. unfold exec, disposeChart, catch. rewrite Hi, Hd.
      unfold emitError, emit, modify. cbn. now destruct (messageHandler c).
    + right. destruct (disposeChart_live c chartId i Hi Hd)
        as (c2 & errs & Hdel & _ & _ & ->).
      unfold emit, modify. cbn. now destruct (messageHandler c2).
  - left. unfold exec, disposeChart, catch. rewrite Hi.
    unfold emitError, emit, modify. cbn. now destruct (messageHandler c).
Qed.

(** A dispose message for a registered chart takes the chart out of the
    registry and leaves every other chart as it was; the host is sent one
    disposed message, after whatever the coordinator's callbacks sent while it
    was being disposed of.  Disposing is not idempotent on the worker side: a
    second dispose message for the same chartId is answered with an error. *)
Theorem disposeChart_unregisters up (c : Controller) chartId (i : ChartInstance) :
  charts c !! chartId = Some i ->
  disposed (state i) = false ->
  messageHandler c = true ->
  let c' := step (Message up (DisposeChart chartId)) c in
  charts c' = delete chartId (charts c)
  /\ (exists emitted cleanupErrors,
        outbox c' = outbox c ++ emitted ++ [DisposedMessage chartId cleanupErrors])
  /\ step (Message up (DisposeChart chartId)) c'
     = mkController (charts c') true
         (outbox c' ++ [ErrorMessage chartId UNKNOWN (ChartNotFoundForDispose chartId)
                                     "dispose" None]).
Proof.
  intros Hi Hd Hh c'.
  destruct (disposeChart_live c chartId i Hi Hd)
    as (c2 & errs & Hdel & Hh2 & [more Hout] & Hrun).
  assert (Hc' : c' = mkController (delete chartId (charts c)) true
                       (outbox c ++ more ++ [DisposedMessage chartId errs])).
  { unfold c'. cbn [Controller.step]. rewrite handleMessage_exec. cbn [dispatch].
    rewrite Hrun. unfold emit, modify. cbn.
    rewrite Hh2, Hh, Hdel, Hout. now rewrite <- app_assoc. }
  rewrite Hc'. cbn [charts outbox]. split; [reflexivity |].
  split; [now exists more, errs |].
  cbn [Controller.step]. rewrite handleMessage_exec. cbn [dispatch].
  unfold exec, disposeChart, catch. cbn [charts]. rewrite lookup_delete_eq.
  unfold emitError, emit, modify. cbn. reflexivity.
Qed.

(** ** Invariants of the registered instances *)

(** A property of instances that the code cannot undo: it holds of a chart
    when [initChart] registers it, and every assignment keeps it. *)
Record Kept (Q : ChartInstance -> Prop) : Prop := {
  kept_assignment : forall f i, Assignment f -> Q i -> Q (f i);
  kept_fresh : forall context reaction wh,
      Q (mkInstance context (mkCoordinator [] reaction) wh
                    (mkChannel 0 false) (mkState false false false))
}.

Lemma Kept_Framed (Q : ChartInstance -> Prop) :
  Kept Q -> Framed (fun _ => True) (Always (fun _ => Q)).
Proof.
  intros HQ. split.
  - apply preserves_emit.
  - intros id f _ Hf. apply preserves_updateInstance. intros i. now apply HQ.
  - intros id context reaction wh _. apply Always_insert. apply HQ.
  - intros id _ c Hc other i Hi.
    change (fst (disposeChart id c)) with (exec (disposeChart id) c) in Hi.
    destruct (disposeChart_charts c id) as [E | E]; rewrite E in Hi.
    + now apply (Hc other).
    + apply lookup_delete_Some in Hi as [_ Hi]. now apply (Hc other).
Qed.

Lemma Kept_not_disposed :
  Kept (fun i : ChartInstance => disposed (state i) = false).
Proof.
  split; [| reflexivity].
  intros f i Hf Hi. destruct Hf; cbn; try exact Hi.
  unfold scheduleRender. destruct (_ && _); exact Hi.
Qed.

(** Whatever happens to a controller that started without charts, no chart in
    its registry is ever marked disposed: [disposeChart] takes a chart out of
    the registry in the same step in which it marks it.  So the "is disposed"
    branch of [getChartInstance] is never taken. *)
Theorem registered_charts_are_never_disposed (events : list Event) (c : Controller) :
  charts c = ∅ ->
  Always (fun _ i => disposed (state i) = false) (run events c)
  /\ forall chartId operation,
       snd (getChartInstance chartId operation (run events c))
       <> inl (ChartDisposed chartId operation).
Proof.
  intros Hempty.
  assert (H : Always (fun _ (i : ChartInstance) => disposed (state i) = false)
                     (run events c)).
  { apply (framed_run (fun _ => True) _ (Kept_Framed _ Kept_not_disposed)).
    - apply Forall_forall. intros; exact Logic.I.
    - intros id i Hi. rewrite Hempty, lookup_empty in Hi. discriminate. }
  split; [exact H |].
  intros chartId operation. unfold getChartInstance.
  destruct (charts (run events c) !! chartId) as [i |] eqn:Hi; [| discriminate].
  rewrite (H _ _ Hi). destruct (deviceLost (state i)); discriminate.
Qed.

Lemma disposeChart_returns chartId (c : Controller) :
  exists c', disposeChart chartId c = (c', inr tt).
Proof.
  unfold disposeChart, catch. cbv beta.
  match goal with |- context [let (_, _) := ?x in _] =>
    destruct x as [c' [e | []]]
  end; eexists; reflexivity.
Qed.

Lemma disposeAll_charts (chartIds : list string) : forall c : Controller,
  Always (fun _ i => disposed (state i) = false) c ->
  exists c' : Controller,
    fold_right (fun chartId k => bind (disposeChart chartId) (fun _ => k))
               (ret tt) chartIds c = (c', inr tt)
    /\ messageHandler c' = messageHandler c
    /\ forall chartId,
         charts c' !! chartId
         = if bool_decide (chartId ∈ chartIds) then None else charts c !! chartId.
Proof.
  induction chartIds as [| id chartIds IH]; intros c Hc; cbn [fold_right].
  - exists c. split; [reflexivity |]. split; [reflexivity |]. intros chartId.
    rewrite bool_decide_eq_false_2 by apply not_elem_of_nil. reflexivity.
  - unfold bind at 1. destruct (disposeChart_returns id c) as [c1 Hc1]. rewrite Hc1.
    assert (E : c1 = exec (disposeChart id) c) by (unfold exec; now rewrite Hc1).
    assert (Hcharts : charts c1 = delete id (charts c)).
    { rewrite E. destruct (charts c !! id) as [i |] eqn:Hi.
      - destruct (disposeChart_live c id i Hi (Hc _ _ Hi)) as (c2 & errs & Hdel & _ & _ & ->).
        unfold emit, modify. cbn. now destruct (messageHandler c2).
      - rewrite (delete_id _ _ Hi). unfold exec, disposeChart, catch. rewrite Hi.
        unfold emitError, emit, modify. cbn. now destruct (messageHandler c). }
    assert (Hh1 : messageHandler c1 = messageHandler c).
    { rewrite E. destruct (charts c !! id) as [i |] eqn:Hi.
      - destruct (disposeChart_live c id i Hi (Hc _ _ Hi)) as (c2 & errs & _ & Hh & _ & ->).
        unfold emit, modify. cbn. destruct (messageHandler c2) eqn:E2; cbn; congruence.
      - unfold exec, disposeChart, catch. rewrite Hi.
        unfold emitError, emit, modify. cbn.
        destruct (messageHandler c) eqn:E2; cbn; congruence. }
    assert (Hc1' : Always (fun _ (i : ChartInstance) => disposed (state i) = false) c1).
    { intros other i Hi. rewrite Hcharts in Hi.
      apply lookup_delete_Some in Hi as [_ Hi]. now apply (Hc other). }
    destruct (IH c1 Hc1') as (c' & Hrun & IHh & IHc).
    exists c'. split; [exact Hrun |]. split; [congruence |].
    intros chartId. rewrite IHc, Hcharts.
    destruct (decide (chartId = id)) as [-> | Hne].
    + rewrite lookup_delete_eq.
      rewrite (bool_decide_eq_true_2 (id ∈ id :: chartIds)) by apply list_elem_of_here.
      now destruct (bool_decide _).
    + rewrite lookup_delete_ne by congruence.
      destruct (bool_decide (chartId ∈ chartIds)) eqn:Hin.
      * apply bool_decide_eq_true_1 in Hin.
        rewrite bool_decide_eq_true_2 by now apply list_elem_of_further. reflexivity.
      * apply bool_decide_eq_false_1 in Hin.
        rewrite bool_decide_eq_false_2; [reflexivity |].
        intros Hin'. apply elem_of_cons in Hin' as [? | ?]; contradiction.
Qed.



(** ** resize *)

(** [size] is what [handleResize] makes of a scaled CSS length on a device
    whose textures are at most [limit] wide: its integer part, cut down to
    [limit]. *)
Definition fitsDevice (limit scaled size : Q) : Prop :=
  (1 <= size)%Q /\ (size <= limit)%Q /\ (size <= scaled)%Q
  /\ ((inject_Z (Qfloor scaled) <= limit)%Q -> (size == inject_Z (Qfloor scaled))%Q).

Lemma finalDimension (limit scaled : Q) :
  (1 <= limit)%Q -> (1 <= scaled)%Q ->
  exists size,
    max (ofZ 1) (min (floor (Fin scaled)) (Fin limit)) = Fin size
    /\ fitsDevice limit scaled size.
Proof.
  intros Hlimit Hscaled.
  assert (Hfloor : (1 <= inject_Z (Qfloor scaled))%Q).
  { change 1%Q with (inject_Z 1). rewrite <- Zle_Qle.
    apply Qfloor_resp_le in Hscaled. exact Hscaled. }
  pose proof (Qfloor_le scaled) as Hle.
  cbn [floor min le ofZ].
  destruct (Qle_bool (inject_Z (Qfloor scaled)) limit) eqn:E.
  - apply Qle_bool_iff in E. cbn [max le ofZ].
    rewrite (proj2 (Qle_bool_iff (inject_Z 1) _) Hfloor).
    eexists. split; [reflexivity |]. unfold fitsDevice.
    split; [assumption |]. split; [assumption |]. split; [assumption |].
    intros _. reflexivity.
  - assert (Hlt : (limit < inject_Z (Qfloor scaled))%Q).
    { apply Qnot_le_lt. intros H. apply Qle_bool_iff in H. congruence. }
    cbn [max le ofZ]. rewrite (proj2 (Qle_bool_iff (inject_Z 1) _) Hlimit).
    eexists. split; [reflexivity |]. unfold fitsDevice.
    split; [assumption |]. split; [apply Qle_refl |].
    split; [apply Qlt_le_weak; eapply Qlt_le_trans; eassumption |].
    intros H. exfalso. apply (Qlt_irrefl limit). eapply Qlt_le_trans; eassumption.
Qed.



(** ** init *)

(** The ways [initChart] can fail before it has registered the chart: the
    devicePixelRatio is not positive, or the GPU context, the options or the
    coordinator cannot be had. *)
Definition initFails (up : @BringUp ResolvedOptions PointerEventData)
           (msg : InitMessage) : Prop :=
  le (initDevicePixelRatio msg) (ofZ 0) = true
  \/ (exists message, initializedContext up = inl message)
  \/ (exists message, resolveOptions (initOptions msg) = inl message)
  \/ (exists message, createdCoordinator up = inl message).

(** An init message that fails in one of these ways registers nothing and is
    answered by exactly one error message, which carries the messageId of the
    init message, the operation "init", and the code WEBGPU_INIT_FAILED or
    UNKNOWN. *)
Theorem failed_init_registers_nothing up (msg : InitMessage) (c : Controller) :
  charts c !! initChartId msg = None ->
  messageHandler c = true ->
  initFails up msg ->
  exists code why,
    step (Message up (InitChart msg)) c
    = mkController (charts c) true
        (outbox c ++ [ErrorMessage (initChartId msg) code why "init"
                                   (Some (initMessageId msg))])
    /\ (code = WEBGPU_INIT_FAILED \/ code = UNKNOWN).
Proof.
  intros Hnone Hh Hfail. cbn [Controller.step]. rewrite handleMessage_exec. cbn [dispatch].
  assert (Hreport : forall why,
             exists code,
               fst (bind (updateInstance (initChartId msg)
                            (withChannel (fun ch => mkChannel (posted ch) true)))
                         (fun _ => emitError (initChartId msg)
                                     (match why with
                                      | Foreign text =>
                                          if includes "WebGPU" text then WEBGPU_INIT_FAILED
                                          else UNKNOWN
                                      | _ => UNKNOWN
                                      end) why "init" (Some (initMessageId msg))) c)
               = mkController (charts c) true
                   (outbox c ++ [ErrorMessage (initChartId msg) code why "init"
                                              (Some (initMessageId msg))])
               /\ (code = WEBGPU_INIT_FAILED \/ code = UNKNOWN)).
  { intros why. eexists. split.
    - unfold bind, updateInstance, emitError, emit, modify. cbn. rewrite Hh.
      rewrite alter_id by (intros x Hx; congruence). reflexivity.
    - destruct why; try (now right). destruct (includes "WebGPU" message); [now left | now right]. }
  unfold exec, initChart. rewrite Hnone. unfold catch.
  destruct (le (initDevicePixelRatio msg) (ofZ 0)) eqn:Hdpr.
  { destruct (Hreport (InvalidDevicePixelRatio (initDevicePixelRatio msg))) as (code & E & Hc).
    exists code. eexists. split; [exact E | exact Hc]. }
  destruct Hfail as [Hf | [[m Hf] | [[m Hf] | [m Hf]]]]; [congruence | | |].
  - rewrite Hf. destruct (Hreport (Foreign m)) as (code & E & Hc).
    exists code. eexists. split; [exact E | exact Hc].
  - destruct (initializedContext up) as [m' | context].
    + destruct (Hreport (Foreign m')) as (code & E & Hc).
      exists code. eexists. split; [exact E | exact Hc].
    + rewrite Hf. destruct (Hreport (Foreign m)) as (code & E & Hc).
      exists code. eexists. split; [exact E | exact Hc].
  - destruct (initializedContext up) as [m' | context].
    + destruct (Hreport (Foreign m')) as (code & E & Hc).
      exists code. eexists. split; [exact E | exact Hc].
    + destruct (resolveOptions (initOptions msg)) as [m' | resolved].
      * destruct (Hreport (Foreign m')) as (code & E & Hc).
        exists code. eexists. split; [exact E | exact Hc].
      * rewrite Hf. destruct (Hreport (Foreign m)) as (code & E & Hc).
        exists code. eexists. split; [exact E | exact Hc].
Qed.

(** An init message for a new chartId whose GPU context, options and
    coordinator can be had registers the chart with the canvas and the context
    it was given, sends ready with the messageId of the init message before
    anything else, and renders once.  This holds even if that first render
    throws: the chart stays registered and the error follows the ready
    message. *)
Theorem init_registers_the_chart
        up (msg : InitMessage) (c : Controller) context reaction resolved :
  charts c !! initChartId msg = None ->
  messageHandler c = true ->
  le (initDevicePixelRatio msg) (ofZ 0) = false ->
  initializedContext up = inr context ->
  resolveOptions (initOptions msg) = inr resolved ->
  createdCoordinator up = inr reaction ->
  let c' := step (Message up (InitChart msg)) c in
  Has (initChartId msg)
      (fun i => calls (coordinator i) = [Render]
                /\ canvas i = initCanvas msg
                /\ gpuContext i = context
                /\ disposed (state i) = false) c'
  /\ exists more,
      outbox c' = outbox c ++ ReadyMessage (initChartId msg) (initMessageId msg) :: more.
Proof.
  intros Hnone Hh Hdpr Hctx Hres Hco c'.
  set (id := initChartId msg) in *.
  set (fresh := mkInstance context (mkCoordinator [] reaction) (initCanvas msg)
                           (mkChannel 0 false) (mkState false false false)).
  set (c2 := mkController (<[id := fresh]> (charts c)) true
                          (outbox c ++ [ReadyMessage id (initMessageId msg)])).
  set (P := fun i : ChartInstance =>
              canvas i = initCanvas msg /\ gpuContext i = context
              /\ disposed (state i) = false).
  set (O := fun c0 : Controller =>
              exists more,
                outbox c0 = outbox c ++ ReadyMessage id (initMessageId msg) :: more).
  assert (HP : CallbackInvariant (Has id P)).
  { apply Has_CallbackInvariant; intros j Hj; unfold P in *; [| exact Hj].
    unfold scheduleRender. destruct (_ && _); exact Hj. }
  assert (HOemit : forall m, preserves O (emit m)).
  { intros m c0 [more Hm]. unfold emit, modify, O. cbn.
    destruct (messageHandler c0); cbn; [| eauto].
    exists (more ++ [m]). rewrite Hm. now rewrite <- app_assoc. }
  assert (HOup : forall f, preserves O (updateInstance id f)).
  { intros f c0 H0. exact H0. }
  assert (Hi2 : charts c2 !! id = Some fresh)
    by (unfold c2; cbn [charts]; apply lookup_insert_eq).
  pose proof (callCoordinator_records c2 id fresh Render Hi2) as Hcalls.
  assert (HP2 : Has id P (fst (callCoordinator id Render c2))).
  { apply (preserves_callCoordinator _ HP).
    - apply preserves_updateInstance_Has. intros j Hj. exact Hj.
    - exists fresh. split; [exact Hi2 |]. repeat split. }
  assert (HO2 : O (fst (callCoordinator id Render c2))).
  { apply callCoordinator_preserves; [exact HOemit | exact HOup |].
    exists []. reflexivity. }
  assert (Hc' : c' = fst (catch (callCoordinator id Render)
                     (fun e => bind (updateInstance id
                                       (withChannel (fun ch => mkChannel (posted ch) true)))
                                    (fun _ => emitError id
                                       (match e with
                                        | Foreign text =>
                                            if includes "WebGPU" text
                                            then WEBGPU_INIT_FAILED else UNKNOWN
                                        | _ => UNKNOWN
                                        end) e "init" (Some (initMessageId msg)))) c2)).
  { unfold c'. cbn [Controller.step]. rewrite handleMessage_exec. cbn [dispatch].
    unfold exec, initChart. fold id. rewrite Hnone, Hdpr, Hctx, Hres, Hco.
    unfold catch, bind at 1, modify at 1. unfold bind at 1, emit at 1, modify at 1.
    cbn [messageHandler charts outbox]. rewrite Hh. reflexivity. }
  rewrite Hc'. unfold catch.
  set (Q := fun i : ChartInstance =>
              calls (coordinator i) = [Render]
              /\ canvas i = initCanvas msg /\ gpuContext i = context
              /\ disposed (state i) = false).
  assert (HQ : Has id Q (fst (callCoordinator id Render c2))).
  { destruct Hcalls as (j & Hj & Hjc). destruct HP2 as (j' & Hj' & Hjp).
    rewrite Hj in Hj'. injection Hj' as <-.
    exists j. split; [exact Hj |]. split; [exact Hjc | exact Hjp]. }
  destruct (callCoordinator id Render c2) as [c3 [e | []]]; cbn [fst] in HQ, HO2;
    [| split; assumption].
  split.
  - revert HQ. apply preserves_bind; [| intros _; apply preserves_emit_Has].
    apply preserves_updateInstance_Has. intros j Hj. exact Hj.
  - exact (preserves_bind O _ _ (HOup _) (fun _ => HOemit _) c3 HO2).
Qed.

(** ** A render that throws *)


End WithCollaborators.

(** ** The facts above on the controller of worker-entry.ts *)

(** A second chart next to the one of [demo]. *)
Definition twoCharts : @Controller unit unit :=
  demoRun [Message demoUp
             (InitChart (mkInit "other" "msg_2" (ofZ 2) (ofZ 400, ofZ 300) tt))]
          demo.

Lemma charts_are_isolated_witness :
  charts (demoRun lostOperations twoCharts) !! "other" = charts twoCharts !! "other".
Proof.
  apply (charts_are_isolated demoResolve lostOperations "other" twoCharts).
  repeat (constructor; [cbn; discriminate |]). constructor.
Defined.

Lemma messages_without_handler_are_dropped_witness :
  messageHandler (demoRun lostOperations create) = false
  /\ outbox (demoRun lostOperations create) = [].
Proof.
  apply (messages_without_handler_are_dropped demoResolve lostOperations create).
  reflexivity.
Defined.

Lemma unknown_chart_is_refused_witness :
  exists why operation,
    demoStep (Message demoUp (SetZoomRangeMsg "nobody" (ofZ 0) (ofZ 1))) demo
    = mkController (charts demo) true
        (outbox demo ++ [ErrorMessage "nobody" UNKNOWN why operation None]).
Proof.
  apply (unknown_chart_is_refused (AnimationConfig := unit) demoResolve demoUp
           (SetZoomRangeMsg "nobody" (ofZ 0) (ofZ 1)) demo).
  - discriminate.
  - vm_compute. reflexivity.
  - vm_compute. reflexivity.
Defined.

(** One good item, one item for series -1. *)
Definition badIndexBatch : list BatchItem :=
  [mkBatchItem (ofZ 0) bytes16 (ofZ 1) (ofZ 16);
   mkBatchItem (ofZ (-1)) bytes16 (ofZ 1) (ofZ 16)].

Lemma batch_is_checked_before_it_is_applied_witness :
  exists why,
    demoStep (Message demoUp (AppendDataBatch "chart" badIndexBatch)) demo
    = mkController (charts demo) true
        (outbox demo ++ [ErrorMessage "chart" DATA_ERROR why "appendDataBatch" None]).
Proof.
  apply (batch_is_checked_before_it_is_applied
           (ChartGPUOptions := unit) (AnimationConfig := unit)
           demoResolve demoUp demo "chart" badIndexBatch).
  - vm_compute. reflexivity.
  - apply Exists_cons_tl, Exists_cons_hd. vm_compute. reflexivity.
Defined.

Lemma batch_stops_at_the_first_bad_buffer_witness :
  let c' := demoStep (Message demoUp
                        (AppendDataBatch "chart"
                           ([mkBatchItem (ofZ 0) bytes16 (ofZ 1) (ofZ 16)]
                            ++ mkBatchItem (ofZ 1) bytes8 (ofZ 1) (ofZ 8)
                            :: [mkBatchItem (ofZ 2) bytes16 (ofZ 1) (ofZ 16)]))) demo in
  Has "chart"
      (fun i' => calls (coordinator i')
                 = calls (coordinator (instanceOf demo))
                   ++ map appendCall [mkBatchItem (ofZ 0) bytes16 (ofZ 1) (ofZ 16)]) c'
  /\ exists emitted,
      outbox c' = outbox demo ++ emitted
                  ++ [ErrorMessage "chart" DATA_ERROR (DataPointsError (InvalidStride (ofZ 8)))
                                   "appendDataBatch" None].
Proof.
  apply (batch_stops_at_the_first_bad_buffer
           (ChartGPUOptions := unit) (AnimationConfig := unit)
           demoResolve demoUp demo "chart" (instanceOf demo)
           [mkBatchItem (ofZ 0) bytes16 (ofZ 1) (ofZ 16)]
           (mkBatchItem (ofZ 1) bytes8 (ofZ 1) (ofZ 8))
           [mkBatchItem (ofZ 2) bytes16 (ofZ 1) (ofZ 16)]
           (InvalidStride (ofZ 8))).
  - vm_compute. reflexivity.
  - vm_compute. reflexivity.
  - vm_compute. reflexivity.
  - vm_compute. reflexivity.
  - intros l k. destruct k; reflexivity.
  - repeat (constructor; [vm_compute; reflexivity |]). constructor.
  - constructor; [| constructor]. eexists. vm_compute. reflexivity.
  - vm_compute. reflexivity.
Defined.

Lemma disposeChart_unregisters_witness :
  let c' := demoStep (Message demoUp (DisposeChart "chart")) twoCharts in
  charts c' = delete "chart" (charts twoCharts)
  /\ (exists emitted cleanupErrors,
        outbox c' = outbox twoCharts ++ emitted ++ [DisposedMessage "chart" cleanupErrors])
  /\ demoStep (Message demoUp (DisposeChart "chart")) c'
     = mkController (charts c') true
         (outbox c' ++ [ErrorMessage "chart" UNKNOWN (ChartNotFoundForDispose "chart")
                                     "dispose" None]).
Proof.
  apply (disposeChart_unregisters (ChartGPUOptions := unit) (AnimationConfig := unit)
           demoResolve demoUp twoCharts "chart" (instanceOf twoCharts));
    vm_compute; reflexivity.
Defined.

Lemma registered_charts_are_never_disposed_witness :
  Always (fun _ i => disposed (state i) = false)
         (demoRun [Message demoUp (DisposeChart "chart")] twoCharts)
  /\ forall chartId operation,
       snd (getChartInstance chartId operation
              (demoRun [Message demoUp (DisposeChart "chart")] twoCharts))
       <> inl (ChartDisposed chartId operation).
Proof.
  change (demoRun [Message demoUp (DisposeChart "chart")] twoCharts)
    with (demoRun [Message demoUp
                     (InitChart (mkInit "chart" "msg_1" (ofZ 1) (ofZ 800, ofZ 600) tt));
                   Message demoUp
                     (InitChart (mkInit "other" "msg_2" (ofZ 2) (ofZ 400, ofZ 300) tt));
                   Message demoUp (DisposeChart "chart")]
                  (onMessage create)).
  apply (registered_charts_are_never_disposed demoResolve). reflexivity.
Defined.



(** A worker without WebGPU. *)
Definition noGpu : @BringUp unit unit :=
  mkBringUp (inl "WebGPU is not supported") (inr demoReact).

Lemma failed_init_registers_nothing_witness :
  exists code why,
    demoStep (Message noGpu
                (InitChart (mkInit "chart" "msg_1" (ofZ 1) (ofZ 800, ofZ 600) tt)))
             (onMessage create)
    = mkController ∅ true [ErrorMessage "chart" code why "init" (Some "msg_1")]
    /\ (code = WEBGPU_INIT_FAILED \/ code = UNKNOWN).
Proof.
  apply (failed_init_registers_nothing (AnimationConfig := unit) demoResolve noGpu
           (mkInit "chart" "msg_1" (ofZ 1) (ofZ 800, ofZ 600) tt) (onMessage create)).
  - reflexivity.
  - reflexivity.
  - right. left. eexists. reflexivity.
Defined.

Lemma init_registers_the_chart_witness :
  Has "chart"
      (fun i => calls (coordinator i) = [Render]
                /\ canvas i = (ofZ 800, ofZ 600)
                /\ gpuContext i
                   = mkGPUContextState (Some (mkGPUDevice (ofZ 8192)))
                                       (Some (mkGPUCanvasContext None)) (Some "bgra8unorm")
                /\ disposed (state i) = false) demo
  /\ exists more, outbox demo = [] ++ ReadyMessage "chart" "msg_1" :: more.
Proof.
  apply (init_registers_the_chart (AnimationConfig := unit) demoResolve demoUp
           (mkInit "chart" "msg_1" (ofZ 1) (ofZ 800, ofZ 600) tt) (onMessage create)
           _ demoReact tt); reflexivity.
Defined.

(** A coordinator whose [render] throws once it has been given data. *)
Definition flakyReact (seen : list (@CoordinatorCall unit unit))
           (call : @CoordinatorCall unit unit) : Reaction :=
  match call with
  | AppendData _ _ => mkReaction [onRequestRender] None
  | Render => mkReaction [] (if Nat.ltb 0 (length seen) then Some "out of memory" else None)
  | _ => mkReaction [] None
  end.

Definition flaky : @Controller unit unit :=
  demoRun [Message (mkBringUp (initializedContext demoUp) (inr flakyReact))
             (InitChart (mkInit "chart" "msg_1" (ofZ 1) (ofZ 800, ofZ 600) tt));
           Message demoUp (AppendDataMsg "chart" (ofZ 0) bytes16 (ofZ 1) (ofZ 16))]
          (onMessage create).


End ControllerFacts.

(* ====================================================================== *)
(** * Further properties of the proxy                                   *)
(* ====================================================================== *)

Module ProxyFacts.
Import JS Wire Proxy.

(** [dispose] on a proxy that is in use settles every pending request: each is
    rejected, once, with a DISPOSED error that names its operation, and none
    stays pending; every listener set is emptied, and the proxy stops
    listening to the worker. *)
Theorem dispose_settles_pending_requests (p : Proxy) :
  isDisposed p = false ->
  let p' := fst (dispose p) in
  pendingRequests p' = ∅
  /\ (forall messageId op,
        pendingRequests p !! messageId = Some op ->
        (messageId, mkError DisposedBeforeCompleted DISPOSED op (chartId p))
        ∈ rejected p')
  /\ length (rejected p') = (length (rejected p) + size (pendingRequests p))%nat
  /\ (forall eventName callbacks,
        listeners p' !! eventName = Some callbacks -> callbacks = ∅)
  /\ workerListener p' = false.
Proof.
  intros Hd p'.
  assert (Hp' : p' = rejectAndDetach
                       (disposeOverlays (cleanupResizeMonitoring
                                           (cleanupEventListeners (setDisposed p))))).
  { unfold p', dispose. rewrite Hd. cbn [fst]. unfold sendMessage.
    unfold cleanupEventListeners. cbn. destruct (canvasInContainer p); reflexivity. }
  assert (Hsame : forall q : Proxy,
             let q' := disposeOverlays (cleanupResizeMonitoring
                                          (cleanupEventListeners (setDisposed q))) in
             pendingRequests q' = pendingRequests q /\ rejected q' = rejected q
             /\ listeners q' = listeners q /\ chartId q' = chartId q).
  { intros q. unfold cleanupEventListeners. cbn.
    destruct (canvasInContainer q); cbn; repeat split. }
  destruct (Hsame p) as (Hpend & Hrej & Hlis & Hid).
  rewrite Hp'. cbn [rejectAndDetach pendingRequests rejected listeners workerListener].
  rewrite Hpend, Hrej, Hlis, Hid.
  split; [reflexivity |]. split; [| split; [| split; [| reflexivity]]].
  - intros messageId op Hop. apply elem_of_app. right.
    apply list_elem_of_fmap. exists (messageId, op). split; [reflexivity |].
    now apply elem_of_map_to_list.
  - rewrite length_app, length_map, length_map_to_list. reflexivity.
  - intros eventName callbacks. rewrite lookup_fmap.
    destruct (listeners p !! eventName); cbn; congruence.
Qed.

Lemma dispose_settles_pending_requests_witness :
  let p' := fst (dispose (created "chart")) in
  pendingRequests p' = ∅
  /\ (forall messageId op,
        pendingRequests (created "chart") !! messageId = Some op ->
        (messageId, mkError DisposedBeforeCompleted DISPOSED op "chart") ∈ rejected p')
  /\ length (rejected p') = (0 + size (pendingRequests (created "chart")))%nat
  /\ (forall eventName callbacks,
        listeners p' !! eventName = Some callbacks -> callbacks = ∅)
  /\ workerListener p' = false.
Proof. apply (dispose_settles_pending_requests (created "chart")). reflexivity. Defined.

End ProxyFacts.

(* ====================================================================== *)
(** * Further properties of the bridge                                  *)
(* ====================================================================== *)

Module BridgeFacts.
Import JS Wire.

Section WithCollaborators.
Context {ChartGPUOptions ResolvedOptions PointerEventData AnimationConfig : Type}.
Variable resolveOptions : ChartGPUOptions -> string + ResolvedOptions.

Local Abbreviation Controller := (@Controller.Controller ResolvedOptions PointerEventData).
Local Abbreviation ChartInstance :=
  (@Controller.ChartInstance ResolvedOptions PointerEventData).
Local Abbreviation step :=
  (@Controller.step ChartGPUOptions ResolvedOptions PointerEventData AnimationConfig
                    resolveOptions).
Local Abbreviation delivered :=
  (@Bridge.delivered ChartGPUOptions PointerEventData AnimationConfig).

(** The guards of [setZoomRange], as the proxy has them (percent) and as the
    worker has them (fractions). *)
Definition passesProxy (start end_ : number) : bool :=
  negb (lt start (ofZ 0) || gt start (ofZ 100) || lt end_ (ofZ 0) || gt end_ (ofZ 100))
  && negb (ge start end_).

Definition passesWorker (start end_ : number) : bool :=
  negb (lt start (ofZ 0) || gt start (ofZ 1) || lt end_ (ofZ 0) || gt end_ (ofZ 1))
  && negb (ge start end_).

Lemma setZoomRange_posts (p : Proxy.Proxy) (start end_ : number) :
  Proxy.isDisposed p = false ->
  passesProxy start end_ = true ->
  Proxy.setZoomRange start end_ p
  = (Proxy.post (Proxy.PostSetZoomRange (Proxy.chartId p) start end_)
                (Proxy.setCachedZoomRange (Some (start, end_)) p), Proxy.Returned).
Proof.
  intros Hd Hpass. unfold passesProxy in Hpass.
  apply andb_true_iff in Hpass as [H1 H2]. apply negb_true_iff in H1, H2.
  unfold Proxy.setZoomRange, Proxy.sendMessage. rewrite Hd, H1, H2. cbn. now rewrite Hd.
Qed.

Lemma handleSetZoomRange_passes up (c : Controller) chartId (i : ChartInstance) start end_ :
  Controller.charts c !! chartId = Some i ->
  Controller.disposed (Controller.state i) = false ->
  Controller.deviceLost (Controller.state i) = false ->
  passesWorker start end_ = true ->
  Controller.Has chartId
    (fun i' => Controller.calls (Controller.coordinator i')
               = Controller.calls (Controller.coordinator i)
                 ++ [Controller.SetZoomRange start end_])
    (step (Controller.Message up (Controller.SetZoomRangeMsg chartId start end_)) c).
Proof.
  intros Hi Hd Hl Hpass. unfold passesWorker in Hpass.
  apply andb_true_iff in Hpass as [H1 H2]. apply negb_true_iff in H1, H2.
  cbn [Controller.step]. rewrite Controller.handleMessage_exec. cbn [Controller.dispatch].
  unfold Controller.handleSetZoomRange, Controller.exec, Controller.catch.
  rewrite H1, H2. unfold Controller.bind at 1.
  rewrite (Controller.getChartInstance_live _ _ _ _ Hi Hd Hl).
  pose proof (Controller.callCoordinator_records c chartId i
                (Controller.SetZoomRange start end_) Hi) as H.
  destruct (Controller.callCoordinator chartId (Controller.SetZoomRange start end_) c)
    as [c' [e | []]]; cbn in H |- *; [| exact H].
  now apply Controller.preserves_emit_Has.
Qed.

(** The two ends of the bridge disagree about what a zoom range is.  The proxy
    accepts a range in percent (0 <= start < end <= 100), caches it and posts
    it as it is; the worker checks the numbers it receives against [0, 1].  So
    a range the proxy accepted reaches the coordinator only if its end is at
    most 1; any other is answered by an error with the code UNKNOWN and never
    reaches the coordinator, while [getZoomRange] on the proxy returns it. *)
Theorem zoom_range_units_differ
        (p : Proxy.Proxy) (start end_ : Q) up (c : Controller) (i : ChartInstance) :
  Proxy.isDisposed p = false ->
  (0 <= start)%Q -> (start < end_)%Q -> (end_ <= 100)%Q ->
  Controller.charts c !! Proxy.chartId p = Some i ->
  Controller.disposed (Controller.state i) = false ->
  Controller.deviceLost (Controller.state i) = false ->
  Controller.messageHandler c = true ->
  exists m,
    Proxy.setZoomRange (Fin start) (Fin end_) p
    = (Proxy.post m (Proxy.setCachedZoomRange (Some (Fin start, Fin end_)) p),
       Proxy.Returned)
    /\ Proxy.getZoomRange (fst (Proxy.setZoomRange (Fin start) (Fin end_) p))
       = Some (Fin start, Fin end_)
    /\ ((end_ <= 1)%Q ->
        Controller.Has (Proxy.chartId p)
          (fun i' => Controller.calls (Controller.coordinator i')
                     = Controller.calls (Controller.coordinator i)
                       ++ [Controller.SetZoomRange (Fin start) (Fin end_)])
          (step (Controller.Message up (delivered m)) c))
    /\ ((1 < end_)%Q ->
        step (Controller.Message up (delivered m)) c
        = Controller.mkController (Controller.charts c) true
            (Controller.outbox c
             ++ [Controller.ErrorMessage (Proxy.chartId p) Controller.UNKNOWN
                   (Controller.ZoomRangeOutside01 (Fin start) (Fin end_))
                   "setZoomRange" None])).
Proof.
  intros Hd H0 Hlt H100 Hi Hdisp Hlost Hh.
  assert (Hle : forall a b : Q, (a <= b)%Q -> Qle_bool a b = true)
    by (intros a b; apply Qle_bool_iff).
  assert (Hnle : forall a b : Q, (a < b)%Q -> Qle_bool b a = false).
  { intros a b Hab. destruct (Qle_bool b a) eqn:E; [| reflexivity].
    apply Qle_bool_iff in E. lra. }
  assert (Hproxy : passesProxy (Fin start) (Fin end_) = true).
  { unfold passesProxy, lt, gt, ge, le, ofZ. unfold lt.
    rewrite (Hle (inject_Z 0) start) by exact H0.
    rewrite (Hle start (inject_Z 100)) by (change (inject_Z 100) with 100%Q; lra).
    rewrite (Hle (inject_Z 0) end_) by (change (inject_Z 0) with 0%Q; lra).
    rewrite (Hle end_ (inject_Z 100)) by exact H100.
    rewrite (Hnle start end_) by exact Hlt. reflexivity. }
  exists (Proxy.PostSetZoomRange (Proxy.chartId p) (Fin start) (Fin end_)).
  rewrite (setZoomRange_posts p _ _ Hd Hproxy).
  split; [reflexivity |]. split.
  { unfold Proxy.getZoomRange, Proxy.post, Proxy.setCachedZoomRange. cbn. now rewrite Hd. }
  cbn [Bridge.delivered]. split.
  - intros H1. apply handleSetZoomRange_passes; try assumption.
    unfold passesWorker, lt, gt, ge, le, ofZ. unfold lt.
    rewrite (Hle (inject_Z 0) start) by exact H0.
    rewrite (Hle start (inject_Z 1)) by (change (inject_Z 1) with 1%Q; lra).
    rewrite (Hle (inject_Z 0) end_) by (change (inject_Z 0) with 0%Q; lra).
    rewrite (Hle end_ (inject_Z 1)) by exact H1.
    rewrite (Hnle start end_) by exact Hlt. reflexivity.
  - intros H1.
    cbn [Controller.step]. rewrite Controller.handleMessage_exec.
    cbn [Controller.dispatch]. unfold Controller.handleSetZoomRange.
    apply Controller.refused; [assumption |].
    unfold lt, gt, ge, le, ofZ. unfold lt.
    rewrite (Hnle (inject_Z 1) end_) by exact H1.
    cbn [negb orb]. rewrite !orb_true_r. reflexivity.
Qed.

(** NaN, or a fraction between 0 and 1. *)
Definition nanOrFraction (x : number) : Prop :=
  match x with
  | NaN => True
  | Fin q => (0 <= q <= 1)%Q
  | _ => False
  end.

(** No guard of [setZoomRange] holds back NaN, since every comparison with NaN
    is false.  A call in which one end, or both, is NaN (the other a fraction
    between 0 and 1) is accepted by the proxy, which caches and posts it, and
    by the worker, which hands it to the coordinator of a live chart. *)
Theorem zoom_range_guards_let_NaN_through
        (p : Proxy.Proxy) (start end_ : number) up (c : Controller) (i : ChartInstance) :
  Proxy.isDisposed p = false ->
  start = NaN \/ end_ = NaN ->
  nanOrFraction start -> nanOrFraction end_ ->
  Controller.charts c !! Proxy.chartId p = Some i ->
  Controller.disposed (Controller.state i) = false ->
  Controller.deviceLost (Controller.state i) = false ->
  exists m,
    Proxy.setZoomRange start end_ p
    = (Proxy.post m (Proxy.setCachedZoomRange (Some (start, end_)) p), Proxy.Returned)
    /\ Controller.Has (Proxy.chartId p)
         (fun i' => Controller.calls (Controller.coordinator i')
                    = Controller.calls (Controller.coordinator i)
                      ++ [Controller.SetZoomRange start end_])
         (step (Controller.Message up (delivered m)) c).
Proof.
  intros Hd Hnan Hs He Hi Hdisp Hlost.
  assert (Hle : forall a b : Q, (a <= b)%Q -> Qle_bool a b = true)
    by (intros a b; apply Qle_bool_iff).
  assert (Hpass : passesProxy start end_ = true /\ passesWorker start end_ = true).
  { unfold passesProxy, passesWorker, lt, gt, ge, le, ofZ. unfold lt.
    destruct start as [| | | a], end_ as [| | | b]; try contradiction;
      try (destruct Hnan; discriminate); cbn in Hs, He.
    - split; reflexivity.
    - destruct He as [He0 He1].
      rewrite (Hle (inject_Z 0) b) by exact He0.
      rewrite (Hle b (inject_Z 1)) by exact He1.
      rewrite (Hle b (inject_Z 100)) by (change (inject_Z 100) with 100%Q; lra).
      split; reflexivity.
    - destruct Hs as [Hs0 Hs1].
      rewrite (Hle (inject_Z 0) a) by exact Hs0.
      rewrite (Hle a (inject_Z 1)) by exact Hs1.
      rewrite (Hle a (inject_Z 100)) by (change (inject_Z 100) with 100%Q; lra).
      split; reflexivity. }
  destruct Hpass as [Hproxy Hworker].
  exists (Proxy.PostSetZoomRange (Proxy.chartId p) start end_).
  split; [now apply setZoomRange_posts |].
  cbn [Bridge.delivered]. now apply handleSetZoomRange_passes.
Qed.

End WithCollaborators.

(** A proxy and a worker for the same chart. *)
Lemma zoom_range_units_differ_witness :
  exists m,
    Proxy.setZoomRange (Fin 0) (Fin 50) (Proxy.created "chart")
    = (Proxy.post m (Proxy.setCachedZoomRange (Some (Fin 0, Fin 50)) (Proxy.created "chart")),
       Proxy.Returned)
    /\ Proxy.getZoomRange (fst (Proxy.setZoomRange (Fin 0) (Fin 50) (Proxy.created "chart")))
       = Some (Fin 0, Fin 50)
    /\ ((50 <= 1)%Q ->
        Controller.Has "chart"
          (fun i' => Controller.calls (Controller.coordinator i')
                     = Controller.calls (Controller.coordinator
                                           (Controller.instanceOf Controller.demo))
                       ++ [Controller.SetZoomRange (Fin 0) (Fin 50)])
          (Controller.demoStep
             (Controller.Message Controller.demoUp (Bridge.delivered m)) Controller.demo))
    /\ ((1 < 50)%Q ->
        Controller.demoStep (Controller.Message Controller.demoUp (Bridge.delivered m))
                            Controller.demo
        = Controller.mkController (Controller.charts Controller.demo) true
            (Controller.outbox Controller.demo
             ++ [Controller.ErrorMessage "chart" Controller.UNKNOWN
                   (Controller.ZoomRangeOutside01 (Fin 0) (Fin 50))
                   "setZoomRange" None])).
Proof.
  apply (zoom_range_units_differ Controller.demoResolve (Proxy.created "chart") 0 50
           Controller.demoUp Controller.demo (Controller.instanceOf Controller.demo));
    try (vm_compute; reflexivity); vm_compute; discriminate.
Defined.

Lemma zoom_range_guards_let_NaN_through_witness :
  exists m,
    Proxy.setZoomRange NaN (Fin 0.5) (Proxy.created "chart")
    = (Proxy.post m (Proxy.setCachedZoomRange (Some (NaN, Fin 0.5)) (Proxy.created "chart")),
       Proxy.Returned)
    /\ Controller.Has "chart"
         (fun i' => Controller.calls (Controller.coordinator i')
                    = Controller.calls (Controller.coordinator
                                          (Controller.instanceOf Controller.demo))
                      ++ [Controller.SetZoomRange NaN (Fin 0.5)])
         (Controller.demoStep
            (Controller.Message Controller.demoUp (Bridge.delivered m)) Controller.demo).
Proof.
  apply (zoom_range_guards_let_NaN_through Controller.demoResolve (Proxy.created "chart")
           NaN (Fin 0.5) Controller.demoUp Controller.demo
           (Controller.instanceOf Controller.demo));
    try (vm_compute; reflexivity).
  - now left.
  - split; vm_compute; discriminate.
Defined.

Lemma appendData_crosses_unchanged_witness :
  exists m,
    Proxy.appendData (ofZ 0) twoPoints (Proxy.created "chart")
    = (Proxy.post m (Proxy.created "chart"), Proxy.Returned)
    /\ Controller.Has "chart"
         (fun i' => Controller.calls (Controller.coordinator i')
                    = Controller.calls (Controller.coordinator
                                          (Controller.instanceOf Controller.demo))
                      ++ [Controller.AppendData (ofZ 0) twoPoints])
         (Controller.demoStep
            (Controller.Message Controller.demoUp (Bridge.delivered m)) Controller.demo).
Proof.
  apply (Bridge.appendData_crosses_unchanged Controller.demoResolve (Proxy.created "chart")
           (ofZ 0) twoPoints Controller.demoUp Controller.demo
           (Controller.instanceOf Controller.demo));
    try (vm_compute; reflexivity).
  - discriminate.
  - left. repeat constructor; apply isFloat64_dec_true; reflexivity.
Defined.

End BridgeFacts.
